(** * VCBot petition system: lifecycle and signature reconciliation

    A shallow embedding of [petition_commands.py]: the persisted petition
    document, the live state of the petitions channel, the reaction
    handler, the two periodic sweeps, the repair pass and the marker
    functions, followed by the properties of the petition lifecycle.

    Conventions of the model.
    - Text is a [string] holding the UTF-8 bytes of the text of the
      program.  [first_chars] is the slice [s[:n]], which counts
      characters; [lower] lowers the letters A to Z, which is [str.lower]
      on ASCII text ([is_ascii]) only (the keywords and field names of the
      program are ASCII).
    - Instants and durations are integers counting microseconds, the
      resolution of [datetime]; [now] is read from the world and only the
      environment moves it, an [asyncio.sleep] is recorded in the trace.
    - The petition document is a [gmap] from message id to record; the key
      [str(message_id)] is identified with the id itself.  Reads of the
      form [d.get(k, default)] see an absent key as the default value.
      A stored date is a [stamp]: an instant with its time zone, a date
      without time zone, or something [fromisoformat] does not read.
      The map does not record the order in which the file lists its
      petitions: a pass walks them in the order of [map_to_list], and the
      report of invalid petitions, which shows the order, is given it
      ([items_in]).
    - Reading and writing [petitions.json] does not fail; every call to
      the chat platform may fail, as scheduled by the [faults] of the
      world.
    - An operation ([op]) runs from start to end; a sweep overlapped by
      other operations is a [step] that runs the rest of its loop on the
      document it read earlier. *)

From Stdlib Require Import ZArith String Ascii List Lia Bool DecimalString.
From stdpp Require Import base option list gmap strings relations.

Open Scope string_scope.
Open Scope Z_scope.

(** ** Configuration *)

Definition PETITIONS_CHANNEL_ID : Z := 859209770439278613.
Definition PETITION_SUBMISSION_CHANNEL_ID : Z := 1169091012178743306.
Definition BALLPOINT_EMOJI : string := "🖊️".
Definition SIGNATURE_THRESHOLD : Z := 25.
Definition RECALL_SIGNATURE_THRESHOLD : Z := 30.
Definition PETITION_EXPIRY_DAYS : Z := 30.
Definition RECALL_KEYWORDS : list string := ["fire"; "sack"; "recall"].

(** ** Text *)

(** [str.lower] on ASCII text: the letters A to Z are lowered, every other
    byte is left as it is. *)
Definition lower_ascii (c : ascii) : ascii :=
  let n := N_of_ascii c in
  if ((65 <=? n) && (n <=? 90))%N then ascii_of_N (n + 32) else c.

Fixpoint lower (s : string) : string :=
  match s with
  | EmptyString => EmptyString
  | String c s' => String (lower_ascii c) (lower s')
  end.

Fixpoint startswith (k s : string) : bool :=
  match k, s with
  | EmptyString, _ => true
  | String _ _, EmptyString => false
  | String a k', String b s' => if Ascii.eqb a b then startswith k' s' else false
  end.

(** [str_in k s] is Python's [k in s] on strings. *)
Fixpoint str_in (k s : string) : bool :=
  startswith k s ||
  match s with
  | EmptyString => false
  | String _ s' => str_in k s'
  end.

(** [k] occurs in [s]: the reading of "contains the substring". *)
Definition Substring (k s : string) : Prop :=
  exists pre post : string, s = pre ++ k ++ post.

(** Case-insensitive containment, as the wording "contains ... case-insensitively"
    reads. *)
Definition contains_ci (k s : string) : bool := str_in (lower k) (lower s).

(** Text of ASCII characters only: there [lower] is [str.lower]. *)
Definition is_ascii (s : string) : bool :=
  forallb (fun c => (N_of_ascii c <? 128)%N) (list_ascii_of_string s).

(** A byte [10xxxxxx] continues the character begun before it. *)
Definition continuation (c : ascii) : bool :=
  let n := N_of_ascii c in ((128 <=? n) && (n <? 192))%N.

(** [s[:n]]: the bytes of the first [n] characters. *)
Fixpoint first_chars (n : nat) (s : string) : string :=
  match s with
  | EmptyString => EmptyString
  | String c s' =>
      if continuation c then String c (first_chars n s')
      else
        match n with
        | O => EmptyString
        | S k => String c (first_chars k s')
        end
  end.

(** [f"{n}"] for an integer. *)
Definition str_of_Z (n : Z) : string := NilZero.string_of_int (Z.to_int n).

(** [f"{a}/{b}"]. *)
Definition fraction (a b : Z) : string := str_of_Z a ++ "/" ++ str_of_Z b.

(** ** Time *)

Definition seconds (s : Z) : Z := s * 1000000.
Definition half_second : Z := 500000.
Definition timedelta_days (d : Z) : Z := d * 86400 * 1000000.

(** [td.days] of a [timedelta]: whole days, rounded towards minus infinity. *)
Definition days_of (td : Z) : Z := td / timedelta_days 1.

(** ** The petition record *)

(** What [datetime.fromisoformat] makes of a stored date: an instant with
    its time zone, [Aware t] for the UTC instant [t] (what the program
    itself writes); a date without time zone, [Naive], which cannot be
    compared with or subtracted from the aware [datetime.now(timezone.utc)];
    or nothing, [Unreadable], when the key is absent or the text does
    not parse. *)
Inductive stamp :=
  | Aware (t : Z)
  | Naive
  | Unreadable.

Record Petition := mkPetition {
  title : string;
  description : string;
  link : option string;
  author_id : Z;
  author_name : string;
  created_at : stamp;
  thread_id : option Z;
  signatures : Z;
  is_recall : bool;
  threshold_reached : bool;
  expired : bool;
  invalid : bool;
  invalid_reason : option string;
  marked_invalid_at : option Z
}.

Definition set_signatures (n : Z) (p : Petition) : Petition :=
  mkPetition (title p) (description p) (link p) (author_id p) (author_name p)
    (created_at p) (thread_id p) n (is_recall p) (threshold_reached p)
    (expired p) (invalid p) (invalid_reason p) (marked_invalid_at p).

Definition set_threshold_reached (p : Petition) : Petition :=
  mkPetition (title p) (description p) (link p) (author_id p) (author_name p)
    (created_at p) (thread_id p) (signatures p) (is_recall p) true
    (expired p) (invalid p) (invalid_reason p) (marked_invalid_at p).

Definition set_expired (p : Petition) : Petition :=
  mkPetition (title p) (description p) (link p) (author_id p) (author_name p)
    (created_at p) (thread_id p) (signatures p) (is_recall p)
    (threshold_reached p) true (invalid p) (invalid_reason p)
    (marked_invalid_at p).

Definition set_invalid (reason : string) (at_ : Z) (p : Petition) : Petition :=
  mkPetition (title p) (description p) (link p) (author_id p) (author_name p)
    (created_at p) (thread_id p) (signatures p) (is_recall p)
    (threshold_reached p) (expired p) true (Some reason) (Some at_).

(** [is_recall_petition]: any keyword occurs in the lower-cased
    [title + " " + description]. *)
Definition is_recall_petition (title description : string) : bool :=
  let text := lower (title ++ " " ++ description) in
  existsb (fun keyword => str_in keyword text) RECALL_KEYWORDS.

Definition get_petition_threshold (petition_data : Petition) : Z :=
  if is_recall petition_data then RECALL_SIGNATURE_THRESHOLD
  else SIGNATURE_THRESHOLD.

(** The record [PetitionModal.on_submit] stores for a new petition. *)
Definition new_petition (title description : string) (link : option string)
    (author_id : Z) (author_name : string) (now : Z) (thread : Z) : Petition :=
  mkPetition title description link author_id author_name (Aware now)
    (Some thread) 0 (is_recall_petition title description) false false
    false None None.

(** ** The chat platform *)

Record User := mkUser { user_id : Z; user_bot : bool }.

Record Reaction := mkReaction { r_emoji : string; r_users : list User }.

Record Field := mkField { f_name : string; f_value : string; f_inline : bool }.

Record Embed := mkEmbed {
  e_title : string;
  e_color : Z;
  e_fields : list Field;
  e_footer : string
}.

Record Message := mkMessage {
  m_reactions : list Reaction;
  m_embeds : list Embed;
  m_thread : bool
}.

(** What a call to the platform can raise: [discord.HTTPException] with
    its status ([discord.NotFound] is the subclass with status 404) and an
    optional [retry_after] attribute (a duration), or any other
    exception. *)
Inductive exn :=
  | HTTPException (status : Z) (retry_after : option Z)
  | OtherError.

Definition NotFound : exn := HTTPException 404 None.

(** What the program does to the outside, newest first. *)
Inductive call :=
  | AddReaction (mid : Z)
  | RemoveReaction (mid : Z)
  | Edit (mid : Z) (embed : Embed)
  | CreateThread (mid : Z) (name : string)
  | ThreadSend (mid : Z)
  | AdminSend (mid : Z) (shown_signatures : Z)
  | Sleep (duration : Z).

(** The state the program runs in: the document [data/petitions.json];
    the live messages of the petitions channel, by id; whether
    [client.get_channel] finds the petitions channel and the admin
    submission channel; [client.user]; the current instant; the outcomes
    of the coming requests to the platform, in order ([None]: answered,
    [Some e]: raises [e]; all answered once the list is used up); and the
    trace of what was done. *)
Record World := mkWorld {
  petitions_file : gmap Z Petition;
  messages : gmap Z Message;
  petitions_channel : bool;
  submission_channel : bool;
  client_user : User;
  now : Z;
  faults : list (option exn);
  trace : list call
}.

Definition set_file (d : gmap Z Petition) (w : World) : World :=
  mkWorld d (messages w) (petitions_channel w) (submission_channel w)
    (client_user w) (now w) (faults w) (trace w).

Definition set_messages (ms : gmap Z Message) (w : World) : World :=
  mkWorld (petitions_file w) ms (petitions_channel w) (submission_channel w)
    (client_user w) (now w) (faults w) (trace w).

Definition set_faults (fs : list (option exn)) (w : World) : World :=
  mkWorld (petitions_file w) (messages w) (petitions_channel w)
    (submission_channel w) (client_user w) (now w) fs (trace w).

Definition set_trace (t : list call) (w : World) : World :=
  mkWorld (petitions_file w) (messages w) (petitions_channel w)
    (submission_channel w) (client_user w) (now w) (faults w) t.

(** ** Computations: state and exceptions *)

Definition M (A : Type) : Type := World -> (exn + A) * World.

Definition ret {A} (a : A) : M A := fun w => (inr a, w).

Definition raise {A} (e : exn) : M A := fun w => (inl e, w).

Definition bind {A B} (m : M A) (f : A -> M B) : M B :=
  fun w =>
    match m w with
    | (inl e, w') => (inl e, w')
    | (inr a, w') => f a w'
    end.

(** [try: m except Exception as e: h e]. *)
Definition try_except {A} (m : M A) (h : exn -> M A) : M A :=
  fun w =>
    match m w with
    | (inl e, w') => h e w'
    | (inr a, w') => (inr a, w')
    end.

Notation "x <- m ;; k" := (bind m (fun x => k))
  (at level 100, m at next level, right associativity, only parsing).
Notation "m ;;; k" := (bind m (fun _ => k))
  (at level 100, right associativity, only parsing).

(** A [for] loop: an exception leaving the body leaves the loop. *)
Fixpoint for_each {X} (l : list X) (body : X -> M unit) : M unit :=
  match l with
  | [] => ret tt
  | x :: l' => body x ;;; for_each l' body
  end.

Definition exec {A} (m : M A) (w : World) : World := snd (m w).
Definition outcome {A} (m : M A) (w : World) : exn + A := fst (m w).

Definition get_world : M World := fun w => (inr w, w).

Definition emit (c : call) : M unit :=
  fun w => (inr tt, set_trace (c :: trace w) w).

Definition sleep (duration : Z) : M unit := emit (Sleep duration).

(** Every request to the platform consumes one scheduled outcome. *)
Definition remote_call : M unit :=
  fun w =>
    match faults w with
    | [] => (inr tt, w)
    | None :: fs => (inr tt, set_faults fs w)
    | Some e :: fs => (inl e, set_faults fs w)
    end.

(** A request that changes message [mid]: not found when the message is
    gone. *)
Definition on_message (mid : Z) (f : World -> Message -> Message) (c : call)
    : M unit :=
  remote_call ;;;
  fun w =>
    match messages w !! mid with
    | None => (inl NotFound, w)
    | Some m =>
        (inr tt,
         set_trace (c :: trace w) (set_messages (<[mid := f w m]> (messages w)) w))
    end.

(** [client.get_channel(PETITIONS_CHANNEL_ID)]: found or not. *)
Definition get_channel : M bool := fun w => (inr (petitions_channel w), w).

(** [channel.fetch_message(mid)]: the live message, or not found. *)
Definition fetch_message (mid : Z) : M Message :=
  remote_call ;;;
  fun w =>
    match messages w !! mid with
    | None => (inl NotFound, w)
    | Some m => (inr m, w)
    end.

Definition is_ballpoint (r : Reaction) : bool :=
  String.eqb (r_emoji r) BALLPOINT_EMOJI.

Definition has_user (u : User) (us : list User) : bool :=
  existsb (fun v => user_id v =? user_id u) us.

Definition human_users (us : list User) : list User :=
  List.filter (fun u => negb (user_bot u)) us.

(** The platform adds user [u] to the pen reaction, creating it if needed. *)
Fixpoint react (u : User) (rs : list Reaction) : list Reaction :=
  match rs with
  | [] => [mkReaction BALLPOINT_EMOJI [u]]
  | r :: rs' =>
      if is_ballpoint r then
        (if has_user u (r_users r) then r
         else mkReaction (r_emoji r) (r_users r ++ [u])) :: rs'
      else r :: react u rs'
  end.

(** The platform removes user [u] from the pen reaction, and the reaction
    itself when nobody is left. *)
Fixpoint unreact (u : User) (rs : list Reaction) : list Reaction :=
  match rs with
  | [] => []
  | r :: rs' =>
      if is_ballpoint r then
        match List.filter (fun v => negb (user_id v =? user_id u)) (r_users r) with
        | [] => rs'
        | us => mkReaction (r_emoji r) us :: rs'
        end
      else r :: unreact u rs'
  end.

Definition with_reactions (rs : list Reaction) (m : Message) : Message :=
  mkMessage rs (m_embeds m) (m_thread m).

Definition with_embed (e : Embed) (m : Message) : Message :=
  mkMessage (m_reactions m) [e] (m_thread m).

Definition with_thread (m : Message) : Message :=
  mkMessage (m_reactions m) (m_embeds m) true.

(** [message.add_reaction(BALLPOINT_EMOJI)]: the client's own reaction. *)
Definition add_reaction (mid : Z) : M unit :=
  on_message mid
    (fun w m => with_reactions (react (client_user w) (m_reactions m)) m)
    (AddReaction mid).

(** [message.remove_reaction(BALLPOINT_EMOJI, client.user)]. *)
Definition remove_reaction (mid : Z) : M unit :=
  on_message mid
    (fun w m => with_reactions (unreact (client_user w) (m_reactions m)) m)
    (RemoveReaction mid).

(** [message.edit(embed=embed)]: the message then carries this one embed. *)
Definition edit (mid : Z) (embed : Embed) : M unit :=
  on_message mid (fun _ m => with_embed embed m) (Edit mid embed).

(** [message.create_thread(name=...)]. *)
Definition create_thread (mid : Z) (name : string) : M unit :=
  on_message mid (fun _ m => with_thread m) (CreateThread mid name).

(** [thread.send(...)] into the thread of message [mid]. *)
Definition thread_send (mid : Z) : M unit :=
  remote_call ;;; emit (ThreadSend mid).

(** [reaction.users()]. *)
Definition reaction_users (r : Reaction) : M (list User) :=
  remote_call ;;; ret (r_users r).

(** ** The persisted document *)

(** [load_petition_data]: the document as it is now. *)
Definition load_petition_data : M (gmap Z Petition) :=
  fun w => (inr (petitions_file w), w).

(** [json.dump(petitions, f)]: the whole document is rewritten. *)
Definition save (petitions : gmap Z Petition) : M unit :=
  fun w => (inr tt, set_file petitions w).

(** [datetime.now(timezone.utc)]. *)
Definition utcnow : M Z := fun w => (inr (now w), w).

Definition mark_petition_invalid (message_id : Z) (reason : string) : M bool :=
  try_except
    (petitions <- load_petition_data ;;
     match petitions !! message_id with
     | Some p =>
         t <- utcnow ;;
         save (<[message_id := set_invalid reason t p]> petitions) ;;;
         ret true
     | None => ret false
     end)
    (fun _ => ret false).

Definition update_petition_signatures (message_id signature_count : Z) : M unit :=
  try_except
    (petitions <- load_petition_data ;;
     match petitions !! message_id with
     | Some p => save (<[message_id := set_signatures signature_count p]> petitions)
     | None => ret tt
     end)
    (fun _ => ret tt).

Definition mark_threshold_reached (message_id : Z) : M bool :=
  try_except
    (petitions <- load_petition_data ;;
     match petitions !! message_id with
     | Some p =>
         save (<[message_id := set_threshold_reached p]> petitions) ;;;
         ret true
     | None => ret false
     end)
    (fun _ => ret false).

Definition mark_petition_expired (message_id : Z) : M bool :=
  try_except
    (petitions <- load_petition_data ;;
     match petitions !! message_id with
     | Some p =>
         save (<[message_id := set_expired p]> petitions) ;;;
         ret true
     | None => ret false
     end)
    (fun _ => ret false).

(** ** Expiry *)

(** [check_petition_expired]: whatever is raised, by a missing or
    unparsable date or by the comparison with a naive one, makes it answer
    [False]. *)
Definition check_petition_expired (petition_data : Petition) : M bool :=
  try_except
    (match created_at petition_data with
     | Aware created =>
         let expiry_date := created + timedelta_days PETITION_EXPIRY_DAYS in
         t <- utcnow ;;
         ret (expiry_date <? t)
     | Naive => raise OtherError
     | Unreadable => raise OtherError
     end)
    (fun _ => ret false).

(** The age test of the signature sweep and of the repair pass:
    [(now - created_at).days > PETITION_EXPIRY_DAYS].  A missing date skips
    the test and an unparsable one is caught ([except (ValueError,
    AttributeError): pass]), so both pass; the subtraction of a naive date
    raises [TypeError], which that clause does not catch. *)
Definition older_than_expiry (petition_data : Petition) : M bool :=
  match created_at petition_data with
  | Aware created =>
      t <- utcnow ;;
      ret (PETITION_EXPIRY_DAYS <? days_of (t - created))
  | Naive => raise OtherError
  | Unreadable => ret false
  end.

(** ** Embeds *)

Definition SIGNATURES_NEEDED : string := "Signatures Needed".
Definition GREEN : Z := 65280.
Definition RED : Z := 16711680.

(** The loop that rewrites the first field named "Signatures Needed". *)
Fixpoint set_signatures_field (value : string) (fs : list Field) : list Field :=
  match fs with
  | [] => []
  | f :: fs' =>
      if String.eqb (f_name f) SIGNATURES_NEEDED
      then mkField SIGNATURES_NEEDED value false :: fs'
      else f :: set_signatures_field value fs'
  end.

Definition with_fields (fs : list Field) (e : Embed) : Embed :=
  mkEmbed (e_title e) (e_color e) fs (e_footer e).

Definition with_color (c : Z) (e : Embed) : Embed :=
  mkEmbed (e_title e) c (e_fields e) (e_footer e).

Definition show_signatures (count threshold : Z) (e : Embed) : Embed :=
  with_fields (set_signatures_field (fraction count threshold) (e_fields e)) e.

Definition expired_embed (petition_data : Petition) (e : Embed) : Embed :=
  mkEmbed ("[EXPIRED] " ++ title petition_data) RED
    (set_signatures_field
       (fraction (signatures petition_data) SIGNATURE_THRESHOLD ++ " (EXPIRED)")
       (e_fields e))
    ("This petition expired after " ++ str_of_Z PETITION_EXPIRY_DAYS ++
     " days • Use /petition to create your own").

Definition update_expired_embed (mid : Z) (message : Message)
    (petition_data : Petition) : M unit :=
  try_except
    (match m_embeds message with
     | [] => ret tt
     | embed :: _ => edit mid (expired_embed petition_data embed)
     end)
    (fun _ => ret tt).

(** ** The admin notification *)

Definition notify_threshold_reached (petition_data : Petition) (message_id : Z)
    : M unit :=
  try_except
    (w <- get_world ;;
     if negb (submission_channel w) then ret tt
     else
       match created_at petition_data with
       | Unreadable => raise OtherError
       | Aware _ | Naive =>
           remote_call ;;;
           emit (AdminSend message_id (signatures petition_data))
       end)
    (fun _ => ret tt).

(** The block shared by the handler and the signature sweep: show the
    count, and on the first crossing of the threshold turn the embed green,
    notify and mark, then send the edit. *)
Definition publish_count (mid : Z) (message : Message) (petition_data : Petition)
    (count : Z) : M unit :=
  match m_embeds message with
  | [] => ret tt
  | embed :: _ =>
      let threshold := get_petition_threshold petition_data in
      let embed := show_signatures count threshold embed in
      if (threshold <=? count) && negb (threshold_reached petition_data) then
        notify_threshold_reached (set_signatures count petition_data) mid ;;;
        _ <- mark_threshold_reached mid ;;
        edit mid (with_color GREEN embed)
      else edit mid embed
  end.

(** ** The reaction handler *)

Record Payload := mkPayload {
  channel_id : Z;
  message_id : Z;
  emoji : string
}.

(** The placeholder of the handler: added when no human has signed and it
    is missing, removed when a human has signed and it is there; any
    failure is swallowed. *)
Definition manage_bot_signature (mid : Z) (all_users : list User) : M unit :=
  w <- get_world ;;
  let human_signature_count := Z.of_nat (length (human_users all_users)) in
  let bot_has_reacted := has_user (client_user w) all_users in
  try_except
    (if (human_signature_count =? 0) && negb bot_has_reacted
     then add_reaction mid
     else if (0 <? human_signature_count) && bot_has_reacted
     then remove_reaction mid
     else ret tt)
    (fun _ => ret tt).

(** The reconciliation of the handler, once the petition is known not to
    be expired: find the pen reaction, manage the placeholder, store and
    publish the count of human signers. *)
Definition reconcile (mid : Z) (message : Message) (petition_data : Petition)
    : M unit :=
  match List.find is_ballpoint (m_reactions message) with
  | None =>
      add_reaction mid ;;;
      update_petition_signatures mid 0
  | Some reaction =>
      fetched <- try_except
                   (us <- reaction_users reaction ;; ret (Some us))
                   (fun _ => ret None) ;;
      match fetched with
      | None => ret tt
      | Some all_users =>
          let human_signature_count :=
            Z.of_nat (length (human_users all_users)) in
          manage_bot_signature mid all_users ;;;
          update_petition_signatures mid human_signature_count ;;;
          publish_count mid message petition_data human_signature_count
      end
  end.

Definition handle_petition_reaction (payload : Payload) : M unit :=
  if negb (channel_id payload =? PETITIONS_CHANNEL_ID) then ret tt
  else if negb (String.eqb (emoji payload) BALLPOINT_EMOJI) then ret tt
  else
    let mid := message_id payload in
    try_except
      (channel <- get_channel ;;
       if negb channel then ret tt
       else
         message <- fetch_message mid ;;
         petitions <- load_petition_data ;;
         match petitions !! mid with
         | None => ret tt
         | Some petition_data =>
             is_expired <- check_petition_expired petition_data ;;
             let was_already_expired := expired petition_data in
             if is_expired && negb was_already_expired then
               _ <- mark_petition_expired mid ;;
               update_expired_embed mid message petition_data
             else if is_expired then ret tt
             else reconcile mid message petition_data
         end)
      (fun _ => ret tt).

(** ** The periodic sweeps *)

(** The [except] clauses around one petition of a sweep.  [discord.NotFound]
    is an [HTTPException] with status 404, so the first clause takes it. *)
Definition sweep_handler (mid : Z) (message_404 : string) (e : exn) : M unit :=
  match e with
  | HTTPException status retry_after =>
      if status =? 429 then sleep (default (seconds 5) retry_after)
      else if status =? 404 then
        _ <- mark_petition_invalid mid message_404 ;; ret tt
      else ret tt
  | OtherError => ret tt
  end.

(** What both sweeps pass over: expired, completed or invalid petitions. *)
Definition skipped (petition_data : Petition) : bool :=
  expired petition_data || threshold_reached petition_data || invalid petition_data.

(** The human signatures on a fetched message: the users of the first pen
    reaction that are not bots, none when there is no pen reaction. *)
Definition count_signatures (message : Message) : M Z :=
  match List.find is_ballpoint (m_reactions message) with
  | Some reaction =>
      users <- reaction_users reaction ;;
      ret (Z.of_nat (length (human_users users)))
  | None => ret 0
  end.

(** One turn of the loop of [verify_petition_signature_counts], on an
    entry of the document read at the start of the sweep. *)
Definition verify_one (item : Z * Petition) : M unit :=
  let '(mid, petition_data) := item in
  if skipped petition_data then ret tt
  else
    old <- older_than_expiry petition_data ;;
    if old then ret tt
    else
      try_except
        (sleep half_second ;;;
         message <- fetch_message mid ;;
         actual_signatures <- count_signatures message ;;
         let stored_signatures := signatures petition_data in
         if actual_signatures =? stored_signatures then ret tt
         else
           update_petition_signatures mid actual_signatures ;;;
           publish_count mid message petition_data actual_signatures)
        (sweep_handler mid "Message not found (404)").

(** The loop of the signature sweep over the document it read. *)
Definition verify_loop (petitions : gmap Z Petition) : M unit :=
  for_each (map_to_list petitions) verify_one.

Definition verify_petition_signature_counts : M unit :=
  try_except
    (petitions <- load_petition_data ;;
     channel <- get_channel ;;
     if negb channel then ret tt
     else verify_loop petitions)
    (fun _ => ret tt).

(** One turn of the loop of [check_all_petitions_for_expiry]. *)
Definition expire_one (item : Z * Petition) : M unit :=
  let '(mid, petition_data) := item in
  if skipped petition_data then ret tt
  else
    is_expired <- check_petition_expired petition_data ;;
    if is_expired then
      try_except
        (sleep half_second ;;;
         message <- fetch_message mid ;;
         _ <- mark_petition_expired mid ;;
         update_expired_embed mid message petition_data)
        (sweep_handler mid "Message not found (404)")
    else ret tt.

(** The loop of the expiry sweep over the document it read. *)
Definition expiry_loop (petitions : gmap Z Petition) : M unit :=
  for_each (map_to_list petitions) expire_one.

Definition check_all_petitions_for_expiry : M unit :=
  try_except
    (petitions <- load_petition_data ;;
     channel <- get_channel ;;
     if negb channel then ret tt
     else expiry_loop petitions)
    (fun _ => ret tt).

(** ** The repair pass *)

Definition first_embed (message : Message) : M Embed :=
  match m_embeds message with
  | [] => raise OtherError
  | embed :: _ => ret embed
  end.

(** Step 3 of the repair: the signature field when it shows another value. *)
Definition fix_signatures_field (expected : string) (embed : Embed)
    : Embed * bool :=
  match List.find (fun f => String.eqb (f_name f) SIGNATURES_NEEDED) (e_fields embed) with
  | Some f =>
      if String.eqb (f_value f) expected then (embed, false)
      else (with_fields (set_signatures_field expected (e_fields embed)) embed, true)
  | None => (embed, false)
  end.

(** One turn of the loop of [repair_petition_system].  The colour test
    [embed.color != 0x00ff00] compares a [Colour] with an [int] and is
    true of every embed, so [actual_signatures >= SIGNATURE_THRESHOLD]
    alone decides whether the embed is sent again in green. *)
Definition repair_one (item : Z * Petition) : M unit :=
  let '(mid, petition_data) := item in
  if invalid petition_data then ret tt
  else
    old <- older_than_expiry petition_data ;;
    if old then ret tt
    else
      try_except
        (message <- fetch_message mid ;;
         sleep (seconds 1) ;;;
         match m_embeds message with
         | [] => ret tt
         | _ :: _ =>
             message <-
               match List.find is_ballpoint (m_reactions message) with
               | Some _ => ret message
               | None =>
                   add_reaction mid ;;;
                   sleep half_second ;;;
                   message <- fetch_message mid ;;
                   sleep half_second ;;;
                   ret message
               end ;;
             actual_signatures <- count_signatures message ;;
             embed <- first_embed message ;;
             let threshold := get_petition_threshold petition_data in
             let '(embed, fixed) :=
               fix_signatures_field (fraction actual_signatures threshold) embed in
             let recolour := SIGNATURE_THRESHOLD <=? actual_signatures in
             let embed := if recolour then with_color GREEN embed else embed in
             (if fixed || recolour
              then edit mid embed ;;; sleep half_second
              else ret tt) ;;;
             update_petition_signatures mid actual_signatures ;;;
             if negb (m_thread message) then
               try_except
                 (create_thread mid (first_chars 100 (title petition_data)) ;;;
                  thread_send mid ;;;
                  sleep half_second)
                 (fun _ => ret tt)
             else ret tt
         end)
        (sweep_handler mid "Message not found (404)").

(** The loop of the repair pass over the document it read. *)
Definition repair_loop (petitions : gmap Z Petition) : M unit :=
  for_each (map_to_list petitions) repair_one.

Definition repair_petition_system : M unit :=
  try_except
    (channel <- get_channel ;;
     if negb channel then ret tt
     else
       petitions <- load_petition_data ;;
       repair_loop petitions)
    (fun _ => ret tt).

(** ** The background loops *)





(** ** Histories *)

(** What can happen to a petition system: the program's own operations,
    and the platform changing under it (reactions, deletions, time,
    outages), which never touches the document or the trace. *)
Inductive op :=
  | ReactionEvent (payload : Payload)
  | SignatureAudit
  | ExpirySweep
  | Repair
  | MarkThreshold (mid : Z)
  | MarkExpired (mid : Z)
  | MarkInvalid (mid : Z) (reason : string)
  | UpdateSignatures (mid : Z) (count : Z)
  | Platform (ms : gmap Z Message) (channel admin_channel : bool) (t : Z)
      (fs : list (option exn)).

Definition run_op (o : op) (w : World) : World :=
  match o with
  | ReactionEvent payload => exec (handle_petition_reaction payload) w
  | SignatureAudit => exec verify_petition_signature_counts w
  | ExpirySweep => exec check_all_petitions_for_expiry w
  | Repair => exec repair_petition_system w
  | MarkThreshold mid => exec (mark_threshold_reached mid) w
  | MarkExpired mid => exec (mark_petition_expired mid) w
  | MarkInvalid mid reason => exec (mark_petition_invalid mid reason) w
  | UpdateSignatures mid count => exec (update_petition_signatures mid count) w
  | Platform ms channel admin_channel t fs =>
      mkWorld (petitions_file w) ms channel admin_channel (client_user w) t fs
        (trace w)
  end.

Definition run_ops (os : list op) (w : World) : World :=
  fold_left (fun w o => run_op o w) os w.

(** The tasks share one thread and give way at every [await], so a sweep
    that has read the document can still be under way while other
    operations run: the rest of its loop then works on the records it
    read, not on the current ones. *)
Inductive step :=
  | Whole (o : op)
  | AuditRest (read : gmap Z Petition)
  | ExpiryRest (read : gmap Z Petition)
  | RepairRest (read : gmap Z Petition).

Definition run_step (s : step) (w : World) : World :=
  match s with
  | Whole o => run_op o w
  | AuditRest read => exec (verify_loop read) w
  | ExpiryRest read => exec (expiry_loop read) w
  | RepairRest read => exec (repair_loop read) w
  end.

Definition run_steps (ss : list step) (w : World) : World :=
  fold_left (fun w s => run_step s w) ss w.

(** ** Observations on worlds and computations *)

(** What the admin channel was told about petition [mid]: the signature
    counts shown, newest first. *)
Fixpoint announcements (mid : Z) (t : list call) : list Z :=
  match t with
  | [] => []
  | AdminSend m n :: t' =>
      if m =? mid then n :: announcements mid t' else announcements mid t'
  | _ :: t' => announcements mid t'
  end.

(** The stored [threshold_reached] of petition [mid], false when there is
    no such petition. *)
Definition reached (mid : Z) (w : World) : bool :=
  match petitions_file w !! mid with
  | Some p => threshold_reached p
  | None => false
  end.

(** A record and a later version of it: the flags only go up, what was
    fixed at creation stays. *)
Definition record_le (p q : Petition) : Prop :=
  (threshold_reached p = true -> threshold_reached q = true) /\
  (expired p = true -> expired q = true) /\
  is_recall q = is_recall p /\
  created_at q = created_at p.

(** A world and a later one, as far as the document goes: petitions stay
    and their records only move up.  [evolves] adds the admin channel:
    each petition is announced at most once more, and then its flag was
    false before, is true after, and the count shown meets its
    threshold. *)
Definition grows (w w' : World) : Prop :=
  forall mid p, petitions_file w !! mid = Some p ->
    exists q, petitions_file w' !! mid = Some q /\ record_le p q.

Definition evolves (w w' : World) : Prop :=
  grows w w' /\
  (forall mid,
     announcements mid (trace w') = announcements mid (trace w) \/
     (exists n q,
        announcements mid (trace w') = n :: announcements mid (trace w) /\
        reached mid w = false /\
        petitions_file w' !! mid = Some q /\
        threshold_reached q = true /\
        get_petition_threshold q <= n)).

(** The stored flag of [mid] is still false when the record read earlier
    says so. *)
Definition unannounced (mid : Z) (petition_data : Petition) (w : World) : Prop :=
  threshold_reached petition_data = false ->
  exists q, petitions_file w !! mid = Some q /\
    threshold_reached q = false /\ is_recall q = is_recall petition_data.

(** Nothing written, nobody told. *)
Definition same_doc (w w' : World) : Prop :=
  petitions_file w' = petitions_file w /\
  forall mid, announcements mid (trace w') = announcements mid (trace w).

(** Petition [keep] and its anchor message are left alone, and no outage
    is scheduled where none was. *)
Definition leaves (keep : Z) (w w' : World) : Prop :=
  petitions_file w' !! keep = petitions_file w !! keep /\
  messages w' !! keep = messages w !! keep /\
  (faults w = [] -> faults w' = []) /\
  now w' = now w /\
  petitions_channel w' = petitions_channel w /\
  submission_channel w' = submission_channel w /\
  client_user w' = client_user w.

(** The document holds the same petitions, each with the creation date it
    had. *)
Definition same_dates (w w' : World) : Prop :=
  forall mid,
    created_at <$> petitions_file w' !! mid = created_at <$> petitions_file w !! mid.

(** The surroundings are the same: what is scheduled to fail, the clock,
    the channels and the client's own account. *)
Definition same_env (w w' : World) : Prop :=
  faults w' = faults w /\
  now w' = now w /\
  petitions_channel w' = petitions_channel w /\
  submission_channel w' = submission_channel w /\
  client_user w' = client_user w.

(** The first crossing of the threshold, as [publish_count] tests it on
    the record it was given. *)
Definition crossing (petition_data : Petition) (count : Z) : bool :=
  (get_petition_threshold petition_data <=? count)
  && negb (threshold_reached petition_data).

(** Every run of [m] relates the world before to the world after. *)
Definition respects (R : World -> World -> Prop) {A} (m : M A) : Prop :=
  forall w, R w (exec m w).

(** A run of [m] from a world in [P] stays within [R] and, when it
    returns [a], ends in [Q a]. *)
Definition triple (R : World -> World -> Prop) {A}
    (P : World -> Prop) (m : M A) (Q : A -> World -> Prop) : Prop :=
  forall w, P w ->
    R w (exec m w) /\ forall a, outcome m w = inr a -> Q a (exec m w).

(** [m] returns, whatever the world. *)
Definition never_raises {A} (m : M A) : Prop :=
  forall w, exists a, outcome m w = inr a.

(** The users on the pen reaction of a message. *)
Definition signers (message : Message) : list User :=
  match List.find is_ballpoint (m_reactions message) with
  | Some r => r_users r
  | None => []
  end.

(** The live count: signers that are not bots (the platform lists each
    reactor once). *)
Definition human_count (message : Message) : Z :=
  Z.of_nat (length (human_users (signers message))).

(** What the embed shows in its "Signatures Needed" field. *)
Definition shown_signatures (e : Embed) : option string :=
  f_value <$>
    List.find (fun f => String.eqb (f_name f) SIGNATURES_NEEDED) (e_fields e).

(** The calls of a trace that change the platform or reach the admins:
    everything but sleeping. *)
Definition is_remote_edit (c : call) : bool :=
  match c with
  | Sleep _ => false
  | _ => true
  end.

Definition remote_edits (t : list call) : list call := List.filter is_remote_edit t.

(** The age test of the signature sweep on a record, at instant [t]. *)
Definition too_old (petition_data : Petition) (t : Z) : bool :=
  match created_at petition_data with
  | Aware created => PETITION_EXPIRY_DAYS <? days_of (t - created)
  | Naive | Unreadable => false
  end.

(** The stored date of a record is timezone-naive; no record of a
    document has such a date (the program itself writes aware dates). *)
Definition naive_date (petition_data : Petition) : bool :=
  match created_at petition_data with
  | Naive => true
  | Aware _ | Unreadable => false
  end.

Definition dates_aware (petitions : gmap Z Petition) : bool :=
  forallb (fun item => negb (naive_date (snd item))) (map_to_list petitions).

(** Nothing is left for the signature sweep to do on petition [mid]: it
    is skipped, or too old, or its stored count is the live count. *)
Definition settled (mid : Z) (w : World) : Prop :=
  forall q, petitions_file w !! mid = Some q ->
    skipped q = true \/ too_old q (now w) = true \/
    exists m, messages w !! mid = Some m /\ human_count m = signatures q.

(** A run that changed nothing but the trace, and there only slept. *)
Definition idle (w w' : World) : Prop :=
  petitions_file w' = petitions_file w /\
  messages w' = messages w /\
  remote_edits (trace w') = remote_edits (trace w) /\
  same_env w w'.

(** Wherever the client's own account shows up among users, it is flagged
    as the bot it is. *)
Definition own_account_is_bot (me : User) (us : list User) : Prop :=
  Forall (fun v => user_id v = user_id me -> user_bot v = true) us.

(** The placeholder: the client's own pen reaction on a message. *)
Definition placeholder_on (me : User) (m : Message) : bool :=
  has_user me (signers m).

(** A message on which the handler finds nothing to manage: it has a pen
    reaction, and the placeholder is there exactly when no human signed. *)
Definition consistent (me : User) (m : Message) : Prop :=
  is_Some (List.find is_ballpoint (m_reactions m)) /\
  placeholder_on me m = (human_count m =? 0).

(** The live reactions are the same, on every message. *)
Definition same_reactions (w w' : World) : Prop :=
  forall i, m_reactions <$> messages w' !! i = m_reactions <$> messages w !! i.

(** ** Creating a petition *)







(** [interaction.response.defer()] and [interaction.followup.send(...)]
    are requests like the others. *)
Definition defer : M unit := remote_call.

Definition followup_send {A} (answer : A) : M A :=
  remote_call ;;; ret answer.

(** [interaction.response.send_message(...)]. *)
Definition send_message {A} (answer : A) : M A :=
  remote_call ;;; ret answer.


(** ** The report of invalid petitions *)

Definition ADMIN_ROLE_ID : Z := 654477469004595221.
Definition newline : string := String (ascii_of_nat 10) EmptyString.

(** The "Marked" line: a relative timestamp in whole seconds, or
    "Unknown time" for a missing or unparsable date. *)
Definition marked_text (marked_invalid_at : option Z) : string :=
  match marked_invalid_at with
  | Some t => "<t:" ++ str_of_Z (Z.quot t 1000000) ++ ":R>"
  | None => "Unknown time"
  end.

Definition invalid_entry (mid : Z) (petition_data : Petition) : Field :=
  mkField ("📋 " ++ first_chars 100 (title petition_data))
    ("**ID:** `" ++ str_of_Z mid ++ "`" ++ newline ++
     "**Reason:** " ++ default "Unknown reason" (invalid_reason petition_data) ++ newline ++
     "**Marked:** " ++ marked_text (marked_invalid_at petition_data))
    false.

(** The loop over the invalid petitions: ten entries at most, then one
    field telling how many are left out. *)
Fixpoint invalid_fields (count total : nat) (l : list (Z * Petition)) : list Field :=
  match l with
  | [] => []
  | (mid, petition_data) :: l' =>
      if (10 <=? count)%nat then
        [mkField "..."
           ("And " ++ str_of_Z (Z.of_nat (total - count)) ++ " more invalid petitions")
           false]
      else invalid_entry mid petition_data :: invalid_fields (S count) total l'
  end.

Inductive report :=
  | PermissionDenied
  | NoInvalidPetitions
  | InvalidPetitions (description : string) (fields : list Field)
  | ReportError.

Definition has_admin_role (roles : list Z) : bool :=
  existsb (Z.eqb ADMIN_ROLE_ID) roles.

(** [petitions.items()]: the petitions in the order in which the file
    lists them.  The map does not record that order; [order] is the list
    of the keys of the file, as they follow each other there. *)
Definition items_in (order : list Z) (petitions : gmap Z Petition)
    : list (Z * Petition) :=
  omap (fun mid => pair mid <$> petitions !! mid) order.

(** The embed built from the items of the document as read. *)
Definition invalid_report (items : list (Z * Petition)) : report :=
  let invalid_petitions := List.filter (fun item => invalid (snd item)) items in
  match invalid_petitions with
  | [] => NoInvalidPetitions
  | _ =>
      InvalidPetitions
        ("Found " ++ str_of_Z (Z.of_nat (length invalid_petitions)) ++
         " invalid petition(s)")
        (invalid_fields 0 (length invalid_petitions) invalid_petitions)
  end.

(** [manage_invalid_petitions_command] (and its twin
    [petition_invalid_command]) for a user with these roles, the file
    listing its petitions in [order]: what the user is answered. *)
Definition manage_invalid_petitions_command (order : list Z) (roles : list Z)
    : M report :=
  if negb (has_admin_role roles) then send_message PermissionDenied
  else
    defer ;;;
    try_except
      (petitions <- load_petition_data ;;
       followup_send (invalid_report (items_in order petitions)))
      (fun _ => followup_send ReportError).

(** ** The repair command *)

Inductive repair_answer :=
  | RepairDenied
  | RepairComplete
  | RepairError.

(** [repair_petitions_command] (and its twin [petition_repair_command]). *)
Definition repair_petitions_command (roles : list Z) : M repair_answer :=
  if negb (has_admin_role roles) then send_message RepairDenied
  else
    defer ;;;
    try_except
      (repair_petition_system ;;;
       followup_send RepairComplete)
      (fun _ => followup_send RepairError).

(** ** Start-up and the reaction callbacks *)

(** The sequence of [staggered_petition_startup]; the two background
    loops it spawns first begin with their long sleep. *)
Definition staggered_petition_startup : M unit :=
  sleep (seconds 2) ;;;
  sleep (seconds 3) ;;;
  repair_petition_system ;;;
  sleep (seconds 5) ;;;
  check_all_petitions_for_expiry ;;;
  sleep (seconds 3) ;;;
  verify_petition_signature_counts.

(** The attributes of the client that [setup_petition_handlers] reads and
    writes: a callback is there or not. *)
Record Client := mkClient {
  on_raw_reaction_add : option (Payload -> M unit);
  on_raw_reaction_remove : option (Payload -> M unit);
  original_on_raw_reaction_add : option (Payload -> M unit);
  original_on_raw_reaction_remove : option (Payload -> M unit)
}.

(** The callback [setup_petition_handlers] installs: the handler it found
    stored as original when it started, if any, then the petition
    handler. *)
Definition chained (original : option (Payload -> M unit)) (payload : Payload)
    : M unit :=
  match original with
  | Some callback => callback payload ;;; handle_petition_reaction payload
  | None => handle_petition_reaction payload
  end.

(** [setup_petition_handlers]: the client afterwards, and the start-up
    task it schedules. *)
Definition setup_petition_handlers (client : Client) : Client * M unit :=
  let original_reaction_add := original_on_raw_reaction_add client in
  let original_reaction_remove := original_on_raw_reaction_remove client in
  (mkClient
     (Some (chained original_reaction_add))
     (Some (chained original_reaction_remove))
     (match on_raw_reaction_add client with
      | Some callback => Some callback
      | None => original_on_raw_reaction_add client
      end)
     (match on_raw_reaction_remove client with
      | Some callback => Some callback
      | None => original_on_raw_reaction_remove client
      end),
   staggered_petition_startup).

(** [on_ready] fires at every (re)connection and sets the handlers up
    again each time. *)
Fixpoint setups (n : nat) (client : Client) : Client :=
  match n with
  | O => client
  | S n' => fst (setup_petition_handlers (setups n' client))
  end.

(** [m], [k] times in a row. *)
Fixpoint times (k : nat) (m : M unit) : M unit :=
  match k with
  | O => ret tt
  | S k' => times k' m ;;; m
  end.

(** The client as [bot.py] makes it: no reaction callback of its own. *)
Definition fresh_client : Client := mkClient None None None None.

(** What a callback slot does with an event: nothing when it is empty. *)
Definition fire (slot : option (Payload -> M unit)) (payload : Payload) : M unit :=
  match slot with
  | Some callback => callback payload
  | None => ret tt
  end.

(** ** More observations *)

(** The surroundings stay as they are, no outage appears where none was
    scheduled, and while the admin channel cannot be found nobody is
    told. *)
Definition calm (w w' : World) : Prop :=
  (faults w = [] -> faults w' = []) /\
  now w' = now w /\
  petitions_channel w' = petitions_channel w /\
  submission_channel w' = submission_channel w /\
  client_user w' = client_user w /\
  (submission_channel w = false ->
   forall mid, announcements mid (trace w') = announcements mid (trace w)).

(** The lifecycle flags of every petition are what they were, and nobody
    was told. *)
Definition keeps_flags (w w' : World) : Prop :=
  (forall mid p, petitions_file w !! mid = Some p ->
     exists q, petitions_file w' !! mid = Some q /\
       threshold_reached q = threshold_reached p /\ expired q = expired p) /\
  (forall mid, announcements mid (trace w') = announcements mid (trace w)).

(** ** Runs that return *)

(** From a world in [P], [m] returns, with a result and a world in [Q]. *)
Definition yields {A} (P : World -> Prop) (m : M A) (Q : A -> World -> Prop)
    : Prop :=
  forall w, P w -> exists a w', m w = (inr a, w') /\ Q a w'.

(** The platform answers, the client is [me], the clock shows [t], and
    petition [mid] has record [q] and live message [m], each possibly
    missing. *)
Definition at_rest (mid : Z) (q : option Petition) (m : option Message)
    (me : User) (t : Z) (w : World) : Prop :=
  faults w = [] /\ petitions_file w !! mid = q /\ messages w !! mid = m /\
  client_user w = me /\ now w = t.

(** What the [except] clauses of a pass make of a request that failed
    with HTTP status [status] while petition [mid], stored as [q], was
    being processed: a rate limit is slept off, a 404 strikes the petition
    off, anything else is only logged; the messages stay as they are. *)
Definition failure_handled (mid : Z) (q : Petition) (status : Z)
    (retry_after : option Z) (w w' : World) : Prop :=
  messages w' = messages w /\
  (status = 429 ->
   petitions_file w' = petitions_file w /\
   hd_error (trace w') = Some (Sleep (default (seconds 5) retry_after))) /\
  (status = 404 ->
   petitions_file w' =
     <[mid := set_invalid "Message not found (404)" (now w) q]> (petitions_file w)) /\
  (status <> 429 -> status <> 404 -> petitions_file w' = petitions_file w).

(** What every marker does to the world: the record of [mid], when there
    is one, is rewritten by [f]. *)
Definition amend (mid : Z) (f : Petition -> Petition) (w : World) : World :=
  match petitions_file w !! mid with
  | Some p => set_file (<[mid := f p]> (petitions_file w)) w
  | None => w
  end.

(** Nothing new was announced about petition [keep]. *)
Definition told (keep : Z) (w w' : World) : Prop :=
  announcements keep (trace w') = announcements keep (trace w).

(** ** Sample data *)

Definition the_bot : User := mkUser 999 true.
Definition alice : User := mkUser 1 false.
Definition bob : User := mkUser 2 false.

Definition docks_embed : Embed :=
  mkEmbed "Fix the docks" 39423
    [mkField "Author" "<@1>" false; mkField SIGNATURES_NEEDED "0/25" false]
    "React with the pen emoji to sign this petition".

Definition docks : Petition :=
  new_petition "Fix the docks" "They leak." None 1 "alice" 0 77.

(** An anchor message with two human signers and the placeholder. *)
Definition docks_message : Message :=
  mkMessage [mkReaction BALLPOINT_EMOJI [the_bot; alice; bob]] [docks_embed] true.

(** Three days after creation, nothing scheduled to fail. *)
Definition docks_world : World :=
  mkWorld {[ 5 := docks ]} {[ 5 := docks_message ]} true true the_bot
    (timedelta_days 3) [] [].

Definition pen_event (mid : Z) : Payload :=
  mkPayload PETITIONS_CHANNEL_ID mid BALLPOINT_EMOJI.

(** The petition has reached its threshold and is now 31 days old. *)
Definition reached_docks : Petition := set_threshold_reached docks.

Definition late_world : World :=
  mkWorld {[ 5 := reached_docks ]} {[ 5 := docks_message ]} true true the_bot
    (timedelta_days 31) [] [].

(** A 31 days old petition that stores three signatures, its anchor
    message now without any reaction. *)
Definition bare_message : Message := mkMessage [] [docks_embed] true.

Definition stale_world : World :=
  mkWorld {[ 5 := set_signatures 3 docks ]} {[ 5 := bare_message ]} true true
    the_bot (timedelta_days 31) [] [].

(** Twenty-five human signers, twenty-four of them stored so far. *)
Definition crowd : list User := List.map (fun i => mkUser i false) (seqZ 1 25).

Definition crowded_message : Message :=
  mkMessage [mkReaction BALLPOINT_EMOJI crowd] [docks_embed] true.

Definition crowded_world : World :=
  mkWorld {[ 5 := set_signatures 24 docks ]} {[ 5 := crowded_message ]} true true
    the_bot (timedelta_days 3) [] [].

(** Two petitions, and the platform about to fail one request. *)
(** A record whose creation date carries no time zone, as a document
    written by hand or by another program may hold, stored before an open
    petition with two human signers and a stored count of 0. *)
Definition naive_docks : Petition :=
  mkPetition "Mend the nets" "They tear." None 1 "alice" Naive (Some 78) 0
    false false false false None None.

Definition naive_world : World :=
  mkWorld {[ 5 := naive_docks; 6 := docks ]}
    {[ 5 := docks_message; 6 := docks_message ]} true true the_bot
    (timedelta_days 3) [] [].

Definition outage_world : World :=
  mkWorld {[ 5 := docks; 6 := docks ]}
    {[ 5 := docks_message; 6 := docks_message ]} true true the_bot
    (timedelta_days 3) [Some (HTTPException 500 None)] [].

(** ** More sample data *)

(** The petition of the docks, struck off as invalid. *)
Definition scrapped_docks : Petition :=
  set_invalid "Message not found (404)" (timedelta_days 2) docks.

(** Every request about to fail, one invalid petition in the document. *)
Definition scrapped_world : World :=
  mkWorld {[ 5 := scrapped_docks; 6 := docks ]}
    {[ 5 := docks_message; 6 := docks_message ]} true true the_bot
    (timedelta_days 3)
    [Some (HTTPException 404 None); Some (HTTPException 429 (Some 1)); Some OtherError]
    [].

(** The petition of the docks at 31 days, still open, its message live. *)
Definition overdue_world : World :=
  mkWorld {[ 5 := set_signatures 2 docks; 6 := docks ]}
    {[ 5 := docks_message; 6 := docks_message ]} true true the_bot
    (timedelta_days 31) [] [].


(** A petition that stores seven signatures; its message has lost the pen
    reaction and never got its thread. *)
Definition neglected_message : Message :=
  mkMessage [mkReaction "thumbsup" [alice]] [docks_embed] false.

Definition neglected_world : World :=
  mkWorld {[ 5 := set_signatures 7 docks ]} {[ 5 := neglected_message ]} true true
    the_bot (timedelta_days 3) [] [].

(** Twenty-five signers, and no admin channel to tell. *)
Definition unheard_world : World :=
  mkWorld {[ 5 := set_signatures 24 docks ]} {[ 5 := crowded_message ]} true false
    the_bot (timedelta_days 3) [] [].

(** Twelve petitions struck off, and one that is not. *)
Definition graveyard : gmap Z Petition :=
  <[ 100 := docks ]>
    (list_to_map (List.map (fun i => (i, scrapped_docks)) (seqZ 1 12))).

Definition graveyard_world : World :=
  mkWorld graveyard ∅ true true the_bot (timedelta_days 3) [] [].

(** The petitions channel is not found. *)
Definition offline_world : World :=
  mkWorld {[ 5 := set_signatures 7 docks ]} {[ 5 := neglected_message ]} false true
    the_bot (timedelta_days 3) [] [].

(** Thirty days and a half after creation, the platform about to answer
    that there are too many requests, to be tried again in 7 s. *)
Definition throttled_world : World :=
  mkWorld {[ 5 := set_signatures 7 docks ]} {[ 5 := docks_message ]} true true
    the_bot (timedelta_days 30 + seconds 43200)
    [Some (HTTPException 429 (Some (seconds 7)))] [].

(** Half a day past the expiry time, the petition still open. *)
Definition lapsed_world : World :=
  mkWorld {[ 5 := set_signatures 2 docks ]} {[ 5 := docks_message ]} true true
    the_bot (timedelta_days 30 + seconds 43200) [] [].


(** * Properties *)

(** ** Running computations *)

Lemma exec_bind {A B} (m : M A) (f : A -> M B) w :
  exec (bind m f) w =
  match outcome m w with
  | inr a => exec (f a) (exec m w)
  | inl _ => exec m w
  end.
Proof. unfold exec, outcome, bind. destruct (m w) as [[e|a] w']; reflexivity. Qed.

Lemma outcome_bind {A B} (m : M A) (f : A -> M B) w :
  outcome (bind m f) w =
  match outcome m w with
  | inr a => outcome (f a) (exec m w)
  | inl e => inl e
  end.
Proof. unfold exec, outcome, bind. destruct (m w) as [[e|a] w']; reflexivity. Qed.

Lemma exec_try {A} (m : M A) (h : exn -> M A) w :
  exec (try_except m h) w =
  match outcome m w with
  | inr _ => exec m w
  | inl e => exec (h e) (exec m w)
  end.
Proof. unfold exec, outcome, try_except. destruct (m w) as [[e|a] w']; reflexivity. Qed.

Lemma outcome_try {A} (m : M A) (h : exn -> M A) w :
  outcome (try_except m h) w =
  match outcome m w with
  | inr a => inr a
  | inl e => outcome (h e) (exec m w)
  end.
Proof. unfold exec, outcome, try_except. destruct (m w) as [[e|a] w']; reflexivity. Qed.

Lemma run_ops_app os1 os2 w : run_ops (os1 ++ os2) w = run_ops os2 (run_ops os1 w).
Proof. unfold run_ops. apply fold_left_app. Qed.

(** ** Computations that stay within a preorder *)

Section Respects.
Context (R : World -> World -> Prop) `{!PreOrder R}.

Lemma respects_ret {A} (a : A) : respects R (ret a).
Proof. intros w. reflexivity. Qed.

Lemma respects_raise {A} e : respects R (@raise A e).
Proof. intros w. reflexivity. Qed.

Lemma respects_bind {A B} (m : M A) (f : A -> M B) :
  respects R m -> (forall a, respects R (f a)) -> respects R (bind m f).
Proof.
  intros Hm Hf w. rewrite exec_bind.
  destruct (outcome m w); [apply Hm|].
  transitivity (exec m w); [apply Hm | apply Hf].
Qed.

Lemma respects_try {A} (m : M A) (h : exn -> M A) :
  respects R m -> (forall e, respects R (h e)) -> respects R (try_except m h).
Proof.
  intros Hm Hh w. rewrite exec_try.
  destruct (outcome m w); [|apply Hm].
  transitivity (exec m w); [apply Hm | apply Hh].
Qed.

Lemma respects_for_each {X} (l : list X) (body : X -> M unit) :
  (forall x, respects R (body x)) -> respects R (for_each l body).
Proof.
  intros Hb. induction l as [|x l IH]; simpl.
  - apply respects_ret.
  - apply respects_bind; auto.
Qed.

Lemma respects_read {A} (f : World -> A) : respects R (fun w => (inr (f w), w)).
Proof. intros w. reflexivity. Qed.

(** *** Triples *)

Lemma triple_ret {A} P (a : A) (Q : A -> World -> Prop) :
  (forall w, P w -> Q a w) -> triple R P (ret a) Q.
Proof.
  intros H w HP. split; [reflexivity|].
  intros b Hb. injection Hb as <-. apply H, HP.
Qed.

Lemma triple_raise {A} P e (Q : A -> World -> Prop) : triple R P (raise e) Q.
Proof. intros w HP. split; [reflexivity|]. intros b Hb. discriminate Hb. Qed.

Lemma triple_bind {A B} P (m : M A) Q (f : A -> M B) Q' :
  triple R P m Q -> (forall a, triple R (Q a) (f a) Q') ->
  triple R P (bind m f) Q'.
Proof.
  intros Hm Hf w HP. destruct (Hm w HP) as [Hr Hq].
  rewrite exec_bind, outcome_bind.
  destruct (outcome m w) as [e|a].
  - split; [exact Hr|]. intros b Hb. discriminate Hb.
  - destruct (Hf a (exec m w) (Hq a eq_refl)) as [Hr' Hq'].
    split; [etransitivity; eassumption | exact Hq'].
Qed.

Lemma triple_try {A} P (m : M A) (h : exn -> M A) Q :
  triple R P m Q -> (forall e, triple R (fun _ => True) (h e) Q) ->
  triple R P (try_except m h) Q.
Proof.
  intros Hm Hh w HP. destruct (Hm w HP) as [Hr Hq].
  rewrite exec_try, outcome_try.
  destruct (outcome m w) as [e|a].
  - destruct (Hh e (exec m w) I) as [Hr' Hq'].
    split; [etransitivity; eassumption | exact Hq'].
  - split; [exact Hr | exact Hq].
Qed.

Lemma triple_weaken {A} (P P' : World -> Prop) (m : M A)
    (Q Q' : A -> World -> Prop) :
  triple R P m Q -> (forall w, P' w -> P w) -> (forall a w, Q a w -> Q' a w) ->
  triple R P' m Q'.
Proof.
  intros Hm HP HQ w HP'. destruct (Hm w (HP w HP')) as [Hr Hq].
  split; [exact Hr|]. intros a Ha. apply HQ, Hq, Ha.
Qed.

Lemma triple_respects {A} P (m : M A) :
  respects R m -> triple R P m (fun _ _ => True).
Proof. intros Hm w _. split; [apply Hm | trivial]. Qed.

(** A computation that respects [R] keeps whatever a step of a smaller
    preorder [K], which it also respects, cannot break. *)
Lemma triple_keep {A} (K : World -> World -> Prop) (P : World -> Prop) (m : M A) :
  respects R m -> respects K m -> (forall w w', K w w' -> P w -> P w') ->
  triple R P m (fun _ => P).
Proof.
  intros Hm Hk Hst w HP. split; [apply Hm|].
  intros a _. eapply Hst; [apply Hk | exact HP].
Qed.

Lemma respects_of_triple {A} (m : M A) Q :
  triple R (fun _ => True) m Q -> respects R m.
Proof. intros H w. apply (H w I). Qed.
End Respects.

(** ** Computations that return *)

Lemma never_raises_ret {A} (a : A) : never_raises (ret a).
Proof. intros w. exists a. reflexivity. Qed.

Lemma never_raises_bind {A B} (m : M A) (f : A -> M B) :
  never_raises m -> (forall a, never_raises (f a)) -> never_raises (bind m f).
Proof.
  intros Hm Hf w. rewrite outcome_bind.
  destruct (Hm w) as [a ->]. apply Hf.
Qed.

(** A handler that returns makes the whole [try] return, whatever the body
    does. *)
Lemma never_raises_try {A} (m : M A) (h : exn -> M A) :
  (forall e, never_raises (h e)) -> never_raises (try_except m h).
Proof.
  intros Hh w. rewrite outcome_try.
  destruct (outcome m w) as [e|a]; [apply Hh | eauto].
Qed.

Lemma never_raises_for_each {X} (l : list X) (body : X -> M unit) :
  (forall x, never_raises (body x)) -> never_raises (for_each l body).
Proof.
  intros Hb. induction l as [|x l IH]; simpl.
  - apply never_raises_ret.
  - apply never_raises_bind; auto.
Qed.

Lemma never_raises_unit (m : M unit) w : never_raises m -> outcome m w = inr tt.
Proof. intros H. destruct (H w) as [[] ->]. reflexivity. Qed.

(** ** The relations are preorders *)

Lemma record_le_refl p : record_le p p.
Proof. repeat split; auto. Qed.

Lemma record_le_trans p q r : record_le p q -> record_le q r -> record_le p r.
Proof.
  intros (H1 & H2 & H3 & H4) (K1 & K2 & K3 & K4).
  repeat split; auto; congruence.
Qed.

#[global] Instance grows_preorder : PreOrder grows.
Proof.
  split.
  - intros w mid p Hp. exists p. split; [exact Hp | apply record_le_refl].
  - intros a b c Hab Hbc mid p Hp.
    destruct (Hab mid p Hp) as (q & Hq & Hpq).
    destruct (Hbc mid q Hq) as (r & Hr & Hqr).
    exists r. split; [exact Hr | eapply record_le_trans; eassumption].
Qed.

Lemma grows_reached w w' mid :
  grows w w' -> reached mid w = true -> reached mid w' = true.
Proof.
  unfold reached. intros Hg Hr.
  destruct (petitions_file w !! mid) as [p|] eqn:Hp; [|discriminate].
  destruct (Hg mid p Hp) as (q & -> & Hle & _). auto.
Qed.

Lemma record_le_threshold p q :
  record_le p q -> get_petition_threshold q = get_petition_threshold p.
Proof. intros (_ & _ & H & _). unfold get_petition_threshold. rewrite H. reflexivity. Qed.

#[global] Instance evolves_preorder : PreOrder evolves.
Proof.
  split.
  - intros w. split; [reflexivity | intros mid; left; reflexivity].
  - intros a b c [Gab Nab] [Gbc Nbc]. split; [etransitivity; eassumption|].
    intros mid.
    destruct (Nab mid) as [E1 | (n1 & q1 & E1 & F1 & L1 & T1 & B1)],
             (Nbc mid) as [E2 | (n2 & q2 & E2 & F2 & L2 & T2 & B2)].
    + left. congruence.
    + right. exists n2, q2. repeat split; [congruence | | assumption..].
      destruct (reached mid a) eqn:Ha; [|reflexivity].
      rewrite (grows_reached _ _ _ Gab Ha) in F2. discriminate.
    + right. destruct (Gbc mid q1 L1) as (r & Hr & Hle).
      exists n1, r. repeat split; [congruence | exact F1 | exact Hr | |].
      * apply Hle, T1.
      * rewrite (record_le_threshold _ _ Hle). exact B1.
    + unfold reached in F2. rewrite L1, T1 in F2. discriminate.
Qed.

#[global] Instance same_doc_preorder : PreOrder same_doc.
Proof.
  split.
  - intros w. split; auto.
  - intros a b c [F1 N1] [F2 N2]. split; [congruence|].
    intros mid. rewrite N2. apply N1.
Qed.

#[global] Instance leaves_preorder keep : PreOrder (leaves keep).
Proof.
  split.
  - intros w. repeat split; auto.
  - intros a b c (A1 & A2 & A3 & A4 & A5 & A6 & A7) (B1 & B2 & B3 & B4 & B5 & B6 & B7).
    repeat split; try congruence. auto.
Qed.

Lemma same_doc_grows w w' : same_doc w w' -> grows w w'.
Proof.
  intros [Hf _] mid p Hp. exists p. rewrite Hf.
  split; [exact Hp | apply record_le_refl].
Qed.

Lemma same_doc_evolves w w' : same_doc w w' -> evolves w w'.
Proof.
  intros H. split; [apply same_doc_grows, H|].
  intros mid. left. apply H.
Qed.

Lemma respects_sub (R R' : World -> World -> Prop) {A} (m : M A) :
  (forall w w', R w w' -> R' w w') -> respects R m -> respects R' m.
Proof. intros Hsub Hm w. apply Hsub, Hm. Qed.

(** ** Stepping through a computation *)

Create HintDb respects.

Ltac respects_step :=
  lazymatch goal with
  | |- respects _ (bind _ _) => apply respects_bind; [apply _ | | intros ?]
  | |- respects _ (try_except _ _) => apply respects_try; [apply _ | | intros ?]
  | |- respects _ (ret _) => apply respects_ret; apply _
  | |- respects _ (raise _) => apply respects_raise; apply _
  | |- respects _ (for_each _ _) => apply respects_for_each; [apply _ | intros ?]
  | |- respects _ (match ?x with _ => _ end) => destruct x
  end.

Ltac respects_tac :=
  repeat first [ solve [auto with respects] | respects_step ].

(** ** The platform calls write nothing and tell nobody *)

Lemma quiet_read {A} (f : World -> A) : respects same_doc (fun w => (inr (f w), w)).
Proof. apply respects_read; apply _. Qed.

Lemma quiet_get_world : respects same_doc get_world.
Proof. apply quiet_read. Qed.

Lemma quiet_utcnow : respects same_doc utcnow.
Proof. apply quiet_read. Qed.

Lemma quiet_get_channel : respects same_doc get_channel.
Proof. apply quiet_read. Qed.

Lemma quiet_load : respects same_doc load_petition_data.
Proof. apply quiet_read. Qed.

Lemma quiet_remote_call : respects same_doc remote_call.
Proof.
  intros w. unfold exec, remote_call.
  destruct (faults w) as [|[e|] fs]; split; reflexivity.
Qed.

Lemma quiet_emit c :
  (forall mid n, c <> AdminSend mid n) -> respects same_doc (emit c).
Proof.
  intros Hc w. split; [reflexivity|]. intros mid. simpl.
  destruct c; try reflexivity. exfalso. eapply Hc. reflexivity.
Qed.

Lemma quiet_sleep d : respects same_doc (sleep d).
Proof. apply quiet_emit. discriminate. Qed.

Lemma quiet_on_message mid f c :
  (forall i n, c <> AdminSend i n) -> respects same_doc (on_message mid f c).
Proof.
  intros Hc. unfold on_message. apply respects_bind; [apply _ | apply quiet_remote_call|].
  intros _ w. unfold exec. destruct (messages w !! mid); [|reflexivity].
  split; [reflexivity|]. intros i. simpl.
  destruct c; try reflexivity. exfalso. eapply Hc. reflexivity.
Qed.

Lemma quiet_fetch_message mid : respects same_doc (fetch_message mid).
Proof.
  unfold fetch_message. apply respects_bind; [apply _ | apply quiet_remote_call|].
  intros _ w. unfold exec. destruct (messages w !! mid); reflexivity.
Qed.

Lemma quiet_add_reaction mid : respects same_doc (add_reaction mid).
Proof. apply quiet_on_message. discriminate. Qed.

Lemma quiet_remove_reaction mid : respects same_doc (remove_reaction mid).
Proof. apply quiet_on_message. discriminate. Qed.

Lemma quiet_edit mid e : respects same_doc (edit mid e).
Proof. apply quiet_on_message. discriminate. Qed.

Lemma quiet_create_thread mid name : respects same_doc (create_thread mid name).
Proof. apply quiet_on_message. discriminate. Qed.

#[export] Hint Resolve quiet_get_world quiet_utcnow quiet_get_channel quiet_load
  quiet_remote_call quiet_sleep quiet_fetch_message quiet_add_reaction
  quiet_remove_reaction quiet_edit quiet_create_thread : respects.

Lemma quiet_thread_send mid : respects same_doc (thread_send mid).
Proof. unfold thread_send. respects_tac. Qed.

Lemma quiet_reaction_users r : respects same_doc (reaction_users r).
Proof. unfold reaction_users. respects_tac. Qed.

#[export] Hint Resolve quiet_thread_send quiet_reaction_users : respects.

Lemma quiet_check_petition_expired p : respects same_doc (check_petition_expired p).
Proof. unfold check_petition_expired. respects_tac. Qed.

Lemma quiet_older_than_expiry p : respects same_doc (older_than_expiry p).
Proof. unfold older_than_expiry. respects_tac. Qed.

Lemma quiet_count_signatures m : respects same_doc (count_signatures m).
Proof. unfold count_signatures. respects_tac. Qed.

Lemma quiet_manage_bot_signature mid us : respects same_doc (manage_bot_signature mid us).
Proof. unfold manage_bot_signature. respects_tac. Qed.

Lemma quiet_update_expired_embed mid m p : respects same_doc (update_expired_embed mid m p).
Proof. unfold update_expired_embed. respects_tac. Qed.

Lemma quiet_first_embed m : respects same_doc (first_embed m).
Proof. unfold first_embed. respects_tac. Qed.

#[export] Hint Resolve quiet_check_petition_expired quiet_older_than_expiry
  quiet_count_signatures quiet_manage_bot_signature quiet_update_expired_embed
  quiet_first_embed : respects.

(** ** The marker functions *)

Lemma mark_threshold_reached_run mid w :
  mark_threshold_reached mid w =
  match petitions_file w !! mid with
  | Some p => (inr true, set_file (<[mid := set_threshold_reached p]> (petitions_file w)) w)
  | None => (inr false, w)
  end.
Proof.
  unfold mark_threshold_reached, try_except, bind, load_petition_data, save, ret.
  destruct (petitions_file w !! mid); reflexivity.
Qed.

Lemma mark_petition_expired_run mid w :
  mark_petition_expired mid w =
  match petitions_file w !! mid with
  | Some p => (inr true, set_file (<[mid := set_expired p]> (petitions_file w)) w)
  | None => (inr false, w)
  end.
Proof.
  unfold mark_petition_expired, try_except, bind, load_petition_data, save, ret.
  destruct (petitions_file w !! mid); reflexivity.
Qed.

Lemma mark_petition_invalid_run mid reason w :
  mark_petition_invalid mid reason w =
  match petitions_file w !! mid with
  | Some p =>
      (inr true,
       set_file (<[mid := set_invalid reason (now w) p]> (petitions_file w)) w)
  | None => (inr false, w)
  end.
Proof.
  unfold mark_petition_invalid, try_except, bind, load_petition_data, save, ret, utcnow.
  destruct (petitions_file w !! mid); reflexivity.
Qed.

Lemma update_petition_signatures_run mid n w :
  update_petition_signatures mid n w =
  match petitions_file w !! mid with
  | Some p => (inr tt, set_file (<[mid := set_signatures n p]> (petitions_file w)) w)
  | None => (inr tt, w)
  end.
Proof.
  unfold update_petition_signatures, try_except, bind, load_petition_data, save, ret.
  destruct (petitions_file w !! mid); reflexivity.
Qed.

(** ** The document only grows *)

Lemma grows_write w mid p q :
  petitions_file w !! mid = Some p -> record_le p q ->
  grows w (set_file (<[mid := q]> (petitions_file w)) w).
Proof.
  intros Hp Hle i r Hr. simpl.
  destruct (decide (mid = i)) as [<-|Hne].
  - rewrite lookup_insert_eq. exists q. split; [reflexivity|]. congruence.
  - rewrite lookup_insert_ne by exact Hne. exists r.
    split; [exact Hr | apply record_le_refl].
Qed.

Lemma grows_quiet {A} (m : M A) : respects same_doc m -> respects grows m.
Proof. apply respects_sub, same_doc_grows. Qed.

#[export] Hint Extern 3 (respects grows _) => apply grows_quiet : respects.

Lemma grows_emit c : respects grows (emit c).
Proof. intros w mid p Hp. exists p. split; [exact Hp | apply record_le_refl]. Qed.

Lemma grows_mark_threshold_reached mid : respects grows (mark_threshold_reached mid).
Proof.
  intros w. unfold exec. rewrite mark_threshold_reached_run.
  destruct (petitions_file w !! mid) as [p|] eqn:Hp; [|reflexivity].
  eapply grows_write; [exact Hp|]. repeat split; auto.
Qed.

Lemma grows_mark_petition_expired mid : respects grows (mark_petition_expired mid).
Proof.
  intros w. unfold exec. rewrite mark_petition_expired_run.
  destruct (petitions_file w !! mid) as [p|] eqn:Hp; [|reflexivity].
  eapply grows_write; [exact Hp|]. repeat split; auto.
Qed.

Lemma grows_mark_petition_invalid mid reason :
  respects grows (mark_petition_invalid mid reason).
Proof.
  intros w. unfold exec. rewrite mark_petition_invalid_run.
  destruct (petitions_file w !! mid) as [p|] eqn:Hp; [|reflexivity].
  eapply grows_write; [exact Hp|]. repeat split; auto.
Qed.

Lemma grows_update_petition_signatures mid n :
  respects grows (update_petition_signatures mid n).
Proof.
  intros w. unfold exec. rewrite update_petition_signatures_run.
  destruct (petitions_file w !! mid) as [p|] eqn:Hp; [|reflexivity].
  eapply grows_write; [exact Hp|]. repeat split; auto.
Qed.

#[export] Hint Resolve grows_emit grows_mark_threshold_reached
  grows_mark_petition_expired grows_mark_petition_invalid
  grows_update_petition_signatures : respects.

Lemma grows_notify_threshold_reached p mid :
  respects grows (notify_threshold_reached p mid).
Proof. unfold notify_threshold_reached. respects_tac. Qed.

#[export] Hint Resolve grows_notify_threshold_reached : respects.

Lemma grows_publish_count mid m p n : respects grows (publish_count mid m p n).
Proof. unfold publish_count. respects_tac. Qed.

Lemma grows_sweep_handler mid s e : respects grows (sweep_handler mid s e).
Proof. unfold sweep_handler. respects_tac. Qed.

#[export] Hint Resolve grows_publish_count grows_sweep_handler : respects.

Lemma grows_handle_petition_reaction payload :
  respects grows (handle_petition_reaction payload).
Proof. unfold handle_petition_reaction, reconcile. respects_tac. Qed.

Lemma grows_verify_petition_signature_counts :
  respects grows verify_petition_signature_counts.
Proof. unfold verify_petition_signature_counts, verify_loop, verify_one. respects_tac. Qed.

Lemma grows_check_all_petitions_for_expiry :
  respects grows check_all_petitions_for_expiry.
Proof. unfold check_all_petitions_for_expiry, expiry_loop, expire_one. respects_tac. Qed.

Lemma grows_repair_petition_system : respects grows repair_petition_system.
Proof. unfold repair_petition_system, repair_loop, repair_one. respects_tac. Qed.

(** ** No pass adds a petition or touches a creation date *)

#[global] Instance same_dates_preorder : PreOrder same_dates.
Proof.
  split.
  - intros w mid. reflexivity.
  - intros a b c Hab Hbc mid. rewrite Hbc. apply Hab.
Qed.

Lemma same_doc_same_dates w w' : same_doc w w' -> same_dates w w'.
Proof. intros [Hf _] mid. rewrite Hf. reflexivity. Qed.

Lemma same_dates_quiet {A} (m : M A) : respects same_doc m -> respects same_dates m.
Proof. apply respects_sub, same_doc_same_dates. Qed.

#[export] Hint Extern 3 (respects same_dates _) => apply same_dates_quiet : respects.

Lemma same_dates_write w mid p q :
  petitions_file w !! mid = Some p -> created_at q = created_at p ->
  same_dates w (set_file (<[mid := q]> (petitions_file w)) w).
Proof.
  intros Hp Hq i. simpl.
  destruct (decide (mid = i)) as [<-|Hne].
  - rewrite lookup_insert_eq, Hp. simpl. congruence.
  - rewrite lookup_insert_ne by exact Hne. reflexivity.
Qed.

Lemma same_dates_emit c : respects same_dates (emit c).
Proof. intros w mid. reflexivity. Qed.

Lemma same_dates_sleep d : respects same_dates (sleep d).
Proof. apply same_dates_emit. Qed.

Lemma same_dates_mark_threshold_reached mid :
  respects same_dates (mark_threshold_reached mid).
Proof.
  intros w. unfold exec. rewrite mark_threshold_reached_run.
  destruct (petitions_file w !! mid) as [p|] eqn:Hp; [|reflexivity].
  eapply same_dates_write; [exact Hp | reflexivity].
Qed.

Lemma same_dates_mark_petition_expired mid :
  respects same_dates (mark_petition_expired mid).
Proof.
  intros w. unfold exec. rewrite mark_petition_expired_run.
  destruct (petitions_file w !! mid) as [p|] eqn:Hp; [|reflexivity].
  eapply same_dates_write; [exact Hp | reflexivity].
Qed.

Lemma same_dates_mark_petition_invalid mid reason :
  respects same_dates (mark_petition_invalid mid reason).
Proof.
  intros w. unfold exec. rewrite mark_petition_invalid_run.
  destruct (petitions_file w !! mid) as [p|] eqn:Hp; [|reflexivity].
  eapply same_dates_write; [exact Hp | reflexivity].
Qed.

Lemma same_dates_update_petition_signatures mid n :
  respects same_dates (update_petition_signatures mid n).
Proof.
  intros w. unfold exec. rewrite update_petition_signatures_run.
  destruct (petitions_file w !! mid) as [p|] eqn:Hp; [|reflexivity].
  eapply same_dates_write; [exact Hp | reflexivity].
Qed.

#[export] Hint Resolve same_dates_emit same_dates_mark_threshold_reached
  same_dates_mark_petition_expired same_dates_mark_petition_invalid
  same_dates_update_petition_signatures : respects.

Lemma same_dates_notify_threshold_reached p mid :
  respects same_dates (notify_threshold_reached p mid).
Proof. unfold notify_threshold_reached. respects_tac. Qed.

#[export] Hint Resolve same_dates_notify_threshold_reached : respects.

Lemma same_dates_publish_count mid m p n :
  respects same_dates (publish_count mid m p n).
Proof. unfold publish_count. respects_tac. Qed.

Lemma same_dates_sweep_handler mid s e : respects same_dates (sweep_handler mid s e).
Proof. unfold sweep_handler. respects_tac. Qed.

#[export] Hint Resolve same_dates_publish_count same_dates_sweep_handler : respects.

Lemma same_dates_handle_petition_reaction payload :
  respects same_dates (handle_petition_reaction payload).
Proof. unfold handle_petition_reaction, reconcile. respects_tac. Qed.

Lemma same_dates_verify_petition_signature_counts :
  respects same_dates verify_petition_signature_counts.
Proof. unfold verify_petition_signature_counts, verify_loop, verify_one. respects_tac. Qed.

Lemma same_dates_check_all_petitions_for_expiry :
  respects same_dates check_all_petitions_for_expiry.
Proof. unfold check_all_petitions_for_expiry, expiry_loop, expire_one. respects_tac. Qed.

Lemma same_dates_repair_petition_system :
  respects same_dates repair_petition_system.
Proof. unfold repair_petition_system, repair_loop, repair_one. respects_tac. Qed.

(** So a pass leaves a document without naive dates without naive dates,
    and the order in which the next pass walks the petitions is the order
    of this one. *)
Lemma same_dates_fmap w w' :
  same_dates w w' ->
  created_at <$> petitions_file w' = created_at <$> petitions_file w.
Proof. intros H. apply map_eq. intros i. rewrite !lookup_fmap. apply H. Qed.

Lemma same_dates_keys w w' :
  same_dates w w' ->
  (map_to_list (petitions_file w')).*1 = (map_to_list (petitions_file w)).*1.
Proof.
  intros H. apply same_dates_fmap in H.
  apply (f_equal map_to_list) in H. rewrite !map_to_list_fmap in H.
  apply (f_equal (fmap fst)) in H. rewrite <- !list_fmap_compose in H.
  exact H.
Qed.

Lemma dates_aware_spec (d : gmap Z Petition) :
  dates_aware d = true <->
  forall mid p, d !! mid = Some p -> naive_date p = false.
Proof.
  unfold dates_aware. rewrite forallb_forall. split.
  - intros H mid p Hp. apply negb_true_iff.
    apply (H (mid, p)), list_elem_of_In, elem_of_map_to_list, Hp.
  - intros H [mid p] Hin. apply negb_true_iff, (H mid).
    apply elem_of_map_to_list, list_elem_of_In, Hin.
Qed.

Lemma dates_aware_same_dates w w' :
  same_dates w w' -> dates_aware (petitions_file w) = true ->
  dates_aware (petitions_file w') = true.
Proof.
  intros H Hd. apply dates_aware_spec. intros mid q Hq.
  specialize (H mid). rewrite Hq in H.
  destruct (petitions_file w !! mid) as [p|] eqn:Hp; [|discriminate].
  pose proof (proj1 (dates_aware_spec _) Hd mid p Hp) as Hn.
  simpl in H. injection H as H. unfold naive_date in *. rewrite H. exact Hn.
Qed.

Lemma grows_run_op o w : grows w (run_op o w).
Proof.
  destruct o; simpl.
  - apply grows_handle_petition_reaction.
  - apply grows_verify_petition_signature_counts.
  - apply grows_check_all_petitions_for_expiry.
  - apply grows_repair_petition_system.
  - apply grows_mark_threshold_reached.
  - apply grows_mark_petition_expired.
  - apply grows_mark_petition_invalid.
  - apply grows_update_petition_signatures.
  - intros i p Hp. exists p. split; [exact Hp | apply record_le_refl].
Qed.

Lemma grows_run_ops os w : grows w (run_ops os w).
Proof.
  revert w. induction os as [|o os IH]; intros w; simpl.
  - reflexivity.
  - transitivity (run_op o w); [apply grows_run_op | apply IH].
Qed.

Lemma grows_run_step s w : grows w (run_step s w).
Proof.
  destruct s; simpl.
  - apply grows_run_op.
  - generalize w. change (respects grows (verify_loop read)).
    unfold verify_loop, verify_one. respects_tac.
  - generalize w. change (respects grows (expiry_loop read)).
    unfold expiry_loop, expire_one. respects_tac.
  - generalize w. change (respects grows (repair_loop read)).
    unfold repair_loop, repair_one. respects_tac.
Qed.

Lemma grows_run_steps ss w : grows w (run_steps ss w).
Proof.
  revert w. induction ss as [|s ss IH]; intros w; simpl.
  - reflexivity.
  - transitivity (run_step s w); [apply grows_run_step | apply IH].
Qed.

(** ** Substring search *)

Lemma startswith_iff k s : startswith k s = true <-> exists post, s = k ++ post.
Proof.
  revert s. induction k as [|a k IH]; intros s; simpl.
  - split; [intros _; exists s; reflexivity | reflexivity].
  - destruct s as [|b s].
    + split; [discriminate | intros [post H]; discriminate H].
    + destruct (Ascii.eqb_spec a b) as [->|Hne].
      * rewrite IH. split; intros [post H]; exists post.
        -- rewrite H. reflexivity.
        -- injection H as H. exact H.
      * split; [discriminate|]. intros [post H]. injection H as H1 H2.
        congruence.
Qed.

Lemma str_in_iff k s : str_in k s = true <-> Substring k s.
Proof.
  induction s as [|c s IH]; simpl; rewrite orb_true_iff, startswith_iff.
  - split.
    + intros [[post H]|H]; [|discriminate]. exists "", post. exact H.
    + intros ([|c pre] & post & H); [|discriminate]. left. exists post. exact H.
  - rewrite IH. split.
    + intros [[post H]|(pre & post & H)].
      * exists "", post. exact H.
      * exists (String c pre), post. rewrite H. reflexivity.
    + intros ([|c' pre] & post & H).
      * left. exists post. exact H.
      * right. injection H as _ H. exists pre, post. exact H.
Qed.

Lemma is_recall_petition_iff t d :
  is_recall_petition t d = true <->
  exists k, In k RECALL_KEYWORDS /\ Substring k (lower (t ++ " " ++ d)).
Proof.
  unfold is_recall_petition. rewrite existsb_exists.
  split; intros (k & Hin & Hk); exists k; split; auto; apply str_in_iff; exact Hk.
Qed.

(** On ASCII text a character is a byte, and the slice by characters is
    the slice by bytes. *)
Lemma first_chars_ascii n s :
  is_ascii s = true -> first_chars n s = String.substring 0 n s.
Proof.
  unfold is_ascii. revert n. induction s as [|c s IH]; intros n H.
  - destruct n; reflexivity.
  - cbn [list_ascii_of_string forallb] in H.
    apply andb_true_iff in H as [Hc Hs].
    cbn [first_chars]. unfold continuation.
    replace (128 <=? N_of_ascii c)%N with false
      by (symmetry; apply N.leb_gt, N.ltb_lt, Hc).
    cbn [andb]. destruct n; [reflexivity|].
    cbn [String.substring]. f_equal. apply IH, Hs.
Qed.

(** ** Work on one petition leaves the others alone *)

Lemma exec_try_ret {A} (m : M A) (a : A) w :
  exec (try_except m (fun _ => ret a)) w = exec m w.
Proof. rewrite exec_try. destruct (outcome m w); reflexivity. Qed.

Lemma respects_for_each_in (R : World -> World -> Prop) `{!PreOrder R}
    {X} (l : list X) (body : X -> M unit) :
  (forall x, In x l -> respects R (body x)) -> respects R (for_each l body).
Proof.
  induction l as [|x l IH]; intros Hb; simpl.
  - apply respects_ret; apply _.
  - apply respects_bind; [apply _ | apply Hb; left; reflexivity|].
    intros _. apply IH. intros y Hy. apply Hb. right. exact Hy.
Qed.

Section Leaves.
Variable keep : Z.

Lemma leaves_read {A} (f : World -> A) :
  respects (leaves keep) (fun w => (inr (f w), w)).
Proof. apply respects_read; apply _. Qed.

Lemma leaves_get_world : respects (leaves keep) get_world.
Proof. apply leaves_read. Qed.

Lemma leaves_utcnow : respects (leaves keep) utcnow.
Proof. apply leaves_read. Qed.

Lemma leaves_get_channel : respects (leaves keep) get_channel.
Proof. apply leaves_read. Qed.

Lemma leaves_load : respects (leaves keep) load_petition_data.
Proof. apply leaves_read. Qed.

Lemma leaves_remote_call : respects (leaves keep) remote_call.
Proof.
  intros w. unfold exec, remote_call.
  destruct (faults w) as [|[e|] fs] eqn:E; repeat split; simpl; auto;
    intros H; congruence.
Qed.

Lemma leaves_emit c : respects (leaves keep) (emit c).
Proof. intros w. repeat split; auto. Qed.

Lemma leaves_on_message mid f c :
  mid <> keep -> respects (leaves keep) (on_message mid f c).
Proof.
  intros Hne. unfold on_message.
  apply respects_bind; [apply _ | apply leaves_remote_call|].
  intros _ w. unfold exec. destruct (messages w !! mid); [|reflexivity].
  repeat split; simpl; auto. apply lookup_insert_ne, Hne.
Qed.

Lemma leaves_fetch_message mid : respects (leaves keep) (fetch_message mid).
Proof.
  unfold fetch_message.
  apply respects_bind; [apply _ | apply leaves_remote_call|].
  intros _ w. unfold exec. destruct (messages w !! mid); reflexivity.
Qed.

Lemma leaves_write w mid q :
  mid <> keep -> leaves keep w (set_file (<[mid := q]> (petitions_file w)) w).
Proof. intros Hne. repeat split; simpl; auto. apply lookup_insert_ne, Hne. Qed.

Lemma leaves_mark_threshold_reached mid :
  mid <> keep -> respects (leaves keep) (mark_threshold_reached mid).
Proof.
  intros Hne w. unfold exec. rewrite mark_threshold_reached_run.
  destruct (petitions_file w !! mid); [apply leaves_write, Hne | reflexivity].
Qed.

Lemma leaves_mark_petition_expired mid :
  mid <> keep -> respects (leaves keep) (mark_petition_expired mid).
Proof.
  intros Hne w. unfold exec. rewrite mark_petition_expired_run.
  destruct (petitions_file w !! mid); [apply leaves_write, Hne | reflexivity].
Qed.

Lemma leaves_mark_petition_invalid mid reason :
  mid <> keep -> respects (leaves keep) (mark_petition_invalid mid reason).
Proof.
  intros Hne w. unfold exec. rewrite mark_petition_invalid_run.
  destruct (petitions_file w !! mid); [apply leaves_write, Hne | reflexivity].
Qed.

Lemma leaves_update_petition_signatures mid n :
  mid <> keep -> respects (leaves keep) (update_petition_signatures mid n).
Proof.
  intros Hne w. unfold exec. rewrite update_petition_signatures_run.
  destruct (petitions_file w !! mid); [apply leaves_write, Hne | reflexivity].
Qed.

Hint Resolve leaves_get_world leaves_utcnow leaves_get_channel leaves_load
  leaves_remote_call leaves_emit leaves_on_message leaves_fetch_message
  leaves_mark_threshold_reached leaves_mark_petition_expired
  leaves_mark_petition_invalid leaves_update_petition_signatures : respects.

Lemma leaves_verify_one mid p :
  mid <> keep -> respects (leaves keep) (verify_one (mid, p)).
Proof.
  intros Hne.
  unfold verify_one, older_than_expiry, sleep, count_signatures, reaction_users,
    publish_count, notify_threshold_reached, edit, sweep_handler.
  respects_tac.
Qed.

Lemma leaves_expire_one mid p :
  mid <> keep -> respects (leaves keep) (expire_one (mid, p)).
Proof.
  intros Hne.
  unfold expire_one, check_petition_expired, sleep, update_expired_embed, edit,
    sweep_handler.
  respects_tac.
Qed.

Lemma leaves_repair_one mid p :
  mid <> keep -> respects (leaves keep) (repair_one (mid, p)).
Proof.
  intros Hne.
  unfold repair_one, older_than_expiry, sleep, count_signatures, reaction_users,
    first_embed, add_reaction, edit, create_thread, thread_send, sweep_handler.
  respects_tac.
Qed.
End Leaves.

(** ** What is caught *)

Create HintDb returns.

Ltac returns_step :=
  lazymatch goal with
  | |- never_raises (try_except _ _) => apply never_raises_try; intros ?
  | |- never_raises (bind _ _) => apply never_raises_bind; [|intros ?]
  | |- never_raises (ret _) => apply never_raises_ret
  | |- never_raises (for_each _ _) => apply never_raises_for_each; intros ?
  | |- never_raises (match ?x with _ => _ end) => destruct x
  end.

Ltac returns_tac := repeat first [ solve [auto with returns] | returns_step ].

Lemma never_raises_read {A} (f : World -> A) : never_raises (fun w => (inr (f w), w)).
Proof. intros w. eexists. reflexivity. Qed.

Lemma never_raises_utcnow : never_raises utcnow.
Proof. apply never_raises_read. Qed.

Lemma never_raises_get_channel : never_raises get_channel.
Proof. apply never_raises_read. Qed.

Lemma never_raises_load : never_raises load_petition_data.
Proof. apply never_raises_read. Qed.

Lemma never_raises_emit c : never_raises (emit c).
Proof. intros w. exists tt. reflexivity. Qed.

Lemma never_raises_sleep d : never_raises (sleep d).
Proof. apply never_raises_emit. Qed.

#[export] Hint Resolve never_raises_utcnow never_raises_get_channel never_raises_load
  never_raises_emit never_raises_sleep : returns.

Lemma never_raises_mark_petition_invalid mid reason :
  never_raises (mark_petition_invalid mid reason).
Proof. unfold mark_petition_invalid. returns_tac. Qed.

Lemma never_raises_check_petition_expired p : never_raises (check_petition_expired p).
Proof. unfold check_petition_expired. returns_tac. Qed.

(** The age test of the signature sweep and of the repair pass raises on
    a naive date, and on nothing else. *)
Lemma never_raises_older_than_expiry p :
  naive_date p = false -> never_raises (older_than_expiry p).
Proof.
  unfold older_than_expiry, naive_date.
  destruct (created_at p); [| discriminate |]; intros _; returns_tac.
Qed.

Lemma older_than_expiry_naive p w :
  naive_date p = true -> older_than_expiry p w = (inl OtherError, w).
Proof.
  unfold older_than_expiry, naive_date.
  destruct (created_at p); try discriminate. reflexivity.
Qed.

#[export] Hint Resolve never_raises_mark_petition_invalid
  never_raises_check_petition_expired never_raises_older_than_expiry : returns.

Lemma never_raises_sweep_handler mid s e : never_raises (sweep_handler mid s e).
Proof. unfold sweep_handler. returns_tac. Qed.

#[export] Hint Resolve never_raises_sweep_handler : returns.

(** A turn of the signature sweep or of the repair pass returns, whatever
    the platform does, unless the record has a naive date; a turn of the
    expiry sweep always returns. *)
Lemma never_raises_verify_one item :
  naive_date (snd item) = false -> never_raises (verify_one item).
Proof. destruct item as [mid p]. intros Hp. unfold verify_one. returns_tac. Qed.

Lemma never_raises_expire_one item : never_raises (expire_one item).
Proof. unfold expire_one. returns_tac. Qed.


(** On a record with a naive date that it does not pass over, the turn
    raises before it has done anything. *)
Lemma verify_one_naive mid p w :
  skipped p = false -> naive_date p = true ->
  verify_one (mid, p) w = (inl OtherError, w).
Proof.
  intros Hskip Hp. unfold verify_one. rewrite Hskip.
  unfold bind. rewrite (older_than_expiry_naive p w Hp). reflexivity.
Qed.

Lemma repair_one_naive mid p w :
  invalid p = false -> naive_date p = true ->
  repair_one (mid, p) w = (inl OtherError, w).
Proof.
  intros Hinv Hp. unfold repair_one. rewrite Hinv.
  unfold bind. rewrite (older_than_expiry_naive p w Hp). reflexivity.
Qed.

Lemma verify_one_skipped_run mid p w :
  skipped p = true -> verify_one (mid, p) w = (inr tt, w).
Proof. intros H. unfold verify_one. rewrite H. reflexivity. Qed.

(** So a turn of the signature sweep that raises in one world raises in
    every world, and leaves it as it was. *)
Lemma verify_one_raises mid p w e :
  outcome (verify_one (mid, p)) w = inl e ->
  forall v, verify_one (mid, p) v = (inl e, v).
Proof.
  intros H v. destruct (skipped p) eqn:Hskip.
  { unfold outcome in H. rewrite verify_one_skipped_run in H by exact Hskip.
    discriminate. }
  destruct (naive_date p) eqn:Hp.
  - unfold outcome in H. rewrite verify_one_naive in H by assumption.
    injection H as <-. apply verify_one_naive; assumption.
  - destruct (never_raises_verify_one (mid, p) Hp w) as [a Ha]. congruence.
Qed.



(** What is known of the records of a document without naive dates. *)
Lemma dates_aware_item (d : gmap Z Petition) item :
  dates_aware d = true -> In item (map_to_list d) -> naive_date (snd item) = false.
Proof.
  unfold dates_aware. rewrite forallb_forall. intros H Hin.
  apply negb_true_iff, H, Hin.
Qed.

Lemma dates_aware_lookup (d : gmap Z Petition) mid p :
  dates_aware d = true -> d !! mid = Some p -> naive_date p = false.
Proof.
  intros H Hp. apply (dates_aware_item d (mid, p) H).
  apply list_elem_of_In, elem_of_map_to_list, Hp.
Qed.



(** When no body raises, a loop over [l1 ++ l2] is the loop over [l1]
    followed by the loop over [l2]. *)
Lemma exec_for_each_app {X} (l1 l2 : list X) (body : X -> M unit) w :
  (forall x, never_raises (body x)) ->
  exec (for_each (l1 ++ l2) body) w = exec (for_each l2 body) (exec (for_each l1 body) w).
Proof.
  intros Hb. revert w. induction l1 as [|x l1 IH]; intros w; simpl.
  - reflexivity.
  - rewrite !exec_bind. rewrite (never_raises_unit _ _ (Hb x)). apply IH.
Qed.

Lemma exec_for_each_cons {X} (x : X) (l : list X) (body : X -> M unit) w :
  never_raises (body x) ->
  exec (for_each (x :: l) body) w = exec (for_each l body) (exec (body x) w).
Proof.
  intros Hb. simpl. rewrite exec_bind, (never_raises_unit _ _ Hb). reflexivity.
Qed.

Lemma exec_for_each_split {X} (l1 : list X) (x : X) (l2 : list X)
    (body : X -> M unit) w :
  (forall x, never_raises (body x)) ->
  exec (for_each (l1 ++ x :: l2) body) w =
  exec (for_each l2 body) (exec (body x) (exec (for_each l1 body) w)).
Proof.
  intros Hb. rewrite exec_for_each_app by exact Hb.
  apply exec_for_each_cons, Hb.
Qed.

(** The same for a loop of which only the turns up to [x] are known to
    return; and what a loop does in general: it stops at the first turn
    that raises. *)
Lemma exec_for_each_step {X} (x : X) (l : list X) (body : X -> M unit) w :
  exec (for_each (x :: l) body) w =
  match outcome (body x) w with
  | inr _ => exec (for_each l body) (exec (body x) w)
  | inl _ => exec (body x) w
  end.
Proof. simpl. apply exec_bind. Qed.


Lemma exec_for_each_split_in {X} (l1 : list X) (x : X) (l2 : list X)
    (body : X -> M unit) w :
  (forall y, In y l1 -> never_raises (body y)) -> never_raises (body x) ->
  exec (for_each (l1 ++ x :: l2) body) w =
  exec (for_each l2 body) (exec (body x) (exec (for_each l1 body) w)).
Proof.
  intros H1 Hx. revert w. induction l1 as [|y l1 IH]; intros w.
  - rewrite app_nil_l, exec_for_each_step, (never_raises_unit _ _ Hx). reflexivity.
  - rewrite <- app_comm_cons, !exec_for_each_step.
    rewrite (never_raises_unit _ _ (H1 y (or_introl eq_refl))).
    apply IH. intros z Hz. apply H1. right. exact Hz.
Qed.

(** The sweeps as loops over the document read at their start. *)
Lemma verify_petition_signature_counts_run w :
  exec verify_petition_signature_counts w =
  if petitions_channel w
  then exec (verify_loop (petitions_file w)) w
  else w.
Proof.
  unfold verify_petition_signature_counts. rewrite exec_try_ret.
  unfold exec, bind, load_petition_data, get_channel.
  destruct (petitions_channel w); reflexivity.
Qed.

Lemma check_all_petitions_for_expiry_run w :
  exec check_all_petitions_for_expiry w =
  if petitions_channel w
  then exec (expiry_loop (petitions_file w)) w
  else w.
Proof.
  unfold check_all_petitions_for_expiry. rewrite exec_try_ret.
  unfold exec, bind, load_petition_data, get_channel.
  destruct (petitions_channel w); reflexivity.
Qed.

(** ** The admin channel is told once *)

Lemma evolves_quiet {A} (m : M A) : respects same_doc m -> respects evolves m.
Proof. apply respects_sub, same_doc_evolves. Qed.

#[export] Hint Extern 3 (respects evolves _) => apply evolves_quiet : respects.

Lemma evolves_silent w w' : grows w w' -> trace w' = trace w -> evolves w w'.
Proof. intros Hg Ht. split; [exact Hg|]. intros mid. left. rewrite Ht. reflexivity. Qed.

Lemma evolves_mark_threshold_reached mid : respects evolves (mark_threshold_reached mid).
Proof.
  intros w. apply evolves_silent; [apply grows_mark_threshold_reached|].
  unfold exec. rewrite mark_threshold_reached_run.
  destruct (petitions_file w !! mid); reflexivity.
Qed.

Lemma evolves_mark_petition_expired mid : respects evolves (mark_petition_expired mid).
Proof.
  intros w. apply evolves_silent; [apply grows_mark_petition_expired|].
  unfold exec. rewrite mark_petition_expired_run.
  destruct (petitions_file w !! mid); reflexivity.
Qed.

Lemma evolves_mark_petition_invalid mid reason :
  respects evolves (mark_petition_invalid mid reason).
Proof.
  intros w. apply evolves_silent; [apply grows_mark_petition_invalid|].
  unfold exec. rewrite mark_petition_invalid_run.
  destruct (petitions_file w !! mid); reflexivity.
Qed.

Lemma evolves_update_petition_signatures mid n :
  respects evolves (update_petition_signatures mid n).
Proof.
  intros w. apply evolves_silent; [apply grows_update_petition_signatures|].
  unfold exec. rewrite update_petition_signatures_run.
  destruct (petitions_file w !! mid); reflexivity.
Qed.

#[export] Hint Resolve evolves_mark_threshold_reached evolves_mark_petition_expired
  evolves_mark_petition_invalid evolves_update_petition_signatures : respects.

Lemma evolves_sweep_handler mid s e : respects evolves (sweep_handler mid s e).
Proof. unfold sweep_handler. respects_tac. Qed.

#[export] Hint Resolve evolves_sweep_handler : respects.

(** The notification writes nothing, and sends at most the one message. *)
Lemma notify_threshold_reached_run p mid w :
  let w' := exec (notify_threshold_reached p mid) w in
  outcome (notify_threshold_reached p mid) w = inr tt /\
  petitions_file w' = petitions_file w /\
  (trace w' = trace w \/ trace w' = AdminSend mid (signatures p) :: trace w).
Proof.
  unfold notify_threshold_reached, exec, outcome, try_except, bind, get_world,
    remote_call, emit, ret, raise.
  destruct (submission_channel w); simpl; [|auto].
  destruct (created_at p); simpl; [| |auto];
    destruct (faults w) as [|[e|] fs]; simpl; auto.
Qed.

Lemma unannounced_same_doc mid p w w' :
  same_doc w w' -> unannounced mid p w -> unannounced mid p w'.
Proof. intros [Hf _] H Hp. rewrite Hf. apply H, Hp. Qed.

Lemma unannounced_leaves mid p w w' :
  leaves mid w w' -> unannounced mid p w -> unannounced mid p w'.
Proof. intros (Hf & _) H Hp. rewrite Hf. apply H, Hp. Qed.

Lemma triple_quiet {A} mid p (m : M A) :
  respects same_doc m ->
  triple evolves (unannounced mid p) m (fun _ => unannounced mid p).
Proof.
  intros Hm. apply triple_keep with (K := same_doc).
  - apply evolves_quiet, Hm.
  - exact Hm.
  - apply unannounced_same_doc.
Qed.

Lemma triple_update_petition_signatures mid p i n :
  triple evolves (unannounced mid p) (update_petition_signatures i n)
    (fun _ => unannounced mid p).
Proof.
  intros w Hpre. split; [apply evolves_update_petition_signatures|].
  intros _ _ Hp. destruct (Hpre Hp) as (q & Hq & Hfalse & Hrec).
  unfold exec. rewrite update_petition_signatures_run.
  destruct (petitions_file w !! i) as [r|] eqn:Hr; simpl; [|eauto].
  destruct (decide (i = mid)) as [->|Hne].
  - rewrite lookup_insert_eq. eexists. split; [reflexivity|].
    assert (r = q) as -> by congruence. auto.
  - rewrite lookup_insert_ne by exact Hne. eauto.
Qed.

Lemma triple_publish_count mid message p n :
  triple evolves (unannounced mid p) (publish_count mid message p n)
    (fun _ _ => True).
Proof.
  intros w Hpre. split; [|trivial]. unfold publish_count.
  destruct (m_embeds message) as [|embed _]; [reflexivity|].
  destruct ((get_petition_threshold p <=? n) && negb (threshold_reached p)) eqn:Hcross.
  2: { apply evolves_quiet. auto with respects. }
  apply andb_true_iff in Hcross as [Hn Hp]. apply Z.leb_le in Hn.
  apply negb_true_iff in Hp. destruct (Hpre Hp) as (q & Hq & Hfalse & Hrec).
  rewrite exec_bind.
  destruct (notify_threshold_reached_run (set_signatures n p) mid w) as (-> & Hf & Ht).
  set (w1 := exec (notify_threshold_reached (set_signatures n p) mid) w) in *.
  rewrite exec_bind.
  assert (mark_threshold_reached mid w1 =
          (inr true, set_file (<[mid := set_threshold_reached q]> (petitions_file w1)) w1))
    as Hmark by (rewrite mark_threshold_reached_run, Hf, Hq; reflexivity).
  assert (outcome (mark_threshold_reached mid) w1 = inr true) as ->
    by (unfold outcome; rewrite Hmark; reflexivity).
  assert (exec (mark_threshold_reached mid) w1 =
          set_file (<[mid := set_threshold_reached q]> (petitions_file w1)) w1) as ->
    by (unfold exec; rewrite Hmark; reflexivity).
  set (w2 := set_file _ w1).
  transitivity w2; [|apply evolves_quiet; auto with respects].
  split.
  - intros i r Hr. subst w2. simpl. rewrite Hf.
    destruct (decide (mid = i)) as [<-|Hne].
    + rewrite lookup_insert_eq. eexists. split; [reflexivity|].
      assert (r = q) as -> by congruence. repeat split; auto.
    + rewrite lookup_insert_ne by exact Hne. exists r.
      split; [exact Hr | apply record_le_refl].
  - intros i. subst w2. simpl. destruct Ht as [-> | ->]; [left; reflexivity|].
    simpl. destruct (Z.eqb_spec mid i) as [<-|Hne]; [|left; reflexivity].
    right. exists n, (set_threshold_reached q).
    repeat split.
    + unfold reached. rewrite Hq. exact Hfalse.
    + apply lookup_insert_eq.
    + unfold get_petition_threshold. simpl. rewrite Hrec. exact Hn.
Qed.

Lemma triple_apply (R : World -> World -> Prop) {A} P (m : M A) Q w :
  triple R P m Q -> P w -> R w (exec m w).
Proof. intros H HP. apply (H w HP). Qed.

Ltac triple_step :=
  lazymatch goal with
  | |- triple _ _ (bind _ _) _ => eapply triple_bind; [apply _ | | intros ?]
  | |- triple _ _ (ret _) _ => apply triple_ret; first [apply _ | auto]
  | |- triple _ _ (match ?x with _ => _ end) _ => destruct x
  end.

Ltac by_respects := apply triple_respects; first [apply _ | respects_tac].

Lemma exec_bind_load {A} (f : gmap Z Petition -> M A) w :
  exec (bind load_petition_data f) w = exec (f (petitions_file w)) w.
Proof. reflexivity. Qed.

Lemma evolves_handle_petition_reaction payload :
  respects evolves (handle_petition_reaction payload).
Proof.
  unfold handle_petition_reaction.
  do 2 (respects_step; [respects_tac|]).
  respects_step; [|respects_tac].
  respects_step; [respects_tac|]. respects_step; [respects_tac|].
  respects_step; [respects_tac|].
  intros w. rewrite exec_bind_load.
  destruct (petitions_file w !! message_id payload) as [p|] eqn:Hp; [|reflexivity].
  apply (triple_apply evolves (unannounced (message_id payload) p) _ (fun _ _ => True));
    [|intros Hfalse; exists p; auto].
  triple_step; [apply triple_quiet; respects_tac|].
  triple_step; [by_respects|].
  triple_step; [triple_step|].
  unfold reconcile.
  triple_step; [|by_respects].
  triple_step; [apply triple_quiet; respects_tac|].
  triple_step; [|triple_step].
  triple_step; [apply triple_quiet; respects_tac|].
  triple_step; [apply triple_update_petition_signatures|].
  apply triple_publish_count.
Qed.

Lemma triple_verify_one mid p :
  triple evolves (unannounced mid p) (verify_one (mid, p)) (fun _ _ => True).
Proof.
  unfold verify_one.
  triple_step; [triple_step|].
  triple_step; [apply triple_quiet; respects_tac|].
  triple_step; [triple_step|].
  apply triple_try; [apply _ | | intros e; by_respects].
  triple_step; [apply triple_quiet; respects_tac|].
  triple_step; [apply triple_quiet; respects_tac|].
  triple_step; [apply triple_quiet; respects_tac|].
  triple_step; [triple_step|].
  triple_step; [apply triple_update_petition_signatures|].
  apply triple_publish_count.
Qed.

Lemma evolves_for_each_verify (l : list (Z * Petition)) w :
  NoDup (l.*1) ->
  (forall mid p, (mid, p) ∈ l -> unannounced mid p w) ->
  evolves w (exec (for_each l verify_one) w).
Proof.
  revert w. induction l as [|[mid p] l IH]; intros w Hnd Hall.
  - reflexivity.
  - assert (Hturn : evolves w (exec (verify_one (mid, p)) w)).
    { apply (triple_apply evolves _ _ _ _ (triple_verify_one mid p)).
      apply Hall. left. }
    rewrite exec_for_each_step.
    destruct (outcome (verify_one (mid, p)) w); [exact Hturn|].
    simpl in Hnd. apply NoDup_cons in Hnd as [Hfresh Hnd].
    transitivity (exec (verify_one (mid, p)) w).
    + exact Hturn.
    + apply IH; [exact Hnd|]. intros i r Hir.
      apply unannounced_leaves with (w := w).
      * apply leaves_verify_one. intros ->. apply Hfresh.
        apply list_elem_of_fmap. exists (i, r). split; [reflexivity | exact Hir].
      * apply Hall. right. exact Hir.
Qed.

Lemma evolves_verify_petition_signature_counts :
  respects evolves verify_petition_signature_counts.
Proof.
  intros w. rewrite verify_petition_signature_counts_run.
  destruct (petitions_channel w); [|reflexivity].
  unfold verify_loop.
  apply evolves_for_each_verify; [apply NoDup_fst_map_to_list|].
  intros mid p Hin Hfalse. exists p. split; [|auto].
  apply elem_of_map_to_list, Hin.
Qed.

Lemma evolves_check_all_petitions_for_expiry :
  respects evolves check_all_petitions_for_expiry.
Proof. unfold check_all_petitions_for_expiry, expiry_loop, expire_one. respects_tac. Qed.

Lemma evolves_repair_petition_system : respects evolves repair_petition_system.
Proof. unfold repair_petition_system, repair_loop, repair_one. respects_tac. Qed.

Lemma evolves_run_op o w : evolves w (run_op o w).
Proof.
  destruct o; simpl.
  - apply evolves_handle_petition_reaction.
  - apply evolves_verify_petition_signature_counts.
  - apply evolves_check_all_petitions_for_expiry.
  - apply evolves_repair_petition_system.
  - apply evolves_mark_threshold_reached.
  - apply evolves_mark_petition_expired.
  - apply evolves_mark_petition_invalid.
  - apply evolves_update_petition_signatures.
  - apply evolves_silent; [|reflexivity].
    intros i p Hp. exists p. split; [exact Hp | apply record_le_refl].
Qed.

Lemma evolves_run_ops os w : evolves w (run_ops os w).
Proof.
  revert w. induction os as [|o os IH]; intros w; simpl.
  - reflexivity.
  - transitivity (run_op o w); [apply evolves_run_op | apply IH].
Qed.

(** ** Runs without outages *)

Lemma bind_run {A B} (m : M A) (f : A -> M B) w a w' :
  m w = (inr a, w') -> bind m f w = f a w'.
Proof. intros H. unfold bind. rewrite H. reflexivity. Qed.

Lemma try_run {A} (m : M A) (h : exn -> M A) w a w' :
  m w = (inr a, w') -> try_except m h w = (inr a, w').
Proof. intros H. unfold try_except. rewrite H. reflexivity. Qed.

Lemma same_env_refl w : same_env w w.
Proof. repeat split. Qed.

Lemma same_env_trans a b c : same_env a b -> same_env b c -> same_env a c.
Proof.
  intros (A1 & A2 & A3 & A4 & A5) (B1 & B2 & B3 & B4 & B5).
  repeat split; congruence.
Qed.

Lemma check_petition_expired_run p w :
  check_petition_expired p w =
  (inr match created_at p with
       | Aware T => T + timedelta_days PETITION_EXPIRY_DAYS <? now w
       | Naive | Unreadable => false
       end, w).
Proof.
  unfold check_petition_expired, try_except, bind, utcnow, ret, raise.
  destruct (created_at p); reflexivity.
Qed.

Lemma older_than_expiry_run p w :
  naive_date p = false ->
  older_than_expiry p w =
  (inr match created_at p with
       | Aware T => PETITION_EXPIRY_DAYS <? days_of (now w - T)
       | Naive | Unreadable => false
       end, w).
Proof.
  unfold older_than_expiry, naive_date, bind, utcnow, ret.
  destruct (created_at p); try discriminate; reflexivity.
Qed.

Lemma remote_call_ok w : faults w = [] -> remote_call w = (inr tt, w).
Proof. intros H. unfold remote_call. rewrite H. reflexivity. Qed.

Lemma fetch_message_ok mid m w :
  faults w = [] -> messages w !! mid = Some m -> fetch_message mid w = (inr m, w).
Proof.
  intros Hf Hm. unfold fetch_message.
  rewrite (bind_run _ _ _ _ _ (remote_call_ok w Hf)), Hm. reflexivity.
Qed.

Lemma fetch_message_gone mid w :
  faults w = [] -> messages w !! mid = None -> fetch_message mid w = (inl NotFound, w).
Proof.
  intros Hf Hm. unfold fetch_message.
  rewrite (bind_run _ _ _ _ _ (remote_call_ok w Hf)), Hm. reflexivity.
Qed.

Lemma on_message_ok mid f c m w :
  faults w = [] -> messages w !! mid = Some m ->
  on_message mid f c w =
  (inr tt, set_trace (c :: trace w) (set_messages (<[mid := f w m]> (messages w)) w)).
Proof.
  intros Hf Hm. unfold on_message.
  rewrite (bind_run _ _ _ _ _ (remote_call_ok w Hf)), Hm. reflexivity.
Qed.

Lemma reaction_users_ok r w :
  faults w = [] -> reaction_users r w = (inr (r_users r), w).
Proof.
  intros Hf. unfold reaction_users.
  rewrite (bind_run _ _ _ _ _ (remote_call_ok w Hf)). reflexivity.
Qed.

Lemma count_signatures_ok m w :
  faults w = [] -> count_signatures m w = (inr (human_count m), w).
Proof.
  intros Hf. unfold count_signatures, human_count, signers.
  destruct (List.find is_ballpoint (m_reactions m)) as [r|]; [|reflexivity].
  rewrite (bind_run _ _ _ _ _ (reaction_users_ok r w Hf)). reflexivity.
Qed.

(** What [publish_count] leaves behind when the platform answers: the
    embed of the message read, with the count, green on a crossing; the
    flag set on a crossing; one edit, after at most one notification. *)
Lemma publish_count_ok mid message p n m q w :
  faults w = [] -> messages w !! mid = Some m -> petitions_file w !! mid = Some q ->
  exists w',
    publish_count mid message p n w = (inr tt, w') /\ same_env w w' /\
    match m_embeds message with
    | [] => w' = w
    | embed :: _ =>
        let shown := show_signatures n (get_petition_threshold p) embed in
        let sent := if crossing p n then with_color GREEN shown else shown in
        messages w' = <[mid := with_embed sent m]> (messages w) /\
        petitions_file w' =
          (if crossing p n
           then <[mid := set_threshold_reached q]> (petitions_file w)
           else petitions_file w) /\
        (trace w' = Edit mid sent :: trace w \/
         (crossing p n = true /\
          trace w' = Edit mid sent :: AdminSend mid n :: trace w))
    end.
Proof.
  intros Hf Hm Hq. unfold publish_count.
  destruct (m_embeds message) as [|embed rest].
  { exists w. split; [reflexivity|]. split; [apply same_env_refl | reflexivity]. }
  fold (crossing p n). destruct (crossing p n) eqn:Hc.
  - destruct w as [file msgs pc sc me t fs tr]. simpl in Hf, Hm, Hq. subst fs.
    unfold bind, notify_threshold_reached, try_except, get_world, remote_call,
      emit, raise, ret.
    simpl. destruct sc; simpl.
    + destruct (created_at p); simpl;
        rewrite mark_threshold_reached_run; simpl; rewrite Hq;
        unfold edit, on_message, bind, remote_call; simpl; rewrite Hm;
        eexists; (split; [reflexivity|]); (split; [repeat split|]); simpl; auto.
    + rewrite mark_threshold_reached_run; simpl; rewrite Hq.
      unfold edit, on_message, bind, remote_call; simpl; rewrite Hm.
      eexists. split; [reflexivity|]. split; [repeat split|]. simpl. auto.
  - unfold edit. rewrite (on_message_ok _ _ _ m w Hf Hm).
    eexists. split; [reflexivity|]. split; [repeat split|]. simpl. auto.
Qed.

Lemma older_than_expiry_too_old p w :
  naive_date p = false ->
  older_than_expiry p w = (inr (too_old p (now w)), w).
Proof. apply older_than_expiry_run. Qed.

Lemma too_old_aware p t : too_old p t = true -> naive_date p = false.
Proof. unfold too_old, naive_date. destruct (created_at p); auto; discriminate. Qed.

(** One petition of the signature sweep, when its stored count differs
    from the live one. *)
Lemma verify_one_mismatch mid p m w :
  faults w = [] -> petitions_file w !! mid = Some p -> messages w !! mid = Some m ->
  skipped p = false -> naive_date p = false -> too_old p (now w) = false ->
  human_count m <> signatures p ->
  let A := human_count m in
  exists w',
    verify_one (mid, p) w = (inr tt, w') /\ same_env w w' /\
    match m_embeds m with
    | [] =>
        petitions_file w' = <[mid := set_signatures A p]> (petitions_file w) /\
        messages w' = messages w
    | embed :: _ =>
        let shown := show_signatures A (get_petition_threshold p) embed in
        let sent := if crossing p A then with_color GREEN shown else shown in
        messages w' = <[mid := with_embed sent m]> (messages w) /\
        petitions_file w' =
          <[mid := if crossing p A
                   then set_threshold_reached (set_signatures A p)
                   else set_signatures A p]> (petitions_file w)
    end.
Proof.
  intros Hf Hp Hm Hskip Hdate Hold Hne A. unfold verify_one. rewrite Hskip.
  rewrite (bind_run _ _ _ _ _ (older_than_expiry_too_old p w Hdate)), Hold.
  set (w0 := set_trace (Sleep half_second :: trace w) w).
  assert (same_env w w0) as He0 by (repeat split).
  assert (faults w0 = []) as Hf0 by exact Hf.
  set (w1 := set_file (<[mid := set_signatures A p]> (petitions_file w0)) w0).
  assert (update_petition_signatures mid A w0 = (inr tt, w1)) as Hup
    by (rewrite update_petition_signatures_run; simpl; rewrite Hp; reflexivity).
  assert (same_env w w1) as He1 by (repeat split).
  destruct (publish_count_ok mid m p A m (set_signatures A p) w1 Hf Hm
              (lookup_insert_eq _ _ _)) as (w' & Hrun & He & Hpost).
  exists w'. split; [|split].
  - apply try_run.
    rewrite (bind_run (sleep half_second) _ w tt w0) by reflexivity.
    rewrite (bind_run _ _ _ _ _ (fetch_message_ok mid m w0 Hf0 Hm)).
    rewrite (bind_run _ _ _ _ _ (count_signatures_ok m w0 Hf0)).
    fold A. destruct (Z.eqb_spec A (signatures p)) as [E|_]; [contradiction|].
    rewrite (bind_run _ _ _ _ _ Hup). exact Hrun.
  - exact (same_env_trans _ _ _ He1 He).
  - destruct (m_embeds m) as [|embed rest].
    + subst w'. split; reflexivity.
    + destruct Hpost as (Hmsg & Hfile & _). split; [exact Hmsg|].
      rewrite Hfile. destruct (crossing p A); [|reflexivity].
      subst w1. simpl. apply insert_insert_eq.
Qed.

(** ... and when the two counts agree: it only sleeps. *)
Lemma verify_one_match mid p m w :
  faults w = [] -> messages w !! mid = Some m ->
  skipped p = false -> naive_date p = false -> too_old p (now w) = false ->
  human_count m = signatures p ->
  verify_one (mid, p) w = (inr tt, set_trace (Sleep half_second :: trace w) w).
Proof.
  intros Hf Hm Hskip Hdate Hold Heq. unfold verify_one. rewrite Hskip.
  rewrite (bind_run _ _ _ _ _ (older_than_expiry_too_old p w Hdate)), Hold.
  set (w0 := set_trace (Sleep half_second :: trace w) w).
  assert (faults w0 = []) as Hf0 by exact Hf.
  apply try_run.
  rewrite (bind_run (sleep half_second) _ w tt w0) by reflexivity.
  rewrite (bind_run _ _ _ _ _ (fetch_message_ok mid m w0 Hf0 Hm)).
  rewrite (bind_run _ _ _ _ _ (count_signatures_ok m w0 Hf0)).
  rewrite Heq, Z.eqb_refl. reflexivity.
Qed.

(** ... and when the anchor message is gone: the petition is marked
    invalid. *)
Lemma verify_one_gone mid p w :
  faults w = [] -> petitions_file w !! mid = Some p -> messages w !! mid = None ->
  skipped p = false -> naive_date p = false -> too_old p (now w) = false ->
  verify_one (mid, p) w =
  (inr tt,
   set_file (<[mid := set_invalid "Message not found (404)" (now w) p]> (petitions_file w))
     (set_trace (Sleep half_second :: trace w) w)).
Proof.
  intros Hf Hp Hm Hskip Hdate Hold. unfold verify_one. rewrite Hskip.
  rewrite (bind_run _ _ _ _ _ (older_than_expiry_too_old p w Hdate)), Hold.
  set (w0 := set_trace (Sleep half_second :: trace w) w).
  assert (faults w0 = []) as Hf0 by exact Hf.
  unfold try_except.
  rewrite (bind_run (sleep half_second) _ w tt w0) by reflexivity.
  unfold bind at 1. rewrite (fetch_message_gone mid w0 Hf0 Hm).
  unfold sweep_handler, NotFound. simpl.
  unfold bind. rewrite mark_petition_invalid_run. simpl. rewrite Hp. reflexivity.
Qed.

Lemma verify_one_skips mid p w :
  skipped p = true \/ too_old p (now w) = true -> verify_one (mid, p) w = (inr tt, w).
Proof.
  intros H. unfold verify_one. destruct (skipped p); [reflexivity|].
  destruct H as [H|H]; [discriminate|].
  rewrite (bind_run _ _ _ _ _ (older_than_expiry_too_old p w (too_old_aware _ _ H))), H.
  reflexivity.
Qed.

(** ** The signature sweep, petition by petition *)

Lemma signers_with_embed e m : signers (with_embed e m) = signers m.
Proof. reflexivity. Qed.

Lemma human_count_with_embed e m : human_count (with_embed e m) = human_count m.
Proof. reflexivity. Qed.

Lemma consistent_with_embed me e m : consistent me m -> consistent me (with_embed e m).
Proof. intros H. exact H. Qed.

Lemma map_to_list_split (d : gmap Z Petition) mid p :
  d !! mid = Some p ->
  exists l1 l2,
    map_to_list d = (l1 ++ (mid, p) :: l2)%list /\
    (forall i r, (i, r) ∈ l1 -> i <> mid) /\
    (forall i r, (i, r) ∈ l2 -> i <> mid).
Proof.
  intros Hp. apply elem_of_map_to_list in Hp.
  destruct (list_elem_of_split _ _ Hp) as (l1 & l2 & Hl).
  exists l1, l2. split; [exact Hl|].
  pose proof (NoDup_fst_map_to_list d) as Hnd. rewrite Hl, fmap_app in Hnd.
  apply NoDup_app in Hnd as (_ & Hdis & Hnd2). simpl in Hdis, Hnd2.
  apply NoDup_cons in Hnd2 as [Hfresh _].
  split; intros i r Hir ->.
  - apply (Hdis mid); [|left].
    apply list_elem_of_fmap. exists (mid, r). split; [reflexivity | exact Hir].
  - apply Hfresh. apply list_elem_of_fmap. exists (mid, r).
    split; [reflexivity | exact Hir].
Qed.


Lemma not_too_old p t :
  (forall T, created_at p = Aware T -> t <= T + timedelta_days 30) ->
  too_old p t = false.
Proof.
  intros H. unfold too_old. destruct (created_at p) as [T| |]; [|reflexivity|reflexivity].
  apply Z.ltb_ge. unfold days_of, PETITION_EXPIRY_DAYS.
  specialize (H T eq_refl). unfold timedelta_days in *.
  apply Z.lt_succ_r. apply Z.div_lt_upper_bound; lia.
Qed.



(** ** The signature sweep leaves the reactions alone *)

#[global] Instance same_reactions_preorder : PreOrder same_reactions.
Proof.
  split.
  - intros w i. reflexivity.
  - intros a b c Hab Hbc i. rewrite Hbc. apply Hab.
Qed.

#[export] Hint Extern 1 (respects _ get_world) => apply respects_read; apply _ : respects.
#[export] Hint Extern 1 (respects _ utcnow) => apply respects_read; apply _ : respects.
#[export] Hint Extern 1 (respects _ get_channel) => apply respects_read; apply _ : respects.
#[export] Hint Extern 1 (respects _ load_petition_data) =>
  apply respects_read; apply _ : respects.

Lemma same_reactions_of_messages w w' : messages w' = messages w -> same_reactions w w'.
Proof. intros H i. rewrite H. reflexivity. Qed.

Lemma same_reactions_remote_call : respects same_reactions remote_call.
Proof.
  intros w. apply same_reactions_of_messages. unfold exec, remote_call.
  destruct (faults w) as [|[e|] fs]; reflexivity.
Qed.

Lemma same_reactions_emit c : respects same_reactions (emit c).
Proof. intros w. apply same_reactions_of_messages. reflexivity. Qed.

Lemma same_reactions_fetch_message mid : respects same_reactions (fetch_message mid).
Proof.
  unfold fetch_message.
  apply respects_bind; [apply _ | apply same_reactions_remote_call|].
  intros _ w. unfold exec. destruct (messages w !! mid); reflexivity.
Qed.

Lemma same_reactions_edit mid e : respects same_reactions (edit mid e).
Proof.
  unfold edit, on_message.
  apply respects_bind; [apply _ | apply same_reactions_remote_call|].
  intros _ w. unfold exec. destruct (messages w !! mid) as [m|] eqn:Hm; [|reflexivity].
  intros i. simpl. destruct (decide (mid = i)) as [<-|Hne].
  - rewrite lookup_insert_eq, Hm. reflexivity.
  - rewrite lookup_insert_ne by exact Hne. reflexivity.
Qed.

Lemma same_reactions_mark_threshold_reached mid :
  respects same_reactions (mark_threshold_reached mid).
Proof.
  intros w. apply same_reactions_of_messages. unfold exec.
  rewrite mark_threshold_reached_run. destruct (petitions_file w !! mid); reflexivity.
Qed.

Lemma same_reactions_mark_petition_invalid mid reason :
  respects same_reactions (mark_petition_invalid mid reason).
Proof.
  intros w. apply same_reactions_of_messages. unfold exec.
  rewrite mark_petition_invalid_run. destruct (petitions_file w !! mid); reflexivity.
Qed.

Lemma same_reactions_update_petition_signatures mid n :
  respects same_reactions (update_petition_signatures mid n).
Proof.
  intros w. apply same_reactions_of_messages. unfold exec.
  rewrite update_petition_signatures_run. destruct (petitions_file w !! mid); reflexivity.
Qed.

#[export] Hint Resolve same_reactions_remote_call same_reactions_emit
  same_reactions_fetch_message same_reactions_edit
  same_reactions_mark_threshold_reached same_reactions_mark_petition_invalid
  same_reactions_update_petition_signatures : respects.

Lemma same_reactions_verify_petition_signature_counts :
  respects same_reactions verify_petition_signature_counts.
Proof.
  unfold verify_petition_signature_counts, verify_loop, verify_one, sweep_handler,
    older_than_expiry, sleep, count_signatures, reaction_users, publish_count,
    notify_threshold_reached.
  respects_tac.
Qed.

(** ** After a sweep, nothing is left for the next *)

Lemma settled_leaves mid w w' : leaves mid w w' -> settled mid w -> settled mid w'.
Proof.
  intros (Hf & Hm & _ & Hn & _) Hs q Hq. rewrite Hf in Hq.
  rewrite Hm, Hn. apply Hs, Hq.
Qed.

Lemma exec_of_run {A} (m : M A) w r w' : m w = (r, w') -> exec m w = w'.
Proof. intros H. unfold exec. rewrite H. reflexivity. Qed.

Lemma verify_one_returns mid p w a :
  outcome (verify_one (mid, p)) w = inr a -> skipped p = true \/ naive_date p = false.
Proof.
  intros H. destruct (skipped p) eqn:Hskip; [left; reflexivity|].
  destruct (naive_date p) eqn:Hp; [|right; reflexivity].
  unfold outcome in H. rewrite verify_one_naive in H by assumption. discriminate.
Qed.

(** A turn of the sweep that returns leaves its petition with nothing to
    do for the next sweep, which will return on it as well. *)
Lemma verify_one_settles mid p w :
  faults w = [] -> petitions_file w !! mid = Some p ->
  skipped p = true \/ naive_date p = false ->
  let w' := exec (verify_one (mid, p)) w in
  faults w' = [] /\ settled mid w' /\
  (forall q, petitions_file w' !! mid = Some q ->
     skipped q = true \/ naive_date q = false).
Proof.
  intros Hf Hp Hok w'. subst w'.
  destruct (skipped p) eqn:Hskip.
  { rewrite (exec_of_run _ _ _ _ (verify_one_skips mid p w (or_introl Hskip))).
    split; [exact Hf|]. split; intros q Hq; left; rewrite Hp in Hq; congruence. }
  destruct Hok as [Hok|Hdate]; [discriminate|].
  assert (forall f, created_at (f p) = created_at p ->
            forall q, Some (f p) = Some q -> skipped q = true \/ naive_date q = false)
    as Hkeep.
  { intros f Hfp q Hq. injection Hq as <-. right.
    unfold naive_date in *. rewrite Hfp. exact Hdate. }
  destruct (too_old p (now w)) eqn:Hold.
  { rewrite (exec_of_run _ _ _ _ (verify_one_skips mid p w (or_intror Hold))).
    split; [exact Hf|]. split; intros q Hq.
    - right. left. rewrite Hp in Hq. congruence.
    - rewrite Hp in Hq. exact (Hkeep (fun x => x) eq_refl q Hq). }
  destruct (messages w !! mid) as [m|] eqn:Hm.
  - destruct (Z.eq_dec (human_count m) (signatures p)) as [Heq|Hne].
    + rewrite (exec_of_run _ _ _ _
                 (verify_one_match mid p m w Hf Hm Hskip Hdate Hold Heq)).
      split; [exact Hf|]. split; intros q Hq;
        change (petitions_file w !! mid = Some q) in Hq; rewrite Hp in Hq.
      * right. right. exists m. split; [exact Hm|]. congruence.
      * exact (Hkeep (fun x => x) eq_refl q Hq).
    + destruct (verify_one_mismatch mid p m w Hf Hp Hm Hskip Hdate Hold Hne)
        as (w' & Hrun & (Hf' & _) & Hpost).
      rewrite (exec_of_run _ _ _ _ Hrun).
      split; [congruence|].
      destruct (m_embeds m) as [|embed rest].
      * destruct Hpost as [Hfile Hmsg]. split; intros q Hq;
          rewrite Hfile, lookup_insert_eq in Hq.
        -- right. right. exists m. rewrite Hmsg. split; [exact Hm|].
           injection Hq as <-. reflexivity.
        -- exact (Hkeep (set_signatures (human_count m)) eq_refl q Hq).
      * cbv zeta in Hpost. destruct Hpost as [Hmsg Hfile]. split; intros q Hq;
          rewrite Hfile, lookup_insert_eq in Hq.
        -- right. right. rewrite Hmsg, lookup_insert_eq.
           eexists. split; [reflexivity|]. injection Hq as <-.
           rewrite human_count_with_embed.
           destruct (crossing p (human_count m)); reflexivity.
        -- destruct (crossing p (human_count m)).
           ++ exact (Hkeep (fun x => set_threshold_reached
                                       (set_signatures (human_count m) x)) eq_refl q Hq).
           ++ exact (Hkeep (set_signatures (human_count m)) eq_refl q Hq).
  - rewrite (exec_of_run _ _ _ _ (verify_one_gone mid p w Hf Hp Hm Hskip Hdate Hold)).
    split; [exact Hf|]. split; intros q Hq;
      change (<[mid := set_invalid "Message not found (404)" (now w) p]>
                (petitions_file w) !! mid = Some q) in Hq;
      rewrite lookup_insert_eq in Hq; injection Hq as <-; left;
      unfold skipped; simpl; apply orb_true_r.
Qed.

Lemma settles_for_each (l : list (Z * Petition)) w :
  NoDup (l.*1) -> faults w = [] ->
  (forall i r, (i, r) ∈ l -> petitions_file w !! i = Some r) ->
  (forall i r, (i, r) ∈ l -> naive_date r = false) ->
  let w' := exec (for_each l verify_one) w in
  faults w' = [] /\
  (forall i r, (i, r) ∈ l -> settled i w') /\
  (forall keep, keep ∉ l.*1 -> leaves keep w w').
Proof.
  revert w. induction l as [|[i r] l IH]; intros w Hnd Hf Hl Hdates; cbv zeta.
  - split; [exact Hf|]. split.
    + intros j s Hjs. inversion Hjs.
    + intros keep _. reflexivity.
  - pose proof (Hdates i r ltac:(left)) as Hr.
    rewrite exec_for_each_cons by (apply never_raises_verify_one; exact Hr).
    simpl in Hnd. apply NoDup_cons in Hnd as [Hfresh Hnd].
    destruct (verify_one_settles i r w Hf (Hl i r ltac:(left)) (or_intror Hr))
      as (Hf1 & Hs1 & _).
    set (w1 := exec (verify_one (i, r)) w) in *.
    assert (forall j s, (j, s) ∈ l -> j <> i) as Hother.
    { intros j s Hjs ->. apply Hfresh. apply list_elem_of_fmap.
      exists (i, s). split; [reflexivity | exact Hjs]. }
    destruct (IH w1 Hnd Hf1) as (Hf2 & Hs2 & Hk2).
    { intros j s Hjs.
      destruct (leaves_verify_one j i r (not_eq_sym (Hother j s Hjs)) w) as [E _].
      fold w1 in E. rewrite E. apply Hl. right. exact Hjs. }
    { intros j s Hjs. apply (Hdates j s). right. exact Hjs. }
    split; [exact Hf2|]. split.
    + intros j s Hjs. apply elem_of_cons in Hjs as [E|Hjs].
      * injection E as -> ->. eapply settled_leaves; [apply Hk2, Hfresh | exact Hs1].
      * eapply Hs2, Hjs.
    + intros keep Hkeep. apply not_elem_of_cons in Hkeep as [Hne Hkeep].
      transitivity w1; [apply leaves_verify_one; auto | apply Hk2, Hkeep].
Qed.

#[global] Instance idle_preorder : PreOrder idle.
Proof.
  split.
  - intros w. repeat split.
  - intros a b c (A1 & A2 & A3 & A4) (B1 & B2 & B3 & B4).
    split; [congruence|]. split; [congruence|]. split; [congruence|].
    eapply same_env_trans; eassumption.
Qed.

Lemma idle_verify_one mid q w :
  faults w = [] -> petitions_file w !! mid = Some q -> settled mid w ->
  skipped q = true \/ naive_date q = false ->
  idle w (exec (verify_one (mid, q)) w).
Proof.
  intros Hf Hq Hs Hok. unfold exec.
  destruct (skipped q) eqn:Hskip.
  { rewrite verify_one_skips by auto. reflexivity. }
  destruct Hok as [Hok|Hdate]; [discriminate|].
  destruct (Hs q Hq) as [H|[H|(m & Hm & Heq)]].
  - congruence.
  - rewrite verify_one_skips by auto. reflexivity.
  - destruct (too_old q (now w)) eqn:Hold.
    { rewrite verify_one_skips by auto. reflexivity. }
    rewrite (verify_one_match mid q m w Hf Hm Hskip Hdate Hold Heq).
    repeat split.
Qed.

Lemma settled_idle mid w v : idle w v -> settled mid w -> settled mid v.
Proof.
  intros (Hfile & Hmsg & _ & _ & Hnow & _) Hs q Hq.
  rewrite Hfile in Hq. rewrite Hmsg, Hnow. apply Hs, Hq.
Qed.

(** A sweep over [l] with the platform answering, returning or stopped at a
    naive date, and the next one over the same petitions in the same order,
    which finds nothing to do: it passes over or sleeps through the
    petitions the first sweep reached, and stops where the first one did. *)
Lemma sweep_again (l : list (Z * Petition)) w :
  NoDup (l.*1) -> faults w = [] ->
  (forall i r, (i, r) ∈ l -> petitions_file w !! i = Some r) ->
  let w1 := exec (for_each l verify_one) w in
  faults w1 = [] /\ petitions_channel w1 = petitions_channel w /\
  (forall keep, keep ∉ l.*1 -> leaves keep w w1) /\
  (forall l' v, l'.*1 = l.*1 ->
     (forall i q, (i, q) ∈ l' -> petitions_file w1 !! i = Some q) ->
     idle w1 v -> idle v (exec (for_each l' verify_one) v)).
Proof.
  revert w. induction l as [|[i r] l IH]; intros w Hnd Hf Hl; cbv zeta.
  - split; [exact Hf|]. split; [reflexivity|]. split; [intros keep _; reflexivity|].
    intros l' v Hkeys _ _. destruct l'; [reflexivity | discriminate].
  - rewrite exec_for_each_step.
    simpl in Hnd. apply NoDup_cons in Hnd as [Hfresh Hnd].
    pose proof (Hl i r ltac:(left)) as Hr.
    destruct (outcome (verify_one (i, r)) w) as [e|a] eqn:Hout.
    + pose proof (verify_one_raises i r w e Hout) as Hraise.
      rewrite (exec_of_run _ _ _ _ (Hraise w)).
      split; [exact Hf|]. split; [reflexivity|]. split; [intros keep _; reflexivity|].
      intros l' v Hkeys Hl' Hidle.
      destruct l' as [|[i' q] l']; [discriminate|].
      simpl in Hkeys. injection Hkeys as -> _.
      pose proof (Hl' i q ltac:(left)) as Hq. rewrite Hr in Hq. injection Hq as <-.
      rewrite exec_for_each_step. unfold outcome.
      rewrite (Hraise v). cbn [fst]. rewrite (exec_of_run _ _ _ _ (Hraise v)).
      reflexivity.
    + destruct (verify_one_settles i r w Hf Hr (verify_one_returns i r w a Hout))
        as (Hf1 & Hs1 & Hok1).
      set (w' := exec (verify_one (i, r)) w) in *.
      assert (forall j s, (j, s) ∈ l -> j <> i) as Hother.
      { intros j s Hjs ->. apply Hfresh. apply list_elem_of_fmap.
        exists (i, s). split; [reflexivity | exact Hjs]. }
      destruct (IH w' Hnd Hf1) as (Hf2 & Hch2 & Hk2 & Hagain).
      { intros j s Hjs.
        destruct (leaves_verify_one j i r (not_eq_sym (Hother j s Hjs)) w) as [E _].
        fold w' in E. rewrite E. apply Hl. right. exact Hjs. }
      set (w1 := exec (for_each l verify_one) w') in *.
      split; [exact Hf2|]. split; [|split].
      * rewrite Hch2.
        destruct (leaves_verify_one (i + 1) i r ltac:(lia) w) as (_ & _ & _ & _ & E & _).
        exact E.
      * intros keep Hkeep. apply not_elem_of_cons in Hkeep as [Hne Hkeep].
        transitivity w'; [apply leaves_verify_one; auto | apply Hk2, Hkeep].
      * intros l' v Hkeys Hl' Hidle.
        destruct l' as [|[i' q] l']; [discriminate|].
        simpl in Hkeys. injection Hkeys as -> Hkeys.
        pose proof (Hl' i q ltac:(left)) as Hq.
        pose proof (Hk2 i Hfresh) as Hleft.
        assert (settled i w1) as Hs by (eapply settled_leaves; eassumption).
        assert (skipped q = true \/ naive_date q = false) as Hok.
        { apply Hok1. destruct Hleft as [<- _]. exact Hq. }
        assert (idle v (exec (verify_one (i, q)) v)) as Hturn.
        { destruct Hidle as (Hfile & Hmsg & Htr & Hfv & Henv).
          apply idle_verify_one; [congruence | rewrite Hfile; exact Hq | | exact Hok].
          apply (settled_idle i w1 v); [|exact Hs].
          split; [exact Hfile|]. split; [exact Hmsg|]. split; [exact Htr|].
          split; assumption. }
        rewrite exec_for_each_step.
        destruct (outcome (verify_one (i, q)) v); [exact Hturn|].
        transitivity (exec (verify_one (i, q)) v); [exact Hturn|].
        apply Hagain; [exact Hkeys | |].
        -- intros j s Hjs. apply Hl'. right. exact Hjs.
        -- transitivity v; assumption.
Qed.

(** A sweep without outages over a document without naive dates settles
    every petition. *)
Lemma verify_settles_all w :
  faults w = [] -> petitions_channel w = true ->
  dates_aware (petitions_file w) = true ->
  let w' := exec verify_petition_signature_counts w in
  faults w' = [] /\ forall i, settled i w'.
Proof.
  intros Hf Hch Hdates w'. subst w'.
  rewrite verify_petition_signature_counts_run, Hch. unfold verify_loop.
  destruct (settles_for_each (map_to_list (petitions_file w)) w
              (NoDup_fst_map_to_list _) Hf) as (Hf' & Hs & Hk).
  { intros i r Hir. apply elem_of_map_to_list, Hir. }
  { intros i r Hir. apply (dates_aware_lookup _ i r Hdates).
    apply elem_of_map_to_list, Hir. }
  split; [exact Hf'|]. intros i.
  destruct (petitions_file w !! i) as [r|] eqn:Hi.
  - apply (Hs i r), elem_of_map_to_list, Hi.
  - intros q Hq. exfalso.
    assert (i ∉ (map_to_list (petitions_file w)).*1) as Hnot.
    { intros Hin. apply list_elem_of_fmap in Hin as ([j s] & -> & Hjs).
      apply elem_of_map_to_list in Hjs. simpl in Hi. congruence. }
    destruct (Hk i Hnot) as [Hfile _]. congruence.
Qed.

(** A second sweep right after the first does nothing but sleep. *)
Lemma verify_twice_idle w :
  faults w = [] ->
  let w1 := exec verify_petition_signature_counts w in
  idle w1 (exec verify_petition_signature_counts w1).
Proof.
  intros Hf w1.
  pose proof (same_dates_verify_petition_signature_counts w) as Hdates.
  fold w1 in Hdates.
  destruct (petitions_channel w) eqn:Hch.
  2: { assert (w1 = w) as ->
         by (subst w1; rewrite verify_petition_signature_counts_run, Hch; reflexivity).
       rewrite verify_petition_signature_counts_run, Hch. reflexivity. }
  destruct (sweep_again (map_to_list (petitions_file w)) w
              (NoDup_fst_map_to_list _) Hf) as (_ & Hch1 & _ & Hagain).
  { intros i r Hir. apply elem_of_map_to_list, Hir. }
  assert (w1 = exec (for_each (map_to_list (petitions_file w)) verify_one) w) as Hw1.
  { subst w1. rewrite verify_petition_signature_counts_run, Hch. reflexivity. }
  rewrite <- Hw1 in Hagain, Hch1.
  rewrite (verify_petition_signature_counts_run w1), Hch1, Hch. unfold verify_loop.
  apply Hagain.
  - apply same_dates_keys, Hdates.
  - intros i q Hiq. apply elem_of_map_to_list, Hiq.
  - reflexivity.
Qed.

(** ** The expiry sweep passes over reached petitions *)

Lemma leaves_for_each_expire keep (l : list (Z * Petition)) w :
  (forall i r, (i, r) ∈ l -> i <> keep) ->
  leaves keep w (exec (for_each l expire_one) w).
Proof.
  intros Hl. apply respects_for_each_in; [apply _|].
  intros [i r] Hin. apply leaves_expire_one, (Hl i r), list_elem_of_In, Hin.
Qed.

Lemma expiry_sweep_spares_skipped w mid p :
  petitions_file w !! mid = Some p -> skipped p = true ->
  petitions_file (exec check_all_petitions_for_expiry w) !! mid = Some p.
Proof.
  intros Hp Hskip. rewrite check_all_petitions_for_expiry_run.
  destruct (petitions_channel w); [|exact Hp]. unfold expiry_loop.
  destruct (map_to_list_split _ _ _ Hp) as (l1 & l2 & -> & H1 & H2).
  rewrite exec_for_each_split by apply never_raises_expire_one.
  destruct (leaves_for_each_expire mid l2
              (exec (expire_one (mid, p)) (exec (for_each l1 expire_one) w)) H2)
    as [-> _].
  assert (forall v, exec (expire_one (mid, p)) v = v) as ->
    by (intros v; unfold exec, expire_one; rewrite Hskip; reflexivity).
  destruct (leaves_for_each_expire mid l1 w H1) as [-> _]. exact Hp.
Qed.

(** ** The pen reaction and the placeholder *)

Lemma find_react_none u rs :
  List.find is_ballpoint rs = None ->
  List.find is_ballpoint (react u rs) = Some (mkReaction BALLPOINT_EMOJI [u]).
Proof.
  induction rs as [|r rs IH]; simpl; intros H.
  - reflexivity.
  - destruct (is_ballpoint r) eqn:E; [discriminate|]. simpl. rewrite E. auto.
Qed.

Lemma find_react_some u rs r :
  List.find is_ballpoint rs = Some r -> has_user u (r_users r) = false ->
  List.find is_ballpoint (react u rs) =
  Some (mkReaction (r_emoji r) (r_users r ++ [u])).
Proof.
  induction rs as [|r' rs IH]; simpl; intros H Hu; [discriminate|].
  destruct (is_ballpoint r') eqn:E.
  - injection H as ->. rewrite Hu. simpl.
    unfold is_ballpoint in *. simpl. rewrite E. reflexivity.
  - simpl. rewrite E. auto.
Qed.

Lemma find_unreact u rs r :
  List.find is_ballpoint rs = Some r ->
  List.filter (fun v => negb (user_id v =? user_id u)) (r_users r) <> [] ->
  List.find is_ballpoint (unreact u rs) =
  Some (mkReaction (r_emoji r)
          (List.filter (fun v => negb (user_id v =? user_id u)) (r_users r))).
Proof.
  induction rs as [|r' rs IH]; simpl; intros H Hu; [discriminate|].
  destruct (is_ballpoint r') eqn:E.
  - injection H as ->.
    destruct (List.filter _ (r_users r)) as [|v vs] eqn:F; [congruence|].
    simpl. unfold is_ballpoint in *. simpl. rewrite E. reflexivity.
  - simpl. rewrite E. auto.
Qed.

Lemma human_users_app us vs :
  human_users (us ++ vs)%list = (human_users us ++ human_users vs)%list.
Proof. apply List.filter_app. Qed.

Lemma has_user_app u us vs :
  has_user u (us ++ vs)%list = has_user u us || has_user u vs.
Proof. apply existsb_app. Qed.

Lemma has_user_self u : has_user u [u] = true.
Proof. unfold has_user. simpl. rewrite Z.eqb_refl. reflexivity. Qed.

Lemma has_user_removed u us :
  has_user u (List.filter (fun v => negb (user_id v =? user_id u)) us) = false.
Proof.
  induction us as [|v us IH]; simpl; [reflexivity|].
  destruct (user_id v =? user_id u) eqn:E; simpl; [exact IH|].
  rewrite E. exact IH.
Qed.

Lemma human_users_removed u us :
  own_account_is_bot u us ->
  human_users (List.filter (fun v => negb (user_id v =? user_id u)) us) = human_users us.
Proof.
  induction 1 as [|v us Hv _ IH]; simpl; [reflexivity|].
  destruct (Z.eqb_spec (user_id v) (user_id u)) as [E|E]; simpl.
  - rewrite (Hv E). simpl. exact IH.
  - rewrite IH. reflexivity.
Qed.

Lemma own_account_removed u us :
  own_account_is_bot u us ->
  own_account_is_bot u (List.filter (fun v => negb (user_id v =? user_id u)) us).
Proof.
  induction 1 as [|v us Hv _ IH]; simpl; [constructor|].
  destruct (negb (user_id v =? user_id u)); [constructor; assumption | exact IH].
Qed.

Lemma set_signatures_same p : set_signatures (signatures p) p = p.
Proof. destruct p. reflexivity. Qed.

Lemma threshold_positive p : 0 < get_petition_threshold p.
Proof. unfold get_petition_threshold. destruct (is_recall p); reflexivity. Qed.

(** ** The handler when the platform answers *)

Lemma manage_bot_signature_idle mid r m w :
  List.find is_ballpoint (m_reactions m) = Some r ->
  consistent (client_user w) m ->
  manage_bot_signature mid (r_users r) w = (inr tt, w).
Proof.
  intros Hr [_ Hc]. unfold placeholder_on, human_count, signers in Hc.
  rewrite Hr in Hc.
  unfold manage_bot_signature, bind, get_world. rewrite Hc.
  destruct (Z.eqb_spec (Z.of_nat (length (human_users (r_users r)))) 0) as [E|E]; simpl.
  - rewrite E. reflexivity.
  - rewrite andb_false_r. reflexivity.
Qed.

Lemma manage_bot_signature_ok mid r m w :
  faults w = [] -> messages w !! mid = Some m ->
  List.find is_ballpoint (m_reactions m) = Some r ->
  user_bot (client_user w) = true ->
  own_account_is_bot (client_user w) (r_users r) ->
  exists w' m',
    manage_bot_signature mid (r_users r) w = (inr tt, w') /\
    same_env w w' /\
    petitions_file w' = petitions_file w /\
    messages w' = <[mid := m']> (messages w) /\
    m_embeds m' = m_embeds m /\
    human_count m' = human_count m /\
    consistent (client_user w) m' /\
    own_account_is_bot (client_user w) (signers m').
Proof.
  intros Hf Hm Hr Hbot Hown.
  set (me := client_user w) in *.
  set (us := r_users r) in *.
  assert (human_count m = Z.of_nat (length (human_users us))) as Hcount
    by (unfold human_count, signers; rewrite Hr; reflexivity).
  assert (signers m = us) as Hsig by (unfold signers; rewrite Hr; reflexivity).
  unfold manage_bot_signature, bind, get_world. fold me.
  destruct ((Z.of_nat (length (human_users us)) =? 0) && negb (has_user me us)) eqn:Hadd.
  - apply andb_true_iff in Hadd as [Hzero Hnot].
    apply negb_true_iff in Hnot.
    unfold add_reaction, try_except.
    rewrite (on_message_ok _ _ _ m w Hf Hm). fold me.
    pose proof (find_react_some me _ _ Hr Hnot) as Hfind.
    eexists _, _. split; [reflexivity|].
    repeat split; simpl; try reflexivity.
    + unfold human_count, signers. simpl. rewrite Hfind, Hr. simpl.
      rewrite human_users_app. simpl. rewrite Hbot. simpl.
      rewrite app_nil_r. reflexivity.
    + simpl. rewrite Hfind. eauto.
    + unfold placeholder_on, human_count, signers. simpl. rewrite Hfind. simpl.
      rewrite has_user_app, has_user_self, orb_true_r.
      rewrite human_users_app. simpl. rewrite Hbot. simpl. rewrite app_nil_r.
      fold us. rewrite Hzero. reflexivity.
    + unfold signers. simpl. rewrite Hfind. simpl.
      apply Forall_app. split; [exact Hown|]. constructor; [auto | constructor].
  - destruct ((0 <? Z.of_nat (length (human_users us))) && has_user me us) eqn:Hrem.
    + apply andb_true_iff in Hrem as [Hpos Hhas]. apply Z.ltb_lt in Hpos.
      unfold remove_reaction, try_except.
      rewrite (on_message_ok _ _ _ m w Hf Hm). fold me.
      pose proof (human_users_removed me us Hown) as Hsame.
      assert (List.filter (fun v => negb (user_id v =? user_id me)) us <> []) as Hne.
      { intros E. rewrite E in Hsame. simpl in Hsame. rewrite <- Hsame in Hpos.
        simpl in Hpos. lia. }
      pose proof (find_unreact me _ _ Hr Hne) as Hfind. fold us in Hfind.
      eexists _, _. split; [reflexivity|].
      repeat split; simpl; try reflexivity.
      * unfold human_count, signers. simpl. rewrite Hfind, Hr. simpl.
        rewrite Hsame. reflexivity.
      * simpl. rewrite Hfind. eauto.
      * unfold placeholder_on, human_count, signers. simpl. rewrite Hfind. simpl.
        rewrite has_user_removed, Hsame. symmetry. apply Z.eqb_neq. lia.
      * unfold signers. simpl. rewrite Hfind. simpl.
        apply own_account_removed, Hown.
    + exists w, m. split; [reflexivity|].
      split; [apply same_env_refl|]. split; [reflexivity|].
      split; [symmetry; apply insert_id, Hm|].
      split; [reflexivity|]. split; [reflexivity|]. split.
      * split; [rewrite Hr; eauto|].
        unfold placeholder_on. rewrite Hsig, Hcount.
        destruct (Z.of_nat (length (human_users us)) =? 0) eqn:E; simpl in *.
        -- destruct (has_user me us); [reflexivity | discriminate].
        -- apply Z.eqb_neq in E.
           destruct (has_user me us); [|reflexivity].
           rewrite andb_true_r in Hrem. apply Z.ltb_ge in Hrem. lia.
      * rewrite Hsig. exact Hown.
Qed.

Lemma crossing_after p n :
  crossing (if crossing p n then set_threshold_reached (set_signatures n p)
            else set_signatures n p) n = false.
Proof.
  destruct (crossing p n) eqn:E.
  - unfold crossing. simpl. apply andb_false_r.
  - exact E.
Qed.

(** The first run of the reconciliation: afterwards the message is
    consistent, the stored count is the number of human signers, and no
    crossing is left to announce. *)
Lemma reconcile_ok mid m p w :
  faults w = [] -> messages w !! mid = Some m -> petitions_file w !! mid = Some p ->
  user_bot (client_user w) = true ->
  own_account_is_bot (client_user w) (signers m) ->
  exists w' m' q,
    reconcile mid m p w = (inr tt, w') /\
    same_env w w' /\
    messages w' = <[mid := m']> (messages w) /\
    petitions_file w' = <[mid := q]> (petitions_file w) /\
    human_count m' = human_count m /\
    consistent (client_user w) m' /\
    own_account_is_bot (client_user w) (signers m') /\
    signatures q = human_count m /\
    created_at q = created_at p /\
    (crossing q (human_count m) = false \/ m_embeds m' = []).
Proof.
  intros Hf Hm Hp Hbot Hown. unfold reconcile.
  destruct (List.find is_ballpoint (m_reactions m)) as [r|] eqn:Hr.
  - assert (human_count m = Z.of_nat (length (human_users (r_users r)))) as Hcount
      by (unfold human_count, signers; rewrite Hr; reflexivity).
    assert (signers m = r_users r) as Hsig by (unfold signers; rewrite Hr; reflexivity).
    rewrite Hsig in Hown.
    rewrite (bind_run _ _ w (Some (r_users r)) w).
    2: { apply try_run. rewrite (bind_run _ _ _ _ _ (reaction_users_ok r w Hf)).
         reflexivity. }
    destruct (manage_bot_signature_ok mid r m w Hf Hm Hr Hbot Hown)
      as (w1 & m1 & Hrun1 & He1 & Hfile1 & Hmsg1 & Hemb1 & Hc1 & Hcons1 & Hown1).
    rewrite (bind_run _ _ _ _ _ Hrun1).
    set (A := Z.of_nat (length (human_users (r_users r)))) in *.
    set (w2 := set_file (<[mid := set_signatures A p]> (petitions_file w1)) w1).
    assert (update_petition_signatures mid A w1 = (inr tt, w2)) as Hup.
    { assert (petitions_file w1 !! mid = Some p) as Hp1 by (rewrite Hfile1; exact Hp).
      rewrite update_petition_signatures_run, Hp1. reflexivity. }
    rewrite (bind_run _ _ _ _ _ Hup).
    assert (faults w2 = []) as Hf2
      by (change (faults w1 = []); destruct He1 as [E _]; rewrite E; exact Hf).
    assert (messages w2 !! mid = Some m1) as Hm2
      by (simpl; rewrite Hmsg1; apply lookup_insert_eq).
    destruct (publish_count_ok mid m p A m1 (set_signatures A p) w2 Hf2 Hm2
                (lookup_insert_eq _ _ _)) as (w3 & Hrun3 & He3 & Hpost).
    assert (same_env w w3) as He.
    { apply same_env_trans with w1; [exact He1|].
      apply same_env_trans with w2; [repeat split | exact He3]. }
    destruct (m_embeds m) as [|embed rest] eqn:Hemb.
    + subst w3. exists w2, m1, (set_signatures A p).
      split; [exact Hrun3|]. split; [exact He|].
      split; [exact Hmsg1|]. split; [simpl; rewrite Hfile1; reflexivity|].
      split; [congruence|]. split; [exact Hcons1|]. split; [exact Hown1|].
      split; [simpl; congruence|]. split; [reflexivity|]. right. congruence.
    + cbv zeta in Hpost. destruct Hpost as (Hmsg3 & Hfile3 & _).
      eexists w3, _, _. split; [exact Hrun3|]. split; [exact He|].
      split; [rewrite Hmsg3; simpl; rewrite Hmsg1; apply insert_insert_eq|].
      split.
      { rewrite Hfile3. simpl. rewrite Hfile1.
        instantiate (1 := if crossing p A
                          then set_threshold_reached (set_signatures A p)
                          else set_signatures A p).
        destruct (crossing p A); [apply insert_insert_eq | reflexivity]. }
      split; [rewrite human_count_with_embed; exact Hc1|].
      split; [apply consistent_with_embed, Hcons1|].
      split; [rewrite signers_with_embed; exact Hown1|].
      split; [destruct (crossing p A); simpl; congruence|].
      split; [destruct (crossing p A); reflexivity|].
      left. rewrite Hcount. apply crossing_after.
  - assert (human_count m = 0) as Hcount
      by (unfold human_count, signers; rewrite Hr; reflexivity).
    unfold add_reaction.
    rewrite (bind_run _ _ _ _ _ (on_message_ok _ _ _ m w Hf Hm)).
    rewrite update_petition_signatures_run. simpl. rewrite Hp.
    pose proof (find_react_none (client_user w) _ Hr) as Hfind.
    eexists _, _, _. split; [reflexivity|].
    repeat split; simpl; try reflexivity.
    + unfold human_count, signers. simpl. rewrite Hfind, Hr. simpl.
      rewrite Hbot. reflexivity.
    + simpl. rewrite Hfind. eauto.
    + unfold placeholder_on, human_count, signers. simpl. rewrite Hfind. simpl.
      rewrite Hbot. simpl. apply has_user_self.
    + unfold signers. simpl. rewrite Hfind. simpl.
      constructor; [auto | constructor].
    + congruence.
    + left. rewrite Hcount. unfold crossing.
      pose proof (threshold_positive (set_signatures 0 p)) as Hpos.
      destruct (Z.leb_spec (get_petition_threshold (set_signatures 0 p)) 0); [lia|].
      reflexivity.
Qed.

(** A run of the reconciliation on the state a run left: nothing is
    written, no reaction changes, nobody is told; the embed is sent
    again when there is one. *)
Lemma reconcile_again mid m q w :
  faults w = [] -> messages w !! mid = Some m -> petitions_file w !! mid = Some q ->
  consistent (client_user w) m ->
  signatures q = human_count m ->
  crossing q (human_count m) = false \/ m_embeds m = [] ->
  exists w',
    reconcile mid m q w = (inr tt, w') /\
    same_env w w' /\
    petitions_file w' = petitions_file w /\
    match m_embeds m with
    | [] => w' = w
    | embed :: _ =>
        let sent := show_signatures (human_count m) (get_petition_threshold q) embed in
        messages w' = <[mid := with_embed sent m]> (messages w) /\
        trace w' = Edit mid sent :: trace w
    end.
Proof.
  intros Hf Hm Hq Hcons Hsig Hcross. unfold reconcile.
  destruct Hcons as [[r Hr] Hplace].
  assert (human_count m = Z.of_nat (length (human_users (r_users r)))) as Hcount
    by (unfold human_count, signers; rewrite Hr; reflexivity).
  rewrite Hr.
  rewrite (bind_run _ _ w (Some (r_users r)) w).
  2: { apply try_run. rewrite (bind_run _ _ _ _ _ (reaction_users_ok r w Hf)).
       reflexivity. }
  rewrite (bind_run _ _ _ _ _
             (manage_bot_signature_idle mid r m w Hr (conj (ex_intro _ r Hr) Hplace))).
  rewrite <- Hcount.
  assert (update_petition_signatures mid (human_count m) w = (inr tt, w)) as Hup.
  { rewrite update_petition_signatures_run, Hq, <- Hsig, set_signatures_same.
    rewrite insert_id by exact Hq. destruct w; reflexivity. }
  rewrite (bind_run _ _ _ _ _ Hup).
  destruct (publish_count_ok mid m q (human_count m) m q w Hf Hm Hq)
    as (w' & Hrun & He & Hpost).
  exists w'. split; [exact Hrun|]. split; [exact He|].
  destruct (m_embeds m) as [|embed rest].
  - subst w'. split; reflexivity.
  - destruct Hcross as [Hcross|Hcross]; [|discriminate].
    cbv zeta in Hpost. rewrite Hcross in Hpost.
    destruct Hpost as (Hmsg & Hfile & [Htr|[Hbad _]]); [|discriminate].
    split; [exact Hfile|]. split; assumption.
Qed.

(** The handler up to the reconciliation, for a pen event on a live
    petition that is not past its expiry time. *)
Lemma handle_petition_reaction_live mid m p w :
  petitions_channel w = true -> faults w = [] ->
  messages w !! mid = Some m -> petitions_file w !! mid = Some p ->
  (forall T, created_at p = Aware T -> now w <= T + timedelta_days 30) ->
  handle_petition_reaction (pen_event mid) w =
  try_except (reconcile mid m p) (fun _ => ret tt) w.
Proof.
  intros Hch Hf Hm Hp Hage.
  unfold handle_petition_reaction, pen_event. cbn [channel_id emoji message_id].
  rewrite Z.eqb_refl, String.eqb_refl. cbn [negb].
  unfold try_except.
  rewrite (bind_run get_channel _ w true w)
    by (unfold get_channel; rewrite Hch; reflexivity).
  cbn [negb].
  rewrite (bind_run _ _ _ _ _ (fetch_message_ok mid m w Hf Hm)).
  rewrite (bind_run load_petition_data _ w (petitions_file w) w) by reflexivity.
  rewrite Hp.
  rewrite (bind_run _ _ _ _ _ (check_petition_expired_run p w)).
  assert (match created_at p with
          | Aware T => T + timedelta_days PETITION_EXPIRY_DAYS <? now w
          | Naive | Unreadable => false
          end = false) as ->.
  { destruct (created_at p) as [T| |] eqn:E; [|reflexivity|reflexivity].
    apply Z.ltb_ge. apply Hage. reflexivity. }
  reflexivity.
Qed.

(** * The lifecycle properties *)

(** C1, on the failing input: a petition that has reached its threshold and
    is 31 days old; a pen reaction arrives.  The handler tests the age
    before anything else and never looks at [threshold_reached]: the
    petition is marked expired. *)
Theorem reached_petition_expired_by_reaction :
  let w' := exec (handle_petition_reaction (pen_event 5)) late_world in
  threshold_reached <$> petitions_file late_world !! 5 = Some true /\
  expired <$> petitions_file late_world !! 5 = Some false /\
  expired <$> petitions_file w' !! 5 = Some true.
Proof. vm_compute. auto. Qed.

(** The expiry sweep, for its part, does what C1 says: a petition whose
    [threshold_reached] is true keeps its record through the sweep,
    whatever happens to the others. *)
Lemma reached_petition_spared_by_sweep (w : World) (mid : Z) (p : Petition) :
  petitions_file w !! mid = Some p -> threshold_reached p = true ->
  petitions_file (exec check_all_petitions_for_expiry w) !! mid = Some p.
Proof.
  intros Hp Hr. apply expiry_sweep_spares_skipped; [exact Hp|].
  unfold skipped. rewrite Hr. destruct (expired p); reflexivity.
Qed.

(** C2, as worded, fails: a petition titled "Fire the harbour master"
    does not contain "recall" in any casing, yet its threshold is 30. *)
Lemma threshold_recall_only_fails :
  let t := "Fire the harbour master" in
  let d := "He lost the keys." in
  get_petition_threshold (new_petition t d None 1 "alice" 0 77)
  <> (if contains_ci "recall" (t ++ d) then 30 else 25).
Proof. vm_compute. discriminate. Qed.

(** C2, amended: take a petition created with a title [t] and a
    description [d] of ASCII characters, stored under [mid].  Through any
    sequence of reaction events, audits, expiry sweeps, repairs and marker
    calls the petition stays in the document, and the threshold derived
    from its record is 30 exactly when one of the keywords "fire", "sack",
    "recall" occurs in the lower-cased text [t + " " + d], and 25
    otherwise. *)
Theorem threshold_selection (t d : string) (l : option string) (a : Z)
    (an : string) (created thread : Z) (ss : list step) (w : World) (mid : Z) :
  is_ascii t = true -> is_ascii d = true ->
  petitions_file w !! mid = Some (new_petition t d l a an created thread) ->
  let text := lower (t ++ " " ++ d) in
  exists q,
    petitions_file (run_steps ss w) !! mid = Some q /\
    ((get_petition_threshold q = 30 /\
      exists k, In k ["fire"; "sack"; "recall"] /\ Substring k text) \/
     (get_petition_threshold q = 25 /\
      forall k, In k ["fire"; "sack"; "recall"] -> ~ Substring k text)).
Proof.
  intros _ _ Hp text. subst text.
  destruct (grows_run_steps ss w mid _ Hp) as (q & Hq & Hle).
  exists q. split; [exact Hq|].
  rewrite (record_le_threshold _ _ Hle).
  unfold get_petition_threshold. simpl.
  destruct (is_recall_petition t d) eqn:E.
  - left. split; [reflexivity|]. apply is_recall_petition_iff, E.
  - right. split; [reflexivity|]. intros k Hin Hsub.
    assert (is_recall_petition t d = true) as H
      by (apply is_recall_petition_iff; exists k; auto).
    congruence.
Qed.

Lemma threshold_selection_witness :
  let t := "Sack the harbour master" in
  let d := "He lost the keys." in
  let w := set_file {[ 5 := new_petition t d None 1 "alice" 0 77 ]} docks_world in
  exists q,
    petitions_file
      (run_steps [Whole (ReactionEvent (pen_event 5)); Whole SignatureAudit;
                  Whole Repair; Whole ExpirySweep] w) !! 5 = Some q /\
    ((get_petition_threshold q = 30 /\
      exists k, In k ["fire"; "sack"; "recall"] /\
                Substring k (lower (t ++ " " ++ d))) \/
     (get_petition_threshold q = 25 /\
      forall k, In k ["fire"; "sack"; "recall"] ->
                ~ Substring k (lower (t ++ " " ++ d)))).
Proof.
  intros t d w.
  apply (threshold_selection t d None 1 "alice" 0 77 _ w 5); reflexivity.
Defined.

(** The threshold of a petition is fixed at its creation: no operation
    changes [is_recall]. *)
Lemma threshold_never_changes (ss : list step) (w : World) (mid : Z) (p : Petition) :
  petitions_file w !! mid = Some p ->
  exists q, petitions_file (run_steps ss w) !! mid = Some q /\
    get_petition_threshold q = get_petition_threshold p.
Proof.
  intros Hp. destruct (grows_run_steps ss w mid p Hp) as (q & Hq & Hle).
  exists q. split; [exact Hq | apply record_le_threshold, Hle].
Qed.

(** C3, as worded, fails for the reaction handler: run twice in a row on
    the same reactions, its second run edits the embed again. *)
Lemma handler_edits_again :
  let w1 := exec (handle_petition_reaction (pen_event 5)) docks_world in
  let w2 := exec (handle_petition_reaction (pen_event 5)) w1 in
  remote_edits (trace w2) <> remote_edits (trace w1).
Proof. vm_compute. intros H. discriminate H. Qed.

(** C3, amended: run twice in a row with the platform answering and
    nothing else changing, the reconciliation counts the same human
    signers both times.  The second run of the reaction handler writes
    nothing and changes no reaction; when the message, as the first run
    left it, has no embed, the second run does nothing at all, and when it
    has one, the second run sends that embed once more, with the count and
    the threshold it already shows written into it again, and does nothing
    else.  The second run of the signature sweep does nothing to the
    document, the messages or the admin channel: it only sleeps. *)
Theorem reconciliation_twice :
  (forall (w : World) (mid : Z) (p : Petition) (m : Message),
     petitions_channel w = true ->
     faults w = [] ->
     messages w !! mid = Some m ->
     petitions_file w !! mid = Some p ->
     (forall T, created_at p = Aware T -> now w <= T + timedelta_days 30) ->
     user_bot (client_user w) = true ->
     own_account_is_bot (client_user w) (signers m) ->
     let w1 := exec (handle_petition_reaction (pen_event mid)) w in
     let w2 := exec (handle_petition_reaction (pen_event mid)) w1 in
     exists m1 q,
       messages w1 !! mid = Some m1 /\ human_count m1 = human_count m /\
       petitions_file w1 !! mid = Some q /\ signatures q = human_count m /\
       petitions_file w2 = petitions_file w1 /\
       same_reactions w1 w2 /\
       match m_embeds m1 with
       | [] => w2 = w1
       | embed :: _ =>
           let sent :=
             show_signatures (human_count m) (get_petition_threshold q) embed in
           messages w2 = <[mid := with_embed sent m1]> (messages w1) /\
           trace w2 = Edit mid sent :: trace w1
       end) /\
  (forall w : World,
     faults w = [] ->
     let w1 := exec verify_petition_signature_counts w in
     let w2 := exec verify_petition_signature_counts w1 in
     same_reactions w w1 /\ idle w1 w2).
Proof.
  split.
  - intros w mid p m Hch Hf Hm Hp Hage Hbot Hown w1 w2. subst w1 w2.
    destruct (reconcile_ok mid m p w Hf Hm Hp Hbot Hown)
      as (w1 & m1 & q & Hrun & He & Hmsg & Hfile & Hcount & Hcons & _ & Hsig & Hcr & Hx).
    rewrite (exec_of_run _ _ _ _
               (eq_trans (handle_petition_reaction_live mid m p w Hch Hf Hm Hp Hage)
                         (try_run _ _ _ _ _ Hrun))).
    destruct He as (E1 & E2 & E3 & E4 & E5).
    assert (messages w1 !! mid = Some m1) as Hm1
      by (rewrite Hmsg; apply lookup_insert_eq).
    assert (petitions_file w1 !! mid = Some q) as Hq1
      by (rewrite Hfile; apply lookup_insert_eq).
    assert (faults w1 = []) as Hf1 by congruence.
    assert (petitions_channel w1 = true) as Hch1 by congruence.
    assert (forall T, created_at q = Aware T -> now w1 <= T + timedelta_days 30) as Hage1
      by (intros T HT; rewrite E2; apply Hage; congruence).
    rewrite <- E5 in Hcons. rewrite <- Hcount in Hsig, Hx.
    destruct (reconcile_again mid m1 q w1 Hf1 Hm1 Hq1 Hcons Hsig Hx)
      as (w2 & Hrun2 & _ & Hfile2 & Hres).
    rewrite (exec_of_run _ _ _ _
               (eq_trans (handle_petition_reaction_live mid m1 q w1 Hch1 Hf1 Hm1 Hq1 Hage1)
                         (try_run _ _ _ _ _ Hrun2))).
    exists m1, q. split; [exact Hm1|]. split; [exact Hcount|].
    split; [exact Hq1|]. split; [congruence|]. split; [exact Hfile2|].
    rewrite Hcount in Hres.
    destruct (m_embeds m1) as [|embed rest].
    + subst w2. split; reflexivity.
    + cbv zeta in Hres. destruct Hres as [Hmsg2 Htr].
      split; [|split; assumption]. intros i. rewrite Hmsg2.
      destruct (decide (mid = i)) as [<-|Hne].
      * rewrite lookup_insert_eq, Hm1. reflexivity.
      * rewrite lookup_insert_ne by exact Hne. reflexivity.
  - intros w Hf w1 w2. subst w1 w2.
    split; [apply same_reactions_verify_petition_signature_counts|].
    apply verify_twice_idle, Hf.
Qed.

(** The same where the first sweep stops at a creation date without time
    zone: the second stops there too, having done nothing. *)
Example audit_twice_at_naive_date :
  let w1 := exec verify_petition_signature_counts naive_world in
  let w2 := exec verify_petition_signature_counts w1 in
  w1 = naive_world /\ w2 = w1.
Proof. vm_compute. auto. Qed.

Lemma reconciliation_twice_witness :
  (let w1 := exec (handle_petition_reaction (pen_event 5)) docks_world in
   let w2 := exec (handle_petition_reaction (pen_event 5)) w1 in
   exists m1 q,
     messages w1 !! 5 = Some m1 /\ human_count m1 = human_count docks_message /\
     petitions_file w1 !! 5 = Some q /\ signatures q = human_count docks_message /\
     petitions_file w2 = petitions_file w1 /\
     same_reactions w1 w2 /\
     match m_embeds m1 with
     | [] => w2 = w1
     | embed :: _ =>
         let sent :=
           show_signatures (human_count docks_message) (get_petition_threshold q)
             embed in
         messages w2 = <[5 := with_embed sent m1]> (messages w1) /\
         trace w2 = Edit 5 sent :: trace w1
     end) /\
  (let w1 := exec verify_petition_signature_counts docks_world in
   let w2 := exec verify_petition_signature_counts w1 in
   same_reactions docks_world w1 /\ idle w1 w2).
Proof.
  split.
  - apply (proj1 reconciliation_twice docks_world 5 docks docks_message).
    + reflexivity.
    + reflexivity.
    + reflexivity.
    + reflexivity.
    + intros T HT. injection HT as <-. vm_compute. discriminate.
    + reflexivity.
    + repeat constructor; simpl; intros H; try reflexivity; discriminate H.
  - apply (proj2 reconciliation_twice docks_world). reflexivity.
Defined.

(** C4: over any sequence of reaction events, audits, expiry sweeps,
    repairs and marker calls, with the platform changing in between and
    sweeps overlapped by other operations, a petition stays in the
    document and its [threshold_reached] and [expired] flags, once true,
    stay true. *)
Theorem flags_monotonic (ss : list step) (w : World) (mid : Z) (p : Petition) :
  petitions_file w !! mid = Some p ->
  exists q, petitions_file (run_steps ss w) !! mid = Some q /\
    (threshold_reached p = true -> threshold_reached q = true) /\
    (expired p = true -> expired q = true).
Proof.
  intros Hp. destruct (grows_run_steps ss w mid p Hp) as (q & Hq & H1 & H2 & _).
  exists q. auto.
Qed.

Lemma flags_monotonic_witness :
  let p := set_expired reached_docks in
  let w := set_file {[ 5 := p ]} late_world in
  (threshold_reached p = true /\ expired p = true) /\
  exists q,
    petitions_file
      (run_steps [Whole (ReactionEvent (pen_event 5)); Whole (MarkExpired 5);
                  Whole SignatureAudit; Whole Repair; Whole ExpirySweep;
                  AuditRest {[ 5 := docks ]}] w) !! 5 = Some q /\
    (threshold_reached p = true -> threshold_reached q = true) /\
    (expired p = true -> expired q = true).
Proof.
  intros p w. split; [split; reflexivity|].
  apply (flags_monotonic _ w 5 p). reflexivity.
Defined.




(** C6, as worded, fails when a reaction is handled while a signature
    sweep is under way.  The sweep read the document (24 stored, flag
    false) and is sleeping; the 25th signature is handled, which notifies
    and sets the flag; the sweep then reaches the petition with the record
    it read at its start and notifies again. *)
Lemma second_announcement_by_running_sweep :
  let read := petitions_file crowded_world in
  let w1 := run_step (Whole (ReactionEvent (pen_event 5))) crowded_world in
  let w2 := run_step (AuditRest read) w1 in
  announcements 5 (trace crowded_world) = [] /\
  announcements 5 (trace w1) = [25] /\
  reached 5 w1 = true /\
  announcements 5 (trace w2) = [25; 25].
Proof. vm_compute. auto. Qed.

(** C6, amended: over any sequence of reaction events, audits, sweeps,
    repairs and marker calls that each run from start to end, with the
    platform changing in between, the admin channel is told about a
    petition at most once; when it is, the stored [threshold_reached] was
    false before and is true after, and the count shown meets the
    petition's threshold.  So a petition whose flag is already true is
    never announced again. *)
Theorem notified_at_most_once (os : list op) (w : World) (mid : Z) :
  let w' := run_ops os w in
  announcements mid (trace w') = announcements mid (trace w) \/
  exists n q,
    announcements mid (trace w') = n :: announcements mid (trace w) /\
    reached mid w = false /\
    petitions_file w' !! mid = Some q /\
    threshold_reached q = true /\
    get_petition_threshold q <= n.
Proof. apply (evolves_run_ops os w). Qed.

(** C7: for a petition created at [T], [check_petition_expired] answers
    false at every instant up to and including [T] + 30 days and true at
    every later instant; it does not look at [threshold_reached]. *)
Theorem expiry_boundary (p : Petition) (T : Z) (w : World) :
  created_at p = Aware T ->
  exec (check_petition_expired p) w = w /\
  (now w <= T + timedelta_days 30 -> outcome (check_petition_expired p) w = inr false) /\
  (T + timedelta_days 30 < now w -> outcome (check_petition_expired p) w = inr true).
Proof.
  intros HT. unfold check_petition_expired, exec, outcome, try_except, bind, utcnow, ret.
  rewrite HT. simpl. unfold PETITION_EXPIRY_DAYS.
  split; [reflexivity|]. split; intros H; f_equal.
  - apply Z.ltb_ge. exact H.
  - apply Z.ltb_lt. exact H.
Qed.

(** One second before and one second after the 30 days. *)
Lemma expiry_boundary_witness :
  let at_ t := mkWorld ∅ ∅ true true the_bot t [] [] in
  outcome (check_petition_expired docks) (at_ (timedelta_days 30 - seconds 1)) = inr false /\
  outcome (check_petition_expired docks) (at_ (timedelta_days 30 + seconds 1)) = inr true.
Proof.
  intros at_. split.
  - apply (expiry_boundary docks 0 (at_ (timedelta_days 30 - seconds 1)) eq_refl).
    vm_compute. discriminate.
  - apply (expiry_boundary docks 0 (at_ (timedelta_days 30 + seconds 1)) eq_refl).
    vm_compute. reflexivity.
Defined.

(** C8, as worded, fails for a petition past its expiry time: the handler
    returns before the reconciliation, so a message without human signers
    is left without the placeholder and the stored count stays what it
    was. *)
Lemma placeholder_missing_after_expiry :
  let w' := exec (handle_petition_reaction (pen_event 5)) stale_world in
  exists m' q,
    messages w' !! 5 = Some m' /\ petitions_file w' !! 5 = Some q /\
    human_count m' = 0 /\
    placeholder_on (client_user w') m' = false /\
    signatures q <> human_count m'.
Proof.
  eexists _, _. split; [vm_compute; reflexivity|].
  split; [vm_compute; reflexivity|].
  split; [reflexivity|]. split; [reflexivity|]. vm_compute. discriminate.
Qed.

(** C8, amended: after the handler has run for a pen event on the anchor
    message of a petition that is not past its expiry time, the platform
    answering and the client being a bot account: the placeholder is on
    the message when no human has signed and off it when at least one has,
    and the stored count is the number of human signers, the placeholder
    not among them. *)
Theorem handler_keeps_placeholder (w : World) (mid : Z) (p : Petition) (m : Message) :
  petitions_channel w = true ->
  faults w = [] ->
  messages w !! mid = Some m ->
  petitions_file w !! mid = Some p ->
  (forall T, created_at p = Aware T -> now w <= T + timedelta_days 30) ->
  user_bot (client_user w) = true ->
  own_account_is_bot (client_user w) (signers m) ->
  let w' := exec (handle_petition_reaction (pen_event mid)) w in
  exists m' q,
    messages w' !! mid = Some m' /\
    petitions_file w' !! mid = Some q /\
    human_count m' = human_count m /\
    signatures q = human_count m' /\
    (human_count m' = 0 -> placeholder_on (client_user w) m' = true) /\
    (1 <= human_count m' -> placeholder_on (client_user w) m' = false).
Proof.
  intros Hch Hf Hm Hp Hage Hbot Hown w'. subst w'.
  destruct (reconcile_ok mid m p w Hf Hm Hp Hbot Hown)
    as (w' & m' & q & Hrun & _ & Hmsg & Hfile & Hcount & [_ Hplace] & _ & Hsig & _).
  rewrite (exec_of_run _ _ _ _
             (eq_trans (handle_petition_reaction_live mid m p w Hch Hf Hm Hp Hage)
                       (try_run _ _ _ _ _ Hrun))).
  exists m', q. rewrite Hmsg, Hfile, !lookup_insert_eq.
  split; [reflexivity|]. split; [reflexivity|]. split; [exact Hcount|].
  split; [congruence|]. rewrite Hplace. split.
  - intros ->. reflexivity.
  - intros H. apply Z.eqb_neq. lia.
Qed.

Lemma handler_keeps_placeholder_witness :
  exists m' q,
    messages (exec (handle_petition_reaction (pen_event 5)) docks_world) !! 5 = Some m' /\
    petitions_file (exec (handle_petition_reaction (pen_event 5)) docks_world) !! 5 = Some q /\
    human_count m' = human_count docks_message /\
    signatures q = human_count m' /\
    (human_count m' = 0 -> placeholder_on the_bot m' = true) /\
    (1 <= human_count m' -> placeholder_on the_bot m' = false).
Proof.
  apply (handler_keeps_placeholder docks_world 5 docks docks_message).
  - reflexivity.
  - reflexivity.
  - reflexivity.
  - reflexivity.
  - intros T HT. injection HT as <-. vm_compute. discriminate.
  - reflexivity.
  - repeat constructor; simpl; intros H; try reflexivity; discriminate H.
Defined.



(** An outage in the middle of a sweep: the request for the first
    petition fails with status 500, its count stays stale, and the second
    petition is corrected all the same. *)
Example audit_continues_after_outage :
  let w' := exec verify_petition_signature_counts outage_world in
  (map_to_list (petitions_file outage_world)).*1 = [5; 6] /\
  signatures <$> petitions_file w' !! 5 = Some 0 /\
  signatures <$> petitions_file w' !! 6 = Some 2.
Proof. vm_compute. auto. Qed.

(** C10: for a message id that is not in the document the three marker
    functions return [False] and [update_petition_signatures] returns, all
    leaving the world as it was; for an id that is in the document the
    marker functions return [True]. *)
Theorem markers_on_absent_and_present (mid n : Z) (reason : string) (w : World) :
  (petitions_file w !! mid = None ->
     mark_threshold_reached mid w = (inr false, w) /\
     mark_petition_expired mid w = (inr false, w) /\
     mark_petition_invalid mid reason w = (inr false, w) /\
     update_petition_signatures mid n w = (inr tt, w)) /\
  (is_Some (petitions_file w !! mid) ->
     outcome (mark_threshold_reached mid) w = inr true /\
     outcome (mark_petition_expired mid) w = inr true /\
     outcome (mark_petition_invalid mid reason) w = inr true).
Proof.
  unfold outcome.
  rewrite mark_threshold_reached_run, mark_petition_expired_run,
    mark_petition_invalid_run, update_petition_signatures_run.
  split.
  - intros ->. auto.
  - intros [p ->]. auto.
Qed.

Lemma markers_on_absent_and_present_witness :
  (mark_threshold_reached 6 docks_world = (inr false, docks_world) /\
   mark_petition_expired 6 docks_world = (inr false, docks_world) /\
   mark_petition_invalid 6 "gone" docks_world = (inr false, docks_world) /\
   update_petition_signatures 6 3 docks_world = (inr tt, docks_world)) /\
  (outcome (mark_threshold_reached 5) docks_world = inr true /\
   outcome (mark_petition_expired 5) docks_world = inr true /\
   outcome (mark_petition_invalid 5 "gone") docks_world = inr true).
Proof.
  split.
  - apply (markers_on_absent_and_present 6 3 "gone" docks_world). reflexivity.
  - apply (markers_on_absent_and_present 5 3 "gone" docks_world).
    exists docks. reflexivity.
Defined.

(** * Further properties of the petition module *)

(** ** Calm runs *)

#[global] Instance calm_preorder : PreOrder calm.
Proof.
  split.
  - intros w. repeat split; auto.
  - intros a b c (A1 & A2 & A3 & A4 & A5 & A6) (B1 & B2 & B3 & B4 & B5 & B6).
    repeat split; try congruence; [auto|].
    intros Hs mid. rewrite B6 by congruence. apply A6, Hs.
Qed.

Lemma calm_same_trace w w' :
  (faults w = [] -> faults w' = []) -> now w' = now w ->
  petitions_channel w' = petitions_channel w ->
  submission_channel w' = submission_channel w ->
  client_user w' = client_user w -> trace w' = trace w -> calm w w'.
Proof. intros H1 H2 H3 H4 H5 H6. repeat split; auto. intros _ mid. rewrite H6. reflexivity. Qed.

Lemma calm_remote_call : respects calm remote_call.
Proof.
  intros w. unfold exec, remote_call.
  destruct (faults w) as [|[e|] fs] eqn:E; apply calm_same_trace; simpl; auto;
    intros H; congruence.
Qed.

Lemma calm_emit c : (forall mid n, c <> AdminSend mid n) -> respects calm (emit c).
Proof.
  intros Hc w. repeat split; auto. intros _ mid. simpl.
  destruct c; try reflexivity. exfalso. eapply Hc. reflexivity.
Qed.

Lemma calm_sleep d : respects calm (sleep d).
Proof. apply calm_emit. discriminate. Qed.

Lemma calm_on_message mid f c :
  (forall i n, c <> AdminSend i n) -> respects calm (on_message mid f c).
Proof.
  intros Hc. unfold on_message.
  apply respects_bind; [apply _ | apply calm_remote_call|].
  intros _ w. unfold exec. destruct (messages w !! mid); [|reflexivity].
  repeat split; auto. intros _ i. simpl.
  destruct c; try reflexivity. exfalso. eapply Hc. reflexivity.
Qed.

Lemma calm_fetch_message mid : respects calm (fetch_message mid).
Proof.
  unfold fetch_message.
  apply respects_bind; [apply _ | apply calm_remote_call|].
  intros _ w. unfold exec. destruct (messages w !! mid); reflexivity.
Qed.

Lemma calm_add_reaction mid : respects calm (add_reaction mid).
Proof. apply calm_on_message. discriminate. Qed.

Lemma calm_remove_reaction mid : respects calm (remove_reaction mid).
Proof. apply calm_on_message. discriminate. Qed.

Lemma calm_edit mid e : respects calm (edit mid e).
Proof. apply calm_on_message. discriminate. Qed.

Lemma calm_create_thread mid name : respects calm (create_thread mid name).
Proof. apply calm_on_message. discriminate. Qed.

Lemma calm_mark_threshold_reached mid : respects calm (mark_threshold_reached mid).
Proof.
  intros w. unfold exec. rewrite mark_threshold_reached_run.
  destruct (petitions_file w !! mid); apply calm_same_trace; auto.
Qed.

Lemma calm_mark_petition_expired mid : respects calm (mark_petition_expired mid).
Proof.
  intros w. unfold exec. rewrite mark_petition_expired_run.
  destruct (petitions_file w !! mid); apply calm_same_trace; auto.
Qed.

Lemma calm_mark_petition_invalid mid reason : respects calm (mark_petition_invalid mid reason).
Proof.
  intros w. unfold exec. rewrite mark_petition_invalid_run.
  destruct (petitions_file w !! mid); apply calm_same_trace; auto.
Qed.

Lemma calm_update_petition_signatures mid n :
  respects calm (update_petition_signatures mid n).
Proof.
  intros w. unfold exec. rewrite update_petition_signatures_run.
  destruct (petitions_file w !! mid); apply calm_same_trace; auto.
Qed.

(** The notification is the one place where somebody is told, and it
    tells nobody when the admin channel is not found. *)
Lemma calm_notify_threshold_reached p mid : respects calm (notify_threshold_reached p mid).
Proof.
  intros w.
  unfold notify_threshold_reached, exec, try_except, bind, get_world, remote_call,
    emit, ret, raise.
  destruct (submission_channel w) eqn:Hs; simpl; [|reflexivity].
  destruct (created_at p); simpl; [| |reflexivity];
    destruct (faults w) as [|[e|] fs] eqn:E; simpl;
    repeat split; simpl; auto; intros H; congruence.
Qed.

#[export] Hint Resolve calm_remote_call calm_sleep calm_fetch_message
  calm_add_reaction calm_remove_reaction calm_edit calm_create_thread
  calm_mark_threshold_reached calm_mark_petition_expired
  calm_mark_petition_invalid calm_update_petition_signatures
  calm_notify_threshold_reached : respects.

Lemma calm_thread_send mid : respects calm (thread_send mid).
Proof.
  unfold thread_send. respects_step; [apply calm_remote_call|].
  apply calm_emit. discriminate.
Qed.

#[export] Hint Resolve calm_thread_send : respects.

Lemma calm_handle_petition_reaction payload :
  respects calm (handle_petition_reaction payload).
Proof.
  unfold handle_petition_reaction, reconcile, check_petition_expired,
    update_expired_embed, manage_bot_signature, publish_count, reaction_users.
  respects_tac.
Qed.

Lemma calm_verify_petition_signature_counts :
  respects calm verify_petition_signature_counts.
Proof.
  unfold verify_petition_signature_counts, verify_loop, verify_one, sweep_handler,
    older_than_expiry, count_signatures, reaction_users, publish_count.
  respects_tac.
Qed.

Lemma calm_check_all_petitions_for_expiry :
  respects calm check_all_petitions_for_expiry.
Proof.
  unfold check_all_petitions_for_expiry, expiry_loop, expire_one, sweep_handler,
    check_petition_expired, update_expired_embed.
  respects_tac.
Qed.

Lemma calm_repair_petition_system : respects calm repair_petition_system.
Proof.
  unfold repair_petition_system, repair_loop, repair_one, sweep_handler,
    older_than_expiry, count_signatures, reaction_users, first_embed.
  respects_tac.
Qed.

(** ** What the handler ignores, and what escapes nobody *)

(** X1: an event from another channel, with another emoji, or on a message
    that is no petition changes neither the document nor any message and
    leaves no trace, whatever the platform does. *)
Theorem handler_ignores_other_events (payload : Payload) (w : World) :
  channel_id payload <> PETITIONS_CHANNEL_ID \/
  emoji payload <> BALLPOINT_EMOJI \/
  petitions_file w !! message_id payload = None ->
  let w' := exec (handle_petition_reaction payload) w in
  petitions_file w' = petitions_file w /\
  messages w' = messages w /\
  trace w' = trace w.
Proof.
  intros H. unfold handle_petition_reaction.
  destruct (Z.eqb_spec (channel_id payload) PETITIONS_CHANNEL_ID) as [Hc|Hc];
    [|repeat split].
  destruct (String.eqb_spec (emoji payload) BALLPOINT_EMOJI) as [He|He];
    [|repeat split].
  destruct H as [H|[H|H]]; [contradiction | contradiction |].
  cbn [negb]. cbv zeta. rewrite exec_try_ret.
  unfold exec, get_channel, fetch_message, remote_call, load_petition_data, bind.
  destruct (petitions_channel w); [|repeat split]. cbn [negb].
  destruct (faults w) as [|[e|] fs]; cbn [fst snd]; try (repeat split; fail).
  - destruct (messages w !! message_id payload); [|repeat split].
    rewrite H. repeat split.
  - cbn [messages set_faults].
    destruct (messages w !! message_id payload); [|repeat split].
    cbn [petitions_file set_faults]. rewrite H. repeat split.
Qed.

Lemma handler_ignores_other_events_witness :
  let w' := exec (handle_petition_reaction (pen_event 6)) docks_world in
  petitions_file w' = petitions_file docks_world /\
  messages w' = messages docks_world /\
  trace w' = trace docks_world.
Proof.
  apply (handler_ignores_other_events (pen_event 6) docks_world).
  right. right. reflexivity.
Defined.

Lemma never_raises_remote_handlers :
  (forall payload, never_raises (handle_petition_reaction payload)) /\
  never_raises repair_petition_system /\
  never_raises verify_petition_signature_counts /\
  never_raises check_all_petitions_for_expiry /\
  (forall p mid, never_raises (notify_threshold_reached p mid)) /\
  (forall mid m p, never_raises (update_expired_embed mid m p)).
Proof.
  repeat split; intros.
  - unfold handle_petition_reaction. returns_tac.
  - unfold repair_petition_system. returns_tac.
  - unfold verify_petition_signature_counts. returns_tac.
  - unfold check_all_petitions_for_expiry. returns_tac.
  - unfold notify_threshold_reached. returns_tac.
  - unfold update_expired_embed. returns_tac.
Qed.

(** X2: no exception of the platform escapes the reaction handler, the
    repair pass, the notification, the rewriting of an expired embed or
    the start-up sequence: each returns for every schedule of failures. *)
Theorem entry_points_never_raise (w : World) :
  (forall payload, outcome (handle_petition_reaction payload) w = inr tt) /\
  outcome repair_petition_system w = inr tt /\
  (forall p mid, outcome (notify_threshold_reached p mid) w = inr tt) /\
  (forall mid m p, outcome (update_expired_embed mid m p) w = inr tt) /\
  outcome staggered_petition_startup w = inr tt.
Proof.
  destruct never_raises_remote_handlers as (H1 & H2 & H3 & H4 & H5 & H6).
  repeat split; intros; apply never_raises_unit; auto.
  unfold staggered_petition_startup. returns_tac.
Qed.

(** ** What the sweeps pass over *)

(** A loop leaves a petition and its message alone when the turn for that
    petition does nothing and the other turns mind their own petition. *)
Lemma for_each_spares (body : Z * Petition -> M unit) keep p
    (read : gmap Z Petition) w :
  (forall item, never_raises (body item)) ->
  (forall i r, i <> keep -> respects (leaves keep) (body (i, r))) ->
  (forall v, now v = now w -> exec (body (keep, p)) v = v) ->
  read !! keep = Some p ->
  leaves keep w (exec (for_each (map_to_list read) body) w).
Proof.
  intros Hret Hother Hown Hp.
  destruct (map_to_list_split _ _ _ Hp) as (l1 & l2 & -> & H1 & H2).
  rewrite exec_for_each_split by exact Hret.
  assert (forall l v, (forall i r, (i, r) ∈ l -> i <> keep) ->
            leaves keep v (exec (for_each l body) v)) as Hloop.
  { intros l v Hl. apply respects_for_each_in; [apply _|].
    intros [i r] Hin. apply Hother, (Hl i r), list_elem_of_In, Hin. }
  pose proof (Hloop l1 w H1) as L1.
  rewrite Hown by (destruct L1 as (_ & _ & _ & E & _); exact E).
  transitivity (exec (for_each l1 body) w); [exact L1 | apply Hloop, H2].
Qed.

(** The same for a loop that may stop early, when the turn for the
    petition does nothing in any world. *)
Lemma for_each_passes (body : Z * Petition -> M unit) keep p
    (read : gmap Z Petition) w :
  (forall i r, i <> keep -> respects (leaves keep) (body (i, r))) ->
  (forall v, exec (body (keep, p)) v = v) ->
  read !! keep = Some p ->
  leaves keep w (exec (for_each (map_to_list read) body) w).
Proof.
  intros Hother Hown Hp. apply respects_for_each_in; [apply _|].
  intros [i r] Hin. destruct (decide (i = keep)) as [->|Hne].
  - apply list_elem_of_In, elem_of_map_to_list in Hin.
    rewrite Hp in Hin. injection Hin as <-.
    intros v. rewrite Hown. reflexivity.
  - apply Hother, Hne.
Qed.

Lemma verify_one_skipped mid p v : skipped p = true -> exec (verify_one (mid, p)) v = v.
Proof. intros H. apply (exec_of_run _ _ _ _ (verify_one_skips mid p v (or_introl H))). Qed.

(** X3: closed petitions are left alone.  A petition that is expired,
    completed or invalid is passed over by the signature sweep and by the
    expiry sweep, and an invalid petition by the repair pass as well: its
    record and its anchor message are the same after a whole pass,
    whatever the platform does and whatever happens to the other
    petitions. *)
Theorem closed_petitions_left_alone (w : World) (mid : Z) (p : Petition) :
  petitions_file w !! mid = Some p ->
  (expired p = true \/ threshold_reached p = true \/ invalid p = true ->
   leaves mid w (exec verify_petition_signature_counts w) /\
   leaves mid w (exec check_all_petitions_for_expiry w)) /\
  (invalid p = true -> leaves mid w (exec repair_petition_system w)).
Proof.
  intros Hp. split.
  - intros Hclosed.
    assert (skipped p = true) as Hskip.
    { unfold skipped. destruct Hclosed as [-> | [-> | ->]];
        rewrite ?orb_true_r; reflexivity. }
    split.
    + rewrite verify_petition_signature_counts_run.
      destruct (petitions_channel w); [|reflexivity].
      apply (for_each_passes verify_one mid p); auto.
      * intros i r Hne. apply leaves_verify_one, Hne.
      * intros v. apply verify_one_skipped, Hskip.
    + rewrite check_all_petitions_for_expiry_run.
      destruct (petitions_channel w); [|reflexivity].
      apply (for_each_spares expire_one mid p); auto.
      * apply never_raises_expire_one.
      * intros i r Hne. apply leaves_expire_one, Hne.
      * intros v _. unfold exec, expire_one. rewrite Hskip. reflexivity.
  - intros Hinv. unfold repair_petition_system. rewrite exec_try_ret.
    unfold exec at 1, bind, get_channel, load_petition_data.
    destruct (petitions_channel w); [|reflexivity]. cbn [negb].
    apply (for_each_passes repair_one mid p); auto.
    + intros i r Hne. apply leaves_repair_one, Hne.
    + intros v. unfold exec, repair_one. rewrite Hinv. reflexivity.
Qed.

Lemma closed_petitions_left_alone_witness :
  leaves 5 scrapped_world (exec verify_petition_signature_counts scrapped_world) /\
  leaves 5 scrapped_world (exec check_all_petitions_for_expiry scrapped_world) /\
  leaves 5 scrapped_world (exec repair_petition_system scrapped_world).
Proof.
  destruct (closed_petitions_left_alone scrapped_world 5 scrapped_docks) as [H1 H2];
    [reflexivity|].
  destruct H1 as [H1 H1']; [right; right; reflexivity|].
  split; [exact H1|]. split; [exact H1'|]. apply H2. reflexivity.
Defined.

(** ** The expiry sweep, petition by petition *)

(** What a loop does to one petition is what its turn for that petition
    does, when the other turns mind their own petition. *)
Lemma for_each_focus (body : Z * Petition -> M unit) keep p
    (read : gmap Z Petition) w (Q : option Petition -> option Message -> Prop) :
  (forall item, In item (map_to_list read) -> never_raises (body item)) ->
  (forall i r, i <> keep -> respects (leaves keep) (body (i, r))) ->
  read !! keep = Some p ->
  (forall v, leaves keep w v ->
     let v' := exec (body (keep, p)) v in
     Q (petitions_file v' !! keep) (messages v' !! keep)) ->
  let w' := exec (for_each (map_to_list read) body) w in
  Q (petitions_file w' !! keep) (messages w' !! keep).
Proof.
  intros Hret Hother Hp Hown w'. subst w'.
  destruct (map_to_list_split _ _ _ Hp) as (l1 & l2 & Hsplit & H1 & H2).
  rewrite Hsplit in Hret |- *.
  rewrite exec_for_each_split_in.
  2: { intros y Hy. apply Hret, in_or_app. left. exact Hy. }
  2: { apply Hret, in_or_app. right. left. reflexivity. }
  assert (forall l v, (forall i r, (i, r) ∈ l -> i <> keep) ->
            leaves keep v (exec (for_each l body) v)) as Hloop.
  { intros l v Hl. apply respects_for_each_in; [apply _|].
    intros [i r] Hin. apply Hother, (Hl i r), list_elem_of_In, Hin. }
  pose proof (Hloop l1 w H1) as L1.
  destruct (Hloop l2 (exec (body (keep, p)) (exec (for_each l1 body) w)) H2)
    as (-> & -> & _).
  apply Hown, L1.
Qed.

Lemma expire_one_past mid p m T v :
  faults v = [] -> petitions_file v !! mid = Some p -> messages v !! mid = Some m ->
  skipped p = false -> created_at p = Aware T ->
  T + timedelta_days PETITION_EXPIRY_DAYS < now v ->
  let v' := exec (expire_one (mid, p)) v in
  petitions_file v' !! mid = Some (set_expired p) /\
  messages v' !! mid =
    Some match m_embeds m with
         | [] => m
         | embed :: _ => with_embed (expired_embed p embed) m
         end.
Proof.
  intros Hf Hp Hm Hskip HT Hlate v'. subst v'.
  unfold expire_one. rewrite Hskip.
  unfold exec. rewrite (bind_run _ _ _ _ _ (check_petition_expired_run p v)), HT.
  replace (T + timedelta_days PETITION_EXPIRY_DAYS <? now v) with true
    by (symmetry; apply Z.ltb_lt, Hlate).
  set (v0 := set_trace (Sleep half_second :: trace v) v).
  assert (faults v0 = []) as Hf0 by exact Hf.
  assert (messages v0 !! mid = Some m) as Hm0 by exact Hm.
  set (v1 := set_file (<[mid := set_expired p]> (petitions_file v0)) v0).
  assert (mark_petition_expired mid v0 = (inr true, v1)) as Hmark.
  { rewrite mark_petition_expired_run. unfold v0 at 1. cbn [petitions_file set_trace].
    rewrite Hp. reflexivity. }
  assert (faults v1 = []) as Hf1 by exact Hf.
  assert (messages v1 !! mid = Some m) as Hm1 by exact Hm.
  assert (petitions_file v1 !! mid = Some (set_expired p)) as Hp1
    by apply lookup_insert_eq.
  destruct (m_embeds m) as [|embed rest] eqn:Hemb.
  - erewrite try_run.
    2:{ rewrite (bind_run (sleep half_second) _ v tt v0) by reflexivity.
        rewrite (bind_run _ _ _ _ _ (fetch_message_ok mid m v0 Hf0 Hm0)).
        rewrite (bind_run _ _ _ _ _ Hmark).
        unfold update_expired_embed. rewrite Hemb. reflexivity. }
    auto.
  - erewrite try_run.
    2:{ rewrite (bind_run (sleep half_second) _ v tt v0) by reflexivity.
        rewrite (bind_run _ _ _ _ _ (fetch_message_ok mid m v0 Hf0 Hm0)).
        rewrite (bind_run _ _ _ _ _ Hmark).
        unfold update_expired_embed. rewrite Hemb.
        apply try_run. unfold edit. apply (on_message_ok _ _ _ m); assumption. }
    cbn [snd petitions_file messages set_trace set_messages].
    rewrite lookup_insert_eq. auto.
Qed.

Lemma expiry_pass_at (w : World) (mid : Z) (p : Petition) (m : Message)
    (T : Z) :
  petitions_channel w = true ->
  faults w = [] ->
  petitions_file w !! mid = Some p ->
  skipped p = false ->
  created_at p = Aware T ->
  T + timedelta_days PETITION_EXPIRY_DAYS < now w ->
  messages w !! mid = Some m ->
  let w' := exec check_all_petitions_for_expiry w in
  petitions_file w' !! mid = Some (set_expired p) /\
  messages w' !! mid =
    Some match m_embeds m with
         | [] => m
         | embed :: _ => with_embed (expired_embed p embed) m
         end.
Proof.
  intros Hch Hf Hp Hskip HT Hlate Hm w'. subst w'.
  rewrite check_all_petitions_for_expiry_run, Hch. unfold expiry_loop.
  apply (for_each_focus expire_one mid p (petitions_file w) w
           (fun r l => r = Some (set_expired p) /\ l = Some _)); auto.
  - intros item _. apply never_raises_expire_one.
  - intros i r Hne. apply leaves_expire_one, Hne.
  - intros v (L1 & L2 & L3 & L4 & _).
    apply (expire_one_past mid p m T v); auto; congruence.
Qed.

(** X4: one pass of the expiry sweep over the whole document, with the
    platform answering, closes every open petition that is past its
    expiry time and whose anchor message is live: the record gets
    [expired], and the embed is rewritten as expired, showing the stored
    count. *)
Theorem expiry_sweep_expires (w : World) (mid : Z) (p : Petition) (m : Message)
    (T : Z) :
  petitions_channel w = true ->
  faults w = [] ->
  petitions_file w !! mid = Some p ->
  skipped p = false ->
  created_at p = Aware T ->
  T + timedelta_days PETITION_EXPIRY_DAYS < now w ->
  messages w !! mid = Some m ->
  let w' := exec check_all_petitions_for_expiry w in
  petitions_file w' !! mid = Some (set_expired p) /\
  messages w' !! mid =
    Some match m_embeds m with
         | [] => m
         | embed :: _ => with_embed (expired_embed p embed) m
         end.
Proof. apply expiry_pass_at. Qed.

Lemma expiry_sweep_expires_witness :
  let w' := exec check_all_petitions_for_expiry overdue_world in
  petitions_file w' !! 5 = Some (set_expired (set_signatures 2 docks)) /\
  messages w' !! 5 =
    Some (with_embed (expired_embed (set_signatures 2 docks) docks_embed)
            docks_message).
Proof.
  apply (expiry_sweep_expires overdue_world 5 (set_signatures 2 docks)
           docks_message 0); try reflexivity.
Defined.







(** ** The repair pass decides nothing *)

#[global] Instance keeps_flags_preorder : PreOrder keeps_flags.
Proof.
  split.
  - intros w. split; [|reflexivity]. intros mid p Hp. exists p. auto.
  - intros a b c [A1 A2] [B1 B2]. split.
    + intros mid p Hp. destruct (A1 mid p Hp) as (q & Hq & E1 & E2).
      destruct (B1 mid q Hq) as (r & Hr & F1 & F2).
      exists r. repeat split; [exact Hr | congruence | congruence].
    + intros mid. rewrite B2. apply A2.
Qed.

Lemma keeps_flags_quiet {A} (m : M A) : respects same_doc m -> respects keeps_flags m.
Proof.
  apply respects_sub. intros w w' [Hfile Hann]. split; [|exact Hann].
  intros mid p Hp. exists p. rewrite Hfile. auto.
Qed.

#[export] Hint Extern 3 (respects keeps_flags _) => apply keeps_flags_quiet : respects.

Lemma keeps_flags_write w mid p q :
  petitions_file w !! mid = Some p ->
  threshold_reached q = threshold_reached p -> expired q = expired p ->
  keeps_flags w (set_file (<[mid := q]> (petitions_file w)) w).
Proof.
  intros Hp H1 H2. split; [|reflexivity]. intros i r Hr. simpl.
  destruct (decide (mid = i)) as [<-|Hne].
  - rewrite lookup_insert_eq. exists q. split; [reflexivity|]. split; congruence.
  - rewrite lookup_insert_ne by exact Hne. exists r. auto.
Qed.

Lemma keeps_flags_update_petition_signatures mid n :
  respects keeps_flags (update_petition_signatures mid n).
Proof.
  intros w. unfold exec. rewrite update_petition_signatures_run.
  destruct (petitions_file w !! mid) as [p|] eqn:Hp; [|reflexivity].
  eapply keeps_flags_write; [exact Hp | reflexivity | reflexivity].
Qed.

Lemma keeps_flags_mark_petition_invalid mid reason :
  respects keeps_flags (mark_petition_invalid mid reason).
Proof.
  intros w. unfold exec. rewrite mark_petition_invalid_run.
  destruct (petitions_file w !! mid) as [p|] eqn:Hp; [|reflexivity].
  eapply keeps_flags_write; [exact Hp | reflexivity | reflexivity].
Qed.

#[export] Hint Resolve keeps_flags_update_petition_signatures
  keeps_flags_mark_petition_invalid : respects.

Lemma keeps_flags_sweep_handler mid s e : respects keeps_flags (sweep_handler mid s e).
Proof. unfold sweep_handler. respects_tac. Qed.

#[export] Hint Resolve keeps_flags_sweep_handler : respects.

Lemma keeps_flags_repair_petition_system : respects keeps_flags repair_petition_system.
Proof. unfold repair_petition_system, repair_loop, repair_one. respects_tac. Qed.

(** X7: the repair pass decides nothing.  Whatever it finds and whatever
    the platform does, every petition is still in the document afterwards
    with the [threshold_reached] and [expired] flags it had, and nothing
    was sent to the admin channel: a petition with enough signatures is
    shown in green by the repair, but reaching the threshold is recorded
    and announced only by the handler and the signature sweep. *)
Theorem repair_decides_nothing (w : World) :
  let w' := exec repair_petition_system w in
  (forall mid p, petitions_file w !! mid = Some p ->
     exists q, petitions_file w' !! mid = Some q /\
       threshold_reached q = threshold_reached p /\ expired q = expired p) /\
  (forall mid, announcements mid (trace w') = announcements mid (trace w)).
Proof. apply keeps_flags_repair_petition_system. Qed.

(** ** Runs that return *)

Lemma yields_ret {A} (P : World -> Prop) (a : A) :
  yields P (ret a) (fun b w => b = a /\ P w).
Proof. intros w Hw. exists a, w. auto. Qed.

Lemma yields_bind {A B} (P : World -> Prop) (m : M A) (Q : A -> World -> Prop)
    (f : A -> M B) (R : B -> World -> Prop) :
  yields P m Q -> (forall a, yields (Q a) (f a) R) -> yields P (bind m f) R.
Proof.
  intros Hm Hf w Hw. destruct (Hm w Hw) as (a & w1 & E & Hq).
  destruct (Hf a w1 Hq) as (b & w2 & E2 & Hr).
  exists b, w2. split; [|exact Hr]. rewrite (bind_run _ _ _ _ _ E). exact E2.
Qed.

Lemma yields_try {A} (P : World -> Prop) (m : M A) (h : exn -> M A)
    (Q : A -> World -> Prop) :
  yields P m Q -> yields P (try_except m h) Q.
Proof.
  intros Hm w Hw. destruct (Hm w Hw) as (a & w1 & E & Hq).
  exists a, w1. split; [apply try_run, E | exact Hq].
Qed.

Lemma yields_post {A} (P : World -> Prop) (m : M A) (Q Q' : A -> World -> Prop) :
  yields P m Q -> (forall a w, Q a w -> Q' a w) -> yields P m Q'.
Proof.
  intros Hm Hq w Hw. destruct (Hm w Hw) as (a & w1 & E & H).
  exists a, w1. auto.
Qed.

Lemma yields_pre {A} (P P' : World -> Prop) (m : M A) (Q : A -> World -> Prop) :
  (forall w, P' w -> P w) -> yields P m Q -> yields P' m Q.
Proof. intros Hp Hm w Hw. apply Hm, Hp, Hw. Qed.

Lemma yields_given {A} (C : Prop) (P : World -> Prop) (m : M A)
    (Q : A -> World -> Prop) :
  (C -> yields P m Q) -> yields (fun w => C /\ P w) m Q.
Proof. intros H w [Hc Hw]. apply (H Hc), Hw. Qed.


Section AtRest.
Variables (mid : Z) (me : User) (t : Z).

Lemma yields_pure {A} (f : World -> A) q m :
  yields (at_rest mid q m me t) (fun w => (inr (f w), w))
    (fun a w => a = f w /\ at_rest mid q m me t w).
Proof. intros w Hw. exists (f w), w. auto. Qed.

Lemma yields_utcnow q m :
  yields (at_rest mid q m me t) utcnow (fun a w => a = t /\ at_rest mid q m me t w).
Proof.
  intros w Hw. exists (now w), w. split; [reflexivity|].
  split; [apply Hw | exact Hw].
Qed.





Lemma yields_on_message f c q m :
  yields (at_rest mid q (Some m) me t) (on_message mid f c)
    (fun _ w => exists w0, client_user w0 = me /\
                  at_rest mid q (Some (f w0 m)) me t w).
Proof.
  intros w (Hf & Hq & Hm & Hme & Ht). eexists tt, _.
  split; [apply (on_message_ok _ _ _ m); assumption|].
  exists w. split; [exact Hme|].
  repeat split; auto. cbn. apply lookup_insert_eq.
Qed.

Lemma yields_add_reaction q m :
  yields (at_rest mid q (Some m) me t) (add_reaction mid)
    (fun _ => at_rest mid q (Some (with_reactions (react me (m_reactions m)) m)) me t).
Proof.
  eapply yields_post; [apply yields_on_message|].
  intros ? w (w0 & E & H). cbv beta in H. rewrite E in H. exact H.
Qed.

Lemma yields_remove_reaction q m :
  yields (at_rest mid q (Some m) me t) (remove_reaction mid)
    (fun _ => at_rest mid q (Some (with_reactions (unreact me (m_reactions m)) m)) me t).
Proof.
  eapply yields_post; [apply yields_on_message|].
  intros ? w (w0 & E & H). cbv beta in H. rewrite E in H. exact H.
Qed.

Lemma yields_edit e q m :
  yields (at_rest mid q (Some m) me t) (edit mid e)
    (fun _ => at_rest mid q (Some (with_embed e m)) me t).
Proof.
  eapply yields_post; [apply yields_on_message|].
  intros ? w (w0 & _ & H). exact H.
Qed.




Lemma yields_update_petition_signatures n q m :
  yields (at_rest mid q m me t) (update_petition_signatures mid n)
    (fun _ => at_rest mid (set_signatures n <$> q) m me t).
Proof.
  intros w (Hf & Hq & Hm & Hme & Ht). rewrite update_petition_signatures_run, Hq.
  destruct q as [p|]; eexists tt, _; (split; [reflexivity|]).
  - repeat split; auto. cbn. apply lookup_insert_eq.
  - repeat split; auto.
Qed.

Lemma yields_mark_petition_expired q m :
  yields (at_rest mid q m me t) (mark_petition_expired mid)
    (fun _ => at_rest mid (set_expired <$> q) m me t).
Proof.
  intros w (Hf & Hq & Hm & Hme & Ht). rewrite mark_petition_expired_run, Hq.
  destruct q as [p|]; eexists _, _; (split; [reflexivity|]).
  - repeat split; auto. cbn. apply lookup_insert_eq.
  - repeat split; auto.
Qed.

Lemma yields_mark_threshold_reached q m :
  yields (at_rest mid q m me t) (mark_threshold_reached mid)
    (fun _ => at_rest mid (set_threshold_reached <$> q) m me t).
Proof.
  intros w (Hf & Hq & Hm & Hme & Ht). rewrite mark_threshold_reached_run, Hq.
  destruct q as [p|]; eexists _, _; (split; [reflexivity|]).
  - repeat split; auto. cbn. apply lookup_insert_eq.
  - repeat split; auto.
Qed.

End AtRest.

Ltac yields_with lem :=
  eapply yields_bind;
  [ apply lem
  | let a := fresh "a" in
    intros a; try (apply yields_given; intros ->) ].

(** ** The repair pass, petition by petition *)










(** ** A threshold reached with nobody to tell *)

Section AtRestHandler.
Variables (mid : Z) (me : User) (t : Z).

Lemma yields_reaction_users r q m :
  yields (at_rest mid q m me t) (reaction_users r)
    (fun a w => a = r_users r /\ at_rest mid q m me t w).
Proof.
  intros w Hw. exists (r_users r), w.
  split; [apply reaction_users_ok, Hw | auto].
Qed.

Lemma yields_manage_bot_signature us q m :
  yields (at_rest mid q (Some m) me t) (manage_bot_signature mid us)
    (fun _ w => exists m1, at_rest mid q (Some m1) me t w).
Proof.
  assert (forall b,
            yields (at_rest mid q (Some m) me t)
              (try_except
                 (if (Z.of_nat (length (human_users us)) =? 0) && negb b
                  then add_reaction mid
                  else if (0 <? Z.of_nat (length (human_users us))) && b
                  then remove_reaction mid
                  else ret tt)
                 (fun _ => ret tt))
              (fun _ w => exists m1, at_rest mid q (Some m1) me t w)) as H;
    [|intros w Hw; apply (H (has_user (client_user w) us) w Hw)].
  intros b. apply yields_try.
  destruct ((Z.of_nat (length (human_users us)) =? 0) && negb b).
  { eapply yields_post; [apply yields_add_reaction|].
    intros ? w H. eexists. exact H. }
  destruct ((0 <? Z.of_nat (length (human_users us))) && b).
  { eapply yields_post; [apply yields_remove_reaction|].
    intros ? w H. eexists. exact H. }
  eapply yields_post; [apply yields_ret|]. intros ? w [_ H]. eexists. exact H.
Qed.

Lemma yields_notify_threshold_reached p q m :
  yields (at_rest mid q m me t) (notify_threshold_reached p mid)
    (fun _ => at_rest mid q m me t).
Proof.
  intros w Hw. pose proof Hw as (Hf & _).
  exists tt. unfold notify_threshold_reached, try_except, bind, get_world,
    remote_call, emit, ret, raise.
  destruct (submission_channel w); cbn; [|eauto].
  destruct (created_at p); cbn; [| |eauto];
    rewrite Hf; cbn; eexists; (split; [reflexivity | exact Hw]).
Qed.

Lemma reconcile_crossing p m :
  m_embeds m <> [] -> crossing p (human_count m) = true ->
  yields (at_rest mid (Some p) (Some m) me t) (reconcile mid m p)
    (fun _ w => exists m',
       at_rest mid (Some (set_threshold_reached (set_signatures (human_count m) p)))
         (Some m') me t w).
Proof.
  intros Hemb Hcross. unfold reconcile.
  destruct (List.find is_ballpoint (m_reactions m)) as [r|] eqn:Hr.
  2:{ exfalso. unfold crossing, human_count, signers in Hcross. rewrite Hr in Hcross.
      apply andb_true_iff in Hcross as [H _]. apply Z.leb_le in H.
      pose proof (threshold_positive p). simpl in H. lia. }
  assert (Z.of_nat (length (human_users (r_users r))) = human_count m) as Hcount
    by (unfold human_count, signers; rewrite Hr; reflexivity).
  eapply yields_bind with
    (Q := fun a w => a = Some (r_users r) /\ at_rest mid (Some p) (Some m) me t w).
  { apply yields_try. yields_with yields_reaction_users.
    eapply yields_post; [apply yields_ret|]. intros ? w [-> H]. auto. }
  intros fetched. apply yields_given. intros ->. rewrite Hcount.
  eapply yields_bind; [apply yields_manage_bot_signature | intros ?].
  intros w [m1 Hw]. revert w Hw.
  eapply yields_bind; [apply yields_update_petition_signatures | intros ?].
  cbn [fmap option_fmap option_map].
  unfold publish_count. destruct (m_embeds m) as [|embed rest]; [contradiction|].
  fold (crossing p (human_count m)). rewrite Hcross.
  eapply yields_bind; [apply yields_notify_threshold_reached | intros ?].
  eapply yields_bind; [apply yields_mark_threshold_reached | intros ?].
  cbn [fmap option_fmap option_map].
  eapply yields_post; [apply yields_edit|]. intros ? w H. eexists. exact H.
Qed.
End AtRestHandler.

(** X9: a threshold reached with nobody to tell.  When the handler finds
    that the human signatures meet the threshold of a petition for the
    first time and the admin channel is not found, it still records
    [threshold_reached] and the count, tells nobody, and nothing that runs
    later ever sends the notification: the announcement is lost. *)
Theorem crossing_without_admin_channel (w : World) (mid : Z) (m : Message)
    (p : Petition) :
  petitions_channel w = true ->
  submission_channel w = false ->
  faults w = [] ->
  messages w !! mid = Some m ->
  petitions_file w !! mid = Some p ->
  (forall T, created_at p = Aware T -> now w <= T + timedelta_days 30) ->
  m_embeds m <> [] ->
  crossing p (human_count m) = true ->
  let w1 := exec (handle_petition_reaction (pen_event mid)) w in
  petitions_file w1 !! mid =
    Some (set_threshold_reached (set_signatures (human_count m) p)) /\
  announcements mid (trace w1) = announcements mid (trace w) /\
  forall os, announcements mid (trace (run_ops os w1)) = announcements mid (trace w).
Proof.
  intros Hch Hsub Hf Hm Hp Hage Hemb Hcross w1.
  assert (petitions_file w1 !! mid =
          Some (set_threshold_reached (set_signatures (human_count m) p))) as Hq.
  { subst w1. unfold exec.
    rewrite (handle_petition_reaction_live mid m p w Hch Hf Hm Hp Hage).
    destruct (reconcile_crossing mid (client_user w) (now w) p m Hemb Hcross w)
      as ([] & w' & Hrun & m' & _ & Hfile & _).
    { repeat split; auto. }
    rewrite (try_run _ _ _ _ _ Hrun). exact Hfile. }
  assert (announcements mid (trace w1) = announcements mid (trace w)) as Hquiet.
  { destruct (calm_handle_petition_reaction (pen_event mid) w)
      as (_ & _ & _ & _ & _ & H). apply H, Hsub. }
  split; [exact Hq|]. split; [exact Hquiet|].
  intros os. rewrite <- Hquiet.
  destruct (evolves_run_ops os w1) as [_ Hann].
  destruct (Hann mid) as [H | (n & q & _ & Hfalse & _)]; [exact H|].
  unfold reached in Hfalse. rewrite Hq in Hfalse. discriminate.
Qed.

Lemma crossing_without_admin_channel_witness :
  let w1 := exec (handle_petition_reaction (pen_event 5)) unheard_world in
  petitions_file w1 !! 5 =
    Some (set_threshold_reached
            (set_signatures (human_count crowded_message) (set_signatures 24 docks))) /\
  announcements 5 (trace w1) = announcements 5 (trace unheard_world) /\
  forall os, announcements 5 (trace (run_ops os w1)) =
             announcements 5 (trace unheard_world).
Proof.
  apply (crossing_without_admin_channel unheard_world 5 crowded_message
           (set_signatures 24 docks)); try reflexivity.
  - intros T HT. injection HT as <-. vm_compute. discriminate.
  - discriminate.
Defined.

(** ** Start-up *)

Lemma exec_seq (m k : M unit) w :
  never_raises m -> exec (m ;;; k) w = exec k (exec m w).
Proof. intros Hm. rewrite exec_bind, (never_raises_unit m w Hm). reflexivity. Qed.

Lemma calm_clear w w' :
  calm w w' -> faults w = [] -> petitions_channel w = true ->
  faults w' = [] /\ petitions_channel w' = true.
Proof. intros (H1 & _ & H3 & _) Hf Hch. split; [auto | congruence]. Qed.

(** X10: the start-up sequence ends with every petition settled.  With
    the platform answering, the petitions channel found and no creation
    date in the document lacking its time zone, after the repair pass,
    the expiry sweep and the signature sweep have run in that order,
    every petition in the document is closed (expired, completed or
    invalid), or older than 30 days, or stores exactly the number of
    human signers on its live message.  The clock is read as the same
    instant throughout. *)
Theorem startup_settles (w : World) :
  faults w = [] ->
  petitions_channel w = true ->
  dates_aware (petitions_file w) = true ->
  let w' := exec staggered_petition_startup w in
  forall mid q, petitions_file w' !! mid = Some q ->
    skipped q = true \/ too_old q (now w') = true \/
    exists m, messages w' !! mid = Some m /\ human_count m = signatures q.
Proof.
  intros Hf Hch Hdates w'. subst w'.
  destruct never_raises_remote_handlers as (_ & Hrepair & _ & Hexpiry & _).
  unfold staggered_petition_startup.
  rewrite !exec_seq by first [apply never_raises_sleep | assumption].
  set (w1 := exec (sleep (seconds 2)) w).
  set (w2 := exec (sleep (seconds 3)) w1).
  set (w3 := exec repair_petition_system w2).
  set (w4 := exec (sleep (seconds 5)) w3).
  set (w5 := exec check_all_petitions_for_expiry w4).
  set (w6 := exec (sleep (seconds 3)) w5).
  assert (calm w w6) as Hcalm.
  { transitivity w1; [apply calm_sleep|].
    transitivity w2; [apply calm_sleep|].
    transitivity w3; [apply calm_repair_petition_system|].
    transitivity w4; [apply calm_sleep|].
    transitivity w5; [apply calm_check_all_petitions_for_expiry|].
    apply calm_sleep. }
  assert (same_dates w w6) as Hsame.
  { transitivity w1; [apply same_dates_sleep|].
    transitivity w2; [apply same_dates_sleep|].
    transitivity w3; [apply same_dates_repair_petition_system|].
    transitivity w4; [apply same_dates_sleep|].
    transitivity w5; [apply same_dates_check_all_petitions_for_expiry|].
    apply same_dates_sleep. }
  destruct (calm_clear _ _ Hcalm Hf Hch) as [Hf6 Hch6].
  destruct (verify_settles_all w6 Hf6 Hch6 (dates_aware_same_dates _ _ Hsame Hdates))
    as [_ Hsettled].
  intros mid. apply Hsettled.
Qed.

Lemma startup_settles_witness :
  let w' := exec staggered_petition_startup neglected_world in
  faults neglected_world = [] /\
  forall mid q, petitions_file w' !! mid = Some q ->
    skipped q = true \/ too_old q (now w') = true \/
    exists m, messages w' !! mid = Some m /\ human_count m = signatures q.
Proof.
  split; [reflexivity|].
  apply (startup_settles neglected_world); reflexivity.
Defined.

(** ** Creating a petition *)



Lemma followup_send_ok {A} (answer : A) w :
  faults w = [] -> followup_send answer w = (inr answer, w).
Proof.
  intros Hf. unfold followup_send.
  rewrite (bind_run _ _ _ _ _ (remote_call_ok w Hf)). reflexivity.
Qed.





(** ** The admin commands *)

Lemma invalid_fields_closed (count total : nat) (l : list (Z * Petition)) :
  (count <= 10)%nat ->
  invalid_fields count total l =
  (List.map (fun item => invalid_entry item.1 item.2) (take (10 - count) l) ++
   if (10 - count <? length l)%nat
   then [mkField "..."
           ("And " ++ str_of_Z (Z.of_nat (total - 10)) ++ " more invalid petitions")
           false]
   else [])%list.
Proof.
  revert count. induction l as [|[mid p] l IH]; intros count Hc.
  - cbn. rewrite take_nil. reflexivity.
  - cbn [invalid_fields]. destruct (Nat.leb_spec 10 count) as [H|H].
    + assert (count = 10%nat) as -> by lia. reflexivity.
    + rewrite IH by lia.
      replace (10 - count)%nat with (S (10 - S count)) by lia.
      cbn [take List.map fst snd length app]. reflexivity.
Qed.

Lemma elem_of_items_in (order : list Z) (d : gmap Z Petition) mid p :
  list_to_set order = dom d ->
  (mid, p) ∈ items_in order d <-> d !! mid = Some p.
Proof.
  intros Hdom. unfold items_in. rewrite list_elem_of_omap. split.
  - intros (k & _ & Hk). destruct (d !! k) as [r|] eqn:E; [|discriminate].
    injection Hk as <- <-. exact E.
  - intros Hp. exists mid. split; [|rewrite Hp; reflexivity].
    apply (elem_of_list_to_set (C := gset Z)). rewrite Hdom.
    apply elem_of_dom. eauto.
Qed.

Lemma items_in_keys (order : list Z) (d : gmap Z Petition) :
  list_to_set order = dom d -> (items_in order d).*1 = order.
Proof.
  intros Hdom. unfold items_in.
  assert (forall k, k ∈ order -> is_Some (d !! k)) as Hall.
  { intros k Hk. apply elem_of_dom. rewrite <- Hdom.
    apply elem_of_list_to_set, Hk. }
  clear Hdom. induction order as [|k order IH]; [reflexivity|].
  cbn [omap list_omap]. destruct (Hall k) as [r ->]; [left|].
  cbn. f_equal. apply IH. intros j Hj. apply Hall. right. exact Hj.
Qed.

(** X13: the report of invalid petitions, for an admin and with the
    platform answering, the file listing each of its petitions once, in
    [order].  The command changes nothing, and answers with the report
    built from the document: "no invalid petitions" exactly when no
    petition is marked invalid; otherwise the number of invalid petitions,
    one entry for each of the first ten in the order of the file, and,
    when there are more than ten, one last field telling how many were
    left out.  With at most ten invalid petitions every one of them has
    its entry. *)
Theorem invalid_command_answers (order roles : list Z) (w : World) :
  has_admin_role roles = true ->
  faults w = [] ->
  NoDup order ->
  list_to_set order = dom (petitions_file w) ->
  let items := items_in order (petitions_file w) in
  let listed := List.filter (fun item => invalid item.2) items in
  let command := manage_invalid_petitions_command order roles in
  exec command w = w /\
  outcome command w = inr (invalid_report items) /\
  items.*1 = order /\
  (invalid_report items = NoInvalidPetitions <->
   forall mid p, petitions_file w !! mid = Some p -> invalid p = false) /\
  forall d fields,
    invalid_report items = InvalidPetitions d fields ->
    d = "Found " ++ str_of_Z (Z.of_nat (length listed)) ++ " invalid petition(s)" /\
    fields =
      (List.map (fun item => invalid_entry item.1 item.2) (take 10 listed) ++
       if (10 <? length listed)%nat
       then [mkField "..."
               ("And " ++ str_of_Z (Z.of_nat (length listed - 10)) ++
                " more invalid petitions")
               false]
       else [])%list /\
    ((length listed <= 10)%nat ->
     forall mid p, petitions_file w !! mid = Some p -> invalid p = true ->
       invalid_entry mid p ∈ fields).
Proof.
  intros Hadmin Hf _ Hdom items listed command.
  assert (command w = (inr (invalid_report items), w)) as Hrun.
  { unfold command, manage_invalid_petitions_command, defer. rewrite Hadmin.
    cbn [negb]. rewrite (bind_run _ _ _ _ _ (remote_call_ok w Hf)).
    apply try_run.
    rewrite (bind_run load_petition_data _ w (petitions_file w) w) by reflexivity.
    apply followup_send_ok, Hf. }
  unfold exec, outcome. rewrite Hrun. cbn [fst snd].
  split; [reflexivity|]. split; [reflexivity|].
  split; [apply items_in_keys, Hdom|].
  assert (forall mid p, (mid, p) ∈ listed <->
            petitions_file w !! mid = Some p /\ invalid p = true) as Hlisted.
  { intros mid p. unfold listed.
    rewrite list_elem_of_In, filter_In, <- list_elem_of_In.
    unfold items. rewrite (elem_of_items_in _ _ _ _ Hdom). reflexivity. }
  unfold invalid_report. fold listed. split.
  - destruct listed as [|[mid p] rest] eqn:E.
    + split; [|reflexivity]. intros _ mid p Hp.
      destruct (invalid p) eqn:Hinv; [|reflexivity].
      exfalso. eapply not_elem_of_nil. apply Hlisted. eauto.
    + split; [discriminate|]. intros Hnone. exfalso.
      destruct (Hlisted mid p) as [H _].
      destruct H as [Hp Hinv]; [left|]. rewrite (Hnone mid p Hp) in Hinv. discriminate.
  - intros d fields Hreport.
    assert (d = "Found " ++ str_of_Z (Z.of_nat (length listed)) ++ " invalid petition(s)" /\
            fields = invalid_fields 0 (length listed) listed) as [-> ->].
    { destruct listed; [discriminate|]. injection Hreport as <- <-. auto. }
    rewrite invalid_fields_closed by lia. rewrite Nat.sub_0_r.
    split; [reflexivity|]. split; [reflexivity|].
    intros Hfew mid p Hp Hinv.
    rewrite take_ge by exact Hfew.
    apply elem_of_app. left. apply list_elem_of_In, in_map_iff.
    exists (mid, p). split; [reflexivity|].
    apply list_elem_of_In, Hlisted. auto.
Qed.

Lemma invalid_command_answers_witness :
  let w := graveyard_world in
  let order := [100; 12; 11; 10; 9; 8; 7; 6; 5; 4; 3; 2; 1] in
  let items := items_in order (petitions_file w) in
  let listed := List.filter (fun item => invalid item.2) items in
  let command := manage_invalid_petitions_command order [7; ADMIN_ROLE_ID] in
  exec command w = w /\
  outcome command w = inr (invalid_report items) /\
  items.*1 = order /\
  (invalid_report items = NoInvalidPetitions <->
   forall mid p, petitions_file w !! mid = Some p -> invalid p = false) /\
  forall d fields,
    invalid_report items = InvalidPetitions d fields ->
    d = "Found " ++ str_of_Z (Z.of_nat (length listed)) ++ " invalid petition(s)" /\
    fields =
      (List.map (fun item => invalid_entry item.1 item.2) (take 10 listed) ++
       if (10 <? length listed)%nat
       then [mkField "..."
               ("And " ++ str_of_Z (Z.of_nat (length listed - 10)) ++
                " more invalid petitions")
               false]
       else [])%list /\
    ((length listed <= 10)%nat ->
     forall mid p, petitions_file w !! mid = Some p -> invalid p = true ->
       invalid_entry mid p ∈ fields).
Proof.
  apply (invalid_command_answers [100; 12; 11; 10; 9; 8; 7; 6; 5; 4; 3; 2; 1]
           [7; ADMIN_ROLE_ID] graveyard_world).
  - reflexivity.
  - reflexivity.
  - apply (bool_decide_unpack _). vm_compute. exact I.
  - vm_compute. reflexivity.
Defined.

(** The report follows the file, not the message ids: with the twelve
    petitions struck off listed from the latest to the earliest, the ten
    entries are those of petitions 12 down to 3, and two are left out. *)
Example report_follows_file_order :
  let order := [100; 12; 11; 10; 9; 8; 7; 6; 5; 4; 3; 2; 1] in
  exists d fields,
    invalid_report (items_in order graveyard) = InvalidPetitions d fields /\
    d = "Found 12 invalid petition(s)" /\
    List.map f_value (take 2 fields) =
      List.map (fun i => f_value (invalid_entry i scrapped_docks)) [12; 11] /\
    List.map f_value (drop 10 fields) = ["And 2 more invalid petitions"].
Proof. eexists _, _. split; [vm_compute; reflexivity|]. vm_compute. auto. Qed.

Lemma send_message_quiet {A} (answer : A) w :
  let w' := exec (send_message answer) w in
  petitions_file w' = petitions_file w /\ messages w' = messages w /\
  trace w' = trace w /\
  forall a, outcome (send_message answer) w = inr a -> a = answer.
Proof.
  unfold exec, outcome, send_message, bind, remote_call, ret.
  destruct (faults w) as [|[e|] fs]; cbn; repeat split; congruence.
Qed.

(** X14: the admin commands need the admin role.  For a user without it,
    the repair command and the report of invalid petitions touch neither
    the document nor any message, make no traced call, and answer (when
    the answer gets through) that permission is denied, whatever the
    platform does and in whatever order the file lists its petitions. *)
Theorem commands_need_admin_role (order roles : list Z) (w : World) :
  has_admin_role roles = false ->
  (let w' := exec (repair_petitions_command roles) w in
   petitions_file w' = petitions_file w /\ messages w' = messages w /\
   trace w' = trace w /\
   forall a, outcome (repair_petitions_command roles) w = inr a -> a = RepairDenied) /\
  (let w' := exec (manage_invalid_petitions_command order roles) w in
   petitions_file w' = petitions_file w /\ messages w' = messages w /\
   trace w' = trace w /\
   forall a, outcome (manage_invalid_petitions_command order roles) w = inr a ->
     a = PermissionDenied).
Proof.
  intros Hnone.
  unfold repair_petitions_command, manage_invalid_petitions_command.
  rewrite Hnone. cbn [negb]. split; apply send_message_quiet.
Qed.

Lemma commands_need_admin_role_witness :
  (let w' := exec (repair_petitions_command [7; 8]) neglected_world in
   petitions_file w' = petitions_file neglected_world /\
   messages w' = messages neglected_world /\
   trace w' = trace neglected_world /\
   forall a, outcome (repair_petitions_command [7; 8]) neglected_world = inr a ->
     a = RepairDenied) /\
  (let w' := exec (manage_invalid_petitions_command [5] [7; 8]) neglected_world in
   petitions_file w' = petitions_file neglected_world /\
   messages w' = messages neglected_world /\
   trace w' = trace neglected_world /\
   forall a, outcome (manage_invalid_petitions_command [5] [7; 8]) neglected_world = inr a ->
     a = PermissionDenied).
Proof. apply (commands_need_admin_role [5] [7; 8] neglected_world). reflexivity. Defined.

(** X15: the repair command always reports success.  For an admin and
    with the platform answering, the command does what the repair pass
    does and then answers that the repair is complete; since the repair
    pass keeps its failures to itself, the answer is the same when the
    petitions channel is not found and nothing at all was repaired. *)
Theorem repair_command_reports_complete (roles : list Z) (w : World) :
  has_admin_role roles = true ->
  faults w = [] ->
  let command := repair_petitions_command roles in
  outcome command w = inr RepairComplete /\
  exec command w = exec repair_petition_system w /\
  (petitions_channel w = false -> exec command w = w).
Proof.
  intros Hadmin Hf command.
  destruct never_raises_remote_handlers as (_ & Hrepair & _).
  assert (repair_petition_system w = (inr tt, exec repair_petition_system w)) as Hrun.
  { pose proof (never_raises_unit _ w Hrepair) as H. unfold outcome, exec in *.
    destruct (repair_petition_system w) as [r w']. cbn in *. congruence. }
  assert (faults (exec repair_petition_system w) = []) as Hf'
    by (apply (calm_repair_petition_system w), Hf).
  assert (command w = (inr RepairComplete, exec repair_petition_system w)) as Hcmd.
  { unfold command, repair_petitions_command, defer. rewrite Hadmin. cbn [negb].
    rewrite (bind_run _ _ _ _ _ (remote_call_ok w Hf)).
    apply try_run. rewrite (bind_run _ _ _ _ _ Hrun).
    apply followup_send_ok, Hf'. }
  unfold outcome, exec at 1 3. rewrite Hcmd. cbn [fst snd].
  split; [reflexivity|]. split; [reflexivity|].
  intros Hch. unfold repair_petition_system. rewrite exec_try_ret.
  unfold exec, bind, get_channel. rewrite Hch. reflexivity.
Qed.

Lemma repair_command_reports_complete_witness :
  let w := offline_world in
  let command := repair_petitions_command [ADMIN_ROLE_ID] in
  outcome command w = inr RepairComplete /\
  exec command w = exec repair_petition_system w /\
  (petitions_channel w = false -> exec command w = w).
Proof.
  apply (repair_command_reports_complete [ADMIN_ROLE_ID]); reflexivity.
Defined.

(** ** Setting the handlers up again *)

Lemma times_one (m : M unit) w : times 1 m w = m w.
Proof. reflexivity. Qed.

Lemma bind_ext {A B} (m m' : M A) (f : A -> M B) w :
  m w = m' w -> bind m f w = bind m' f w.
Proof. intros H. unfold bind. rewrite H. reflexivity. Qed.

Lemma setups_fresh (n : nat) :
  let client := setups n fresh_client in
  (is_Some (on_raw_reaction_add client) <-> (0 < n)%nat) /\
  (is_Some (on_raw_reaction_remove client) <-> (0 < n)%nat) /\
  (is_Some (original_on_raw_reaction_add client) <-> (1 < n)%nat) /\
  (is_Some (original_on_raw_reaction_remove client) <-> (1 < n)%nat) /\
  forall payload w,
    fire (on_raw_reaction_add client) payload w =
      times ((n + 1) / 2) (handle_petition_reaction payload) w /\
    fire (on_raw_reaction_remove client) payload w =
      times ((n + 1) / 2) (handle_petition_reaction payload) w /\
    fire (original_on_raw_reaction_add client) payload w =
      times (n / 2) (handle_petition_reaction payload) w /\
    fire (original_on_raw_reaction_remove client) payload w =
      times (n / 2) (handle_petition_reaction payload) w.
Proof.
  induction n as [|n IH].
  - cbn. repeat split; try (intros [x Hx]; discriminate); try lia.
  - destruct IH as (A1 & A2 & A3 & A4 & IH). cbv zeta in *.
    cbn [setups setup_petition_handlers fst on_raw_reaction_add
         on_raw_reaction_remove original_on_raw_reaction_add
         original_on_raw_reaction_remove].
    set (client := setups n fresh_client) in *.
    assert ((S n + 1) / 2 = S (n / 2))%nat as ->
      by (replace (S n + 1)%nat with (n + 1 * 2)%nat by lia;
          rewrite Nat.div_add by lia; lia).
    replace (S n / 2)%nat with ((n + 1) / 2)%nat by (f_equal; lia).
    assert (forall slot payload w,
              (is_Some slot <-> (1 < n)%nat) ->
              (forall w, fire slot payload w =
                         times (n / 2) (handle_petition_reaction payload) w) ->
              chained slot payload w =
              times (S (n / 2)) (handle_petition_reaction payload) w) as Hchain.
    { intros slot payload w Hsome Hfire. destruct slot as [callback|]; cbn [chained times].
      - apply bind_ext, Hfire.
      - assert (n / 2 = 0)%nat as ->; [|reflexivity].
        destruct n as [|[|n]]; [reflexivity | reflexivity |].
        exfalso. assert (is_Some (@None (Payload -> M unit))) as [x Hx]
          by (apply Hsome; lia). discriminate. }
    assert (forall current original : option (Payload -> M unit),
              (is_Some current <-> (0 < n)%nat) ->
              (is_Some original <-> (1 < n)%nat) ->
              (is_Some match current with
                       | Some callback => Some callback
                       | None => original
                       end <-> (1 < S n)%nat)) as Hkeep.
    { intros current original H1 H2. destruct current as [c|].
      - assert (0 < n)%nat by (apply H1; eauto). split; [lia | eauto].
      - rewrite H2. split; [lia|]. intros H. exfalso.
        assert (is_Some (@None (Payload -> M unit))) as [x Hx] by (apply H1; lia).
        discriminate. }
    assert (forall (current original : option (Payload -> M unit)) payload w,
              (is_Some current <-> (0 < n)%nat) ->
              (is_Some original <-> (1 < n)%nat) ->
              fire match current with
                   | Some callback => Some callback
                   | None => original
                   end payload w = fire current payload w) as Hfire.
    { intros current original payload w H1 H2. destruct current as [c|]; [reflexivity|].
      destruct original as [o|]; [|reflexivity]. exfalso.
      assert (is_Some (@None (Payload -> M unit))) as [x Hx]
        by (apply H1; assert (1 < n)%nat by (apply H2; eauto); lia).
      discriminate. }
    split; [split; [lia | eauto]|]. split; [split; [lia | eauto]|].
    split; [apply Hkeep; assumption|]. split; [apply Hkeep; assumption|].
    intros payload w. destruct (IH payload w) as (B1 & B2 & B3 & B4).
    cbn [fire]. rewrite !Hfire by assumption.
    repeat split; try assumption; apply Hchain; try assumption;
      intros v; apply (IH payload v).
Qed.

(** X16: setting the handlers up again piles them up.  [on_ready] calls
    [setup_petition_handlers] at every connection; on the client of this
    bot, which has no reaction callback of its own, the callback in place
    after [n + 1] connections runs the petition handler [n / 2 + 1] times
    for each reaction event, for additions and removals alike: once after
    the first and second connection, twice after the third. *)
Theorem handlers_pile_up (n : nat) (payload : Payload) (w : World) :
  let client := setups (S n) fresh_client in
  is_Some (on_raw_reaction_add client) /\
  is_Some (on_raw_reaction_remove client) /\
  fire (on_raw_reaction_add client) payload w =
    times (S (n / 2)) (handle_petition_reaction payload) w /\
  fire (on_raw_reaction_remove client) payload w =
    times (S (n / 2)) (handle_petition_reaction payload) w.
Proof.
  destruct (setups_fresh (S n)) as (A1 & A2 & _ & _ & H).
  destruct (H payload w) as (B1 & B2 & _).
  assert ((S n + 1) / 2 = S (n / 2))%nat as E
    by (replace (S n + 1)%nat with (n + 1 * 2)%nat by lia;
        rewrite Nat.div_add by lia; lia).
  rewrite E in B1, B2.
  split; [apply A1; lia|]. split; [apply A2; lia|]. auto.
Qed.

(** ** Reactions after the expiry time *)

(** X17: reactions after the expiry time.  With the platform answering,
    the first pen reaction event on a petition past [created_at] + 30 days
    that is not yet marked expired closes it: the record gets [expired]
    and keeps its stored count, the first embed is rewritten as expired,
    and the reactions are not reconciled.  Once the record is marked
    expired, an event changes nothing at all: no write, no edit, no
    reaction managed. *)
Theorem handler_after_expiry (w : World) (mid : Z) (p : Petition) (m : Message)
    (T : Z) :
  petitions_channel w = true ->
  faults w = [] ->
  petitions_file w !! mid = Some p ->
  messages w !! mid = Some m ->
  created_at p = Aware T ->
  T + timedelta_days PETITION_EXPIRY_DAYS < now w ->
  let w' := exec (handle_petition_reaction (pen_event mid)) w in
  (expired p = true -> w' = w) /\
  (expired p = false ->
   petitions_file w' = <[mid := set_expired p]> (petitions_file w) /\
   messages w' =
     match m_embeds m with
     | [] => messages w
     | embed :: _ => <[mid := with_embed (expired_embed p embed) m]> (messages w)
     end).
Proof.
  intros Hch Hf Hp Hm HT Hlate w'. subst w'.
  assert (handle_petition_reaction (pen_event mid) w =
          try_except
            (if negb (expired p)
             then _ <- mark_petition_expired mid ;; update_expired_embed mid m p
             else ret tt)
            (fun _ => ret tt) w) as Hrun.
  { unfold handle_petition_reaction, pen_event. cbn [channel_id emoji message_id].
    rewrite Z.eqb_refl, String.eqb_refl. cbn [negb].
    unfold try_except.
    rewrite (bind_run get_channel _ w true w)
      by (unfold get_channel; rewrite Hch; reflexivity).
    cbn [negb].
    rewrite (bind_run _ _ _ _ _ (fetch_message_ok mid m w Hf Hm)).
    rewrite (bind_run load_petition_data _ w (petitions_file w) w) by reflexivity.
    rewrite Hp.
    rewrite (bind_run _ _ _ _ _ (check_petition_expired_run p w)), HT.
    replace (T + timedelta_days PETITION_EXPIRY_DAYS <? now w) with true
      by (symmetry; apply Z.ltb_lt, Hlate).
    destruct (expired p); reflexivity. }
  unfold exec. rewrite Hrun.
  split; intros Hexp; rewrite Hexp; cbn [negb]; [reflexivity|].
  set (w1 := set_file (<[mid := set_expired p]> (petitions_file w)) w).
  assert (mark_petition_expired mid w = (inr true, w1)) as Hmark
    by (rewrite mark_petition_expired_run, Hp; reflexivity).
  destruct (m_embeds m) as [|embed rest] eqn:Hemb.
  - erewrite try_run.
    2:{ rewrite (bind_run _ _ _ _ _ Hmark). unfold update_expired_embed.
        rewrite Hemb. reflexivity. }
    split; reflexivity.
  - erewrite try_run.
    2:{ rewrite (bind_run _ _ _ _ _ Hmark). unfold update_expired_embed, edit.
        rewrite Hemb. apply try_run, (on_message_ok mid _ _ m w1 Hf Hm). }
    split; reflexivity.
Qed.

Lemma handler_after_expiry_witness :
  let w := overdue_world in
  let p := set_signatures 2 docks in
  let w' := exec (handle_petition_reaction (pen_event 5)) w in
  petitions_file w' = <[5 := set_expired p]> (petitions_file w) /\
  messages w' =
    <[5 := with_embed (expired_embed p docks_embed) docks_message]> (messages w).
Proof.
  apply (handler_after_expiry overdue_world 5 (set_signatures 2 docks) docks_message 0);
    reflexivity.
Defined.

(** ** A request that fails during a pass *)

Lemma fetch_message_fails mid e fs w :
  faults w = Some e :: fs -> fetch_message mid w = (inl e, set_faults fs w).
Proof.
  intros Hf. unfold fetch_message, bind, remote_call. rewrite Hf. reflexivity.
Qed.

Lemma sweep_handler_effect mid q status retry_after v w :
  messages v = messages w -> petitions_file v = petitions_file w ->
  now v = now w -> petitions_file w !! mid = Some q ->
  failure_handled mid q status retry_after w
    (exec (sweep_handler mid "Message not found (404)"
             (HTTPException status retry_after)) v).
Proof.
  intros Hm Hfile Hnow Hq. unfold exec, sweep_handler.
  destruct (Z.eqb_spec status 429) as [->|H429].
  { repeat split; auto; try discriminate; intros; congruence. }
  destruct (Z.eqb_spec status 404) as [->|H404].
  { unfold bind. rewrite mark_petition_invalid_run, Hfile, Hq. cbn.
    rewrite Hnow. repeat split; auto; try discriminate; intros; congruence. }
  repeat split; auto; intros; congruence.
Qed.

(** X18: a request that fails while a petition is processed.  In the
    signature sweep, the expiry sweep and the repair pass alike, when the
    age test has let the petition through (in the signature sweep and the
    repair pass that takes a creation date that does not lack its time
    zone) and the fetch of the anchor message fails with an HTTP error: status 429 is
    answered by sleeping the [retry_after] time (5 s when there is none),
    with nothing written and the petition not tried again in this pass;
    status 404 marks the petition invalid with the reason "Message not
    found (404)"; any other status changes nothing.  No message is
    touched. *)
Theorem failed_fetch_in_passes (w : World) (mid : Z) (p q : Petition) (status : Z)
    (retry_after : option Z) (fs : list (option exn)) :
  faults w = Some (HTTPException status retry_after) :: fs ->
  petitions_file w !! mid = Some q ->
  (skipped p = false -> naive_date p = false -> too_old p (now w) = false ->
   failure_handled mid q status retry_after w (exec (verify_one (mid, p)) w)) /\
  (skipped p = false ->
   (exists T, created_at p = Aware T /\
      T + timedelta_days PETITION_EXPIRY_DAYS < now w) ->
   failure_handled mid q status retry_after w (exec (expire_one (mid, p)) w)) /\
  (invalid p = false -> naive_date p = false -> too_old p (now w) = false ->
   failure_handled mid q status retry_after w (exec (repair_one (mid, p)) w)).
Proof.
  intros Hf Hq.
  set (w0 := set_trace (Sleep half_second :: trace w) w).
  assert (faults w0 = Some (HTTPException status retry_after) :: fs) as Hf0 by exact Hf.
  split; [|split].
  - intros Hskip Hdate Hold.
    assert (exec (verify_one (mid, p)) w =
            exec (sweep_handler mid "Message not found (404)"
                    (HTTPException status retry_after)) (set_faults fs w0)) as ->.
    { unfold exec, verify_one. rewrite Hskip.
      rewrite (bind_run _ _ _ _ _ (older_than_expiry_too_old p w Hdate)), Hold.
      unfold try_except.
      rewrite (bind_run (sleep half_second) _ w tt w0) by reflexivity.
      unfold bind at 1. rewrite (fetch_message_fails mid _ fs w0 Hf0). reflexivity. }
    apply sweep_handler_effect; auto.
  - intros Hskip (T & HT & Hlate).
    assert (exec (expire_one (mid, p)) w =
            exec (sweep_handler mid "Message not found (404)"
                    (HTTPException status retry_after)) (set_faults fs w0)) as ->.
    { unfold exec, expire_one. rewrite Hskip.
      rewrite (bind_run _ _ _ _ _ (check_petition_expired_run p w)), HT.
      replace (T + timedelta_days PETITION_EXPIRY_DAYS <? now w) with true
        by (symmetry; apply Z.ltb_lt, Hlate).
      unfold try_except.
      rewrite (bind_run (sleep half_second) _ w tt w0) by reflexivity.
      unfold bind at 1. rewrite (fetch_message_fails mid _ fs w0 Hf0). reflexivity. }
    apply sweep_handler_effect; auto.
  - intros Hinv Hdate Hold.
    assert (exec (repair_one (mid, p)) w =
            exec (sweep_handler mid "Message not found (404)"
                    (HTTPException status retry_after)) (set_faults fs w)) as ->.
    { unfold exec, repair_one. rewrite Hinv.
      rewrite (bind_run _ _ _ _ _ (older_than_expiry_too_old p w Hdate)), Hold.
      unfold try_except.
      unfold bind at 1. rewrite (fetch_message_fails mid _ fs w Hf). reflexivity. }
    apply sweep_handler_effect; auto.
Qed.

Lemma failed_fetch_in_passes_witness :
  let w := throttled_world in
  let p := set_signatures 7 docks in
  failure_handled 5 p 429 (Some (seconds 7)) w (exec (verify_one (5, p)) w) /\
  failure_handled 5 p 429 (Some (seconds 7)) w (exec (expire_one (5, p)) w) /\
  failure_handled 5 p 429 (Some (seconds 7)) w (exec (repair_one (5, p)) w).
Proof.
  destruct (failed_fetch_in_passes throttled_world 5 (set_signatures 7 docks)
              (set_signatures 7 docks) 429 (Some (seconds 7)) [])
    as (H1 & H2 & H3); [reflexivity | reflexivity |].
  split; [apply H1; reflexivity|].
  split; [apply H2; [reflexivity | exists 0; split; reflexivity]|].
  apply H3; reflexivity.
Defined.

(** ** How the markers compose *)

Lemma exec_markers mid w :
  exec (mark_threshold_reached mid) w = amend mid set_threshold_reached w /\
  exec (mark_petition_expired mid) w = amend mid set_expired w /\
  (forall reason,
     exec (mark_petition_invalid mid reason) w =
     amend mid (set_invalid reason (now w)) w) /\
  (forall n, exec (update_petition_signatures mid n) w = amend mid (set_signatures n) w).
Proof.
  unfold exec, amend. repeat split; intros;
    rewrite ?mark_threshold_reached_run, ?mark_petition_expired_run,
      ?mark_petition_invalid_run, ?update_petition_signatures_run;
    destruct (petitions_file w !! mid); reflexivity.
Qed.

Lemma now_amend mid f w : now (amend mid f w) = now w.
Proof. unfold amend. destruct (petitions_file w !! mid); reflexivity. Qed.

Lemma amend_twice mid f g w : amend mid g (amend mid f w) = amend mid (fun p => g (f p)) w.
Proof.
  unfold amend. destruct (petitions_file w !! mid) as [p|] eqn:Hp.
  - cbn [petitions_file set_file]. rewrite lookup_insert_eq.
    unfold set_file. cbn [petitions_file messages petitions_channel
      submission_channel client_user now faults trace].
    rewrite insert_insert_eq. reflexivity.
  - rewrite Hp. reflexivity.
Qed.

Lemma amend_commute a b f g w :
  (forall p, f (g p) = g (f p)) ->
  amend a f (amend b g w) = amend b g (amend a f w).
Proof.
  intros Hfg. destruct (decide (a = b)) as [->|Hne].
  - rewrite !amend_twice. unfold amend.
    destruct (petitions_file w !! b); [rewrite Hfg|]; reflexivity.
  - unfold amend.
    destruct (petitions_file w !! a) as [p|] eqn:Hp,
             (petitions_file w !! b) as [q|] eqn:Hq;
      cbn [petitions_file set_file];
      rewrite ?lookup_insert_ne by congruence; rewrite ?Hp, ?Hq; try reflexivity.
    unfold set_file. cbn [petitions_file messages petitions_channel
      submission_channel client_user now faults trace].
    rewrite insert_insert_ne by congruence. reflexivity.
Qed.

(** X19: how the markers compose.  Marking a petition as having reached
    its threshold or as expired twice is the same as marking it once; of
    two stored counts the last one stays; and a marker and a count update,
    or two different markers, on the same petition or on two, give the
    same document in either order.  So the order in which the handler and
    the sweeps get to write does not matter for the flags. *)
Theorem markers_compose (a b : Z) (n n' : Z) (reason : string) (w : World) :
  let reached := mark_threshold_reached in
  let expire := mark_petition_expired in
  let strike mid := mark_petition_invalid mid reason in
  let count := update_petition_signatures in
  exec (reached a) (exec (reached a) w) = exec (reached a) w /\
  exec (expire a) (exec (expire a) w) = exec (expire a) w /\
  exec (strike a) (exec (strike a) w) = exec (strike a) w /\
  exec (count a n') (exec (count a n) w) = exec (count a n') w /\
  exec (expire b) (exec (reached a) w) = exec (reached a) (exec (expire b) w) /\
  exec (strike b) (exec (reached a) w) = exec (reached a) (exec (strike b) w) /\
  exec (strike b) (exec (expire a) w) = exec (expire a) (exec (strike b) w) /\
  exec (count b n) (exec (reached a) w) = exec (reached a) (exec (count b n) w) /\
  exec (count b n) (exec (expire a) w) = exec (expire a) (exec (count b n) w) /\
  exec (count b n) (exec (strike a) w) = exec (strike a) (exec (count b n) w).
Proof.
  cbv zeta.
  assert (forall mid v, exec (mark_threshold_reached mid) v =
                        amend mid set_threshold_reached v) as E1
    by (intros; apply exec_markers).
  assert (forall mid v, exec (mark_petition_expired mid) v = amend mid set_expired v)
    as E2 by (intros; apply exec_markers).
  assert (forall mid v, exec (mark_petition_invalid mid reason) v =
                        amend mid (set_invalid reason (now v)) v) as E3
    by (intros; apply exec_markers).
  assert (forall mid k v, exec (update_petition_signatures mid k) v =
                          amend mid (set_signatures k) v) as E4
    by (intros; apply exec_markers).
  rewrite !E1, !E2, !E3, !E4, !now_amend, !amend_twice.
  repeat split; try reflexivity; apply amend_commute; reflexivity.
Qed.

(** ** The sweeps and the reactions *)

Lemma same_reactions_mark_petition_expired mid :
  respects same_reactions (mark_petition_expired mid).
Proof.
  intros w. apply same_reactions_of_messages. unfold exec.
  rewrite mark_petition_expired_run. destruct (petitions_file w !! mid); reflexivity.
Qed.

#[export] Hint Resolve same_reactions_mark_petition_expired : respects.

(** X20: the sweeps never touch a reaction.  Whatever the platform does,
    every message has the same reactions after the signature sweep and
    after the expiry sweep as before: a missing or a stale placeholder is
    only ever put right by the reaction handler or by the repair pass. *)
Theorem sweeps_keep_reactions (w : World) (mid : Z) :
  m_reactions <$> messages (exec verify_petition_signature_counts w) !! mid =
    m_reactions <$> messages w !! mid /\
  m_reactions <$> messages (exec check_all_petitions_for_expiry w) !! mid =
    m_reactions <$> messages w !! mid.
Proof.
  split.
  - apply (same_reactions_verify_petition_signature_counts w).
  - revert w mid. change (respects same_reactions check_all_petitions_for_expiry).
    unfold check_all_petitions_for_expiry, expiry_loop, expire_one, sweep_handler,
      check_petition_expired, sleep, update_expired_embed.
    respects_tac.
Qed.

(** ** The repair pass after an expiry *)




(** ** One event, one petition *)

Section HandlerLeaves.
Variable keep : Z.

Hint Resolve leaves_get_world leaves_utcnow leaves_get_channel leaves_load
  leaves_remote_call leaves_emit leaves_on_message leaves_fetch_message
  leaves_mark_threshold_reached leaves_mark_petition_expired
  leaves_mark_petition_invalid leaves_update_petition_signatures : respects.

Lemma leaves_handle_petition_reaction payload :
  message_id payload <> keep ->
  respects (leaves keep) (handle_petition_reaction payload).
Proof.
  intros Hne.
  unfold handle_petition_reaction, reconcile, manage_bot_signature, publish_count,
    notify_threshold_reached, update_expired_embed, check_petition_expired,
    reaction_users, add_reaction, remove_reaction, edit.
  respects_tac.
Qed.
End HandlerLeaves.

(** X22: one event, one petition.  Whatever the platform does, a reaction
    event changes neither the record nor the anchor message of any
    petition other than the one the event is about. *)
Theorem handler_minds_its_petition (payload : Payload) (w : World) (other : Z) :
  message_id payload <> other ->
  let w' := exec (handle_petition_reaction payload) w in
  petitions_file w' !! other = petitions_file w !! other /\
  messages w' !! other = messages w !! other.
Proof.
  intros Hne w'.
  destruct (leaves_handle_petition_reaction other payload Hne w) as (H1 & H2 & _).
  auto.
Qed.

Lemma handler_minds_its_petition_witness :
  let w' := exec (handle_petition_reaction (pen_event 5)) outage_world in
  petitions_file w' !! 6 = petitions_file outage_world !! 6 /\
  messages w' !! 6 = messages outage_world !! 6.
Proof. apply (handler_minds_its_petition (pen_event 5) outage_world 6). discriminate. Defined.

(** ** Two tests of age *)

Lemma days_of_over d x : d < days_of x <-> timedelta_days (d + 1) <= x.
Proof.
  unfold days_of, timedelta_days.
  assert (0 < 1 * 86400 * 1000000) as Hpos by lia.
  split; intros H.
  - assert (d + 1 <= x / (1 * 86400 * 1000000)) as H' by lia.
    pose proof (Z.mul_div_le x _ Hpos). nia.
  - assert (d + 1 <= x / (1 * 86400 * 1000000))
      by (apply Z.div_le_lower_bound; [exact Hpos | lia]).
    lia.
Qed.

(** X23: two tests of age.  The handler and the expiry sweep take a
    petition as expired from [created_at] + 30 days on (strictly after);
    the signature sweep and the repair pass pass it over as too old only
    from [created_at] + 31 days on, since they compare whole days.  So a
    petition too old for the sweep has always expired, and for the day in
    between a petition has expired and is still audited and repaired. *)
Theorem age_tests (p : Petition) (T : Z) (w : World) :
  created_at p = Aware T ->
  (outcome (older_than_expiry p) w = inr true <->
   T + timedelta_days (PETITION_EXPIRY_DAYS + 1) <= now w) /\
  (outcome (check_petition_expired p) w = inr true <->
   T + timedelta_days PETITION_EXPIRY_DAYS < now w) /\
  (outcome (older_than_expiry p) w = inr true ->
   outcome (check_petition_expired p) w = inr true).
Proof.
  intros HT.
  assert (outcome (older_than_expiry p) w = inr true <->
          T + timedelta_days (PETITION_EXPIRY_DAYS + 1) <= now w) as H1.
  { unfold outcome.
    rewrite older_than_expiry_run by (unfold naive_date; rewrite HT; reflexivity).
    rewrite HT. cbn [fst].
    split.
    - intros H. injection H as H. apply Z.ltb_lt, days_of_over in H. lia.
    - intros H. f_equal. apply Z.ltb_lt, days_of_over. lia. }
  assert (outcome (check_petition_expired p) w = inr true <->
          T + timedelta_days PETITION_EXPIRY_DAYS < now w) as H2.
  { unfold outcome. rewrite check_petition_expired_run, HT. cbn [fst].
    split.
    - intros H. injection H as H. apply Z.ltb_lt, H.
    - intros H. f_equal. apply Z.ltb_lt, H. }
  split; [exact H1|]. split; [exact H2|].
  intros H. apply H2. apply H1 in H. unfold timedelta_days, PETITION_EXPIRY_DAYS in *. lia.
Qed.

Lemma age_tests_witness :
  (outcome (older_than_expiry docks) lapsed_world = inr true <->
   0 + timedelta_days (PETITION_EXPIRY_DAYS + 1) <= now lapsed_world) /\
  (outcome (check_petition_expired docks) lapsed_world = inr true <->
   0 + timedelta_days PETITION_EXPIRY_DAYS < now lapsed_world) /\
  (outcome (older_than_expiry docks) lapsed_world = inr true ->
   outcome (check_petition_expired docks) lapsed_world = inr true).
Proof. apply (age_tests docks 0 lapsed_world). reflexivity. Defined.

(** ** Who is told, and when *)

#[global] Instance told_preorder keep : PreOrder (told keep).
Proof.
  split.
  - intros w. reflexivity.
  - intros a b c Hab Hbc. unfold told in *. congruence.
Qed.

Lemma told_quiet keep {A} (m : M A) : respects same_doc m -> respects (told keep) m.
Proof. apply respects_sub. intros w w' [_ H]. apply H. Qed.

#[export] Hint Extern 3 (respects (told _) _) => apply told_quiet : respects.

Lemma told_same_trace keep w w' : trace w' = trace w -> told keep w w'.
Proof. unfold told. intros ->. reflexivity. Qed.

Lemma told_mark_threshold_reached keep mid : respects (told keep) (mark_threshold_reached mid).
Proof.
  intros w. apply told_same_trace. unfold exec. rewrite mark_threshold_reached_run.
  destruct (petitions_file w !! mid); reflexivity.
Qed.

Lemma told_mark_petition_expired keep mid : respects (told keep) (mark_petition_expired mid).
Proof.
  intros w. apply told_same_trace. unfold exec. rewrite mark_petition_expired_run.
  destruct (petitions_file w !! mid); reflexivity.
Qed.

Lemma told_mark_petition_invalid keep mid reason :
  respects (told keep) (mark_petition_invalid mid reason).
Proof.
  intros w. apply told_same_trace. unfold exec. rewrite mark_petition_invalid_run.
  destruct (petitions_file w !! mid); reflexivity.
Qed.

Lemma told_update_petition_signatures keep mid n :
  respects (told keep) (update_petition_signatures mid n).
Proof.
  intros w. apply told_same_trace. unfold exec. rewrite update_petition_signatures_run.
  destruct (petitions_file w !! mid); reflexivity.
Qed.

Lemma told_notify_threshold_reached keep p mid :
  mid <> keep -> respects (told keep) (notify_threshold_reached p mid).
Proof.
  intros Hne w.
  destruct (notify_threshold_reached_run p mid w) as (_ & _ & [H | H]);
    unfold told; rewrite H; [reflexivity|].
  cbn [announcements]. destruct (Z.eqb_spec mid keep); [contradiction | reflexivity].
Qed.

#[export] Hint Resolve told_mark_threshold_reached told_mark_petition_expired
  told_mark_petition_invalid told_update_petition_signatures
  told_notify_threshold_reached : respects.







(** ** The signature sweep completes a petition *)

Lemma notify_threshold_reached_ok p mid T w :
  faults w = [] -> submission_channel w = true -> created_at p = Aware T ->
  notify_threshold_reached p mid w =
  (inr tt, set_trace (AdminSend mid (signatures p) :: trace w) w).
Proof.
  intros Hf Hs HT.
  unfold notify_threshold_reached, try_except, bind, get_world, remote_call, emit, ret.
  rewrite Hs, HT. cbn [negb]. rewrite Hf. reflexivity.
Qed.




(** ** The handler completes a petition *)

(** X26: the signature that completes a petition.  When a pen reaction
    event finds the human signatures of an open petition, within its 30
    days, at or over its threshold for the first time, the handler, with
    the platform answering and the admin channel found, stores the count,
    sets [threshold_reached], sends exactly one notification about the
    petition, showing the count, and leaves the anchor message with the
    green embed showing "count/threshold" and without the placeholder. *)
Theorem handler_completes_petition (w : World) (mid : Z) (m : Message)
    (p : Petition) (embed : Embed) (rest : list Embed) (T : Z) :
  petitions_channel w = true ->
  submission_channel w = true ->
  faults w = [] ->
  user_bot (client_user w) = true ->
  own_account_is_bot (client_user w) (signers m) ->
  petitions_file w !! mid = Some p ->
  messages w !! mid = Some m ->
  created_at p = Aware T ->
  now w <= T + timedelta_days 30 ->
  m_embeds m = embed :: rest ->
  crossing p (human_count m) = true ->
  let A := human_count m in
  let sent := with_color GREEN (show_signatures A (get_petition_threshold p) embed) in
  let w' := exec (handle_petition_reaction (pen_event mid)) w in
  petitions_file w' !! mid = Some (set_threshold_reached (set_signatures A p)) /\
  announcements mid (trace w') = A :: announcements mid (trace w) /\
  exists m',
    messages w' !! mid = Some m' /\
    m_embeds m' = [sent] /\
    human_count m' = A /\
    placeholder_on (client_user w) m' = false.
Proof.
  intros Hch Hs Hf Hbot Hown Hp Hm HT Hearly Hemb Hcross A sent w'. subst w'.
  assert (0 < A) as Hpos.
  { unfold crossing in Hcross. apply andb_true_iff in Hcross as [H _].
    apply Z.leb_le in H. pose proof (threshold_positive p). fold A in H. lia. }
  destruct (List.find is_ballpoint (m_reactions m)) as [r|] eqn:Hr.
  2:{ exfalso. unfold A, human_count, signers in Hpos. rewrite Hr in Hpos.
      cbn in Hpos. lia. }
  assert (signers m = r_users r) as Hsig by (unfold signers; rewrite Hr; reflexivity).
  assert (Z.of_nat (length (human_users (r_users r))) = A) as Hcount
    by (unfold A, human_count; rewrite Hsig; reflexivity).
  rewrite Hsig in Hown.
  destruct (manage_bot_signature_ok mid r m w Hf Hm Hr Hbot Hown)
    as (w1 & m1 & Hrun1 & (F1 & _ & _ & S1 & _) & Hfile1 & Hmsg1 & _ & Hc1 & [_ Hcons1] & _).
  assert (announcements mid (trace w1) = announcements mid (trace w)) as Htold1.
  { destruct (quiet_manage_bot_signature mid (r_users r) w) as [_ H].
    rewrite (exec_of_run _ _ _ _ Hrun1) in H. apply H. }
  assert (faults w1 = []) as Hf1 by congruence.
  assert (submission_channel w1 = true) as Hs1 by congruence.
  set (w2 := set_file (<[mid := set_signatures A p]> (petitions_file w1)) w1).
  set (w3 := set_trace (AdminSend mid A :: trace w2) w2).
  set (w4 := set_file (<[mid := set_threshold_reached (set_signatures A p)]>
                         (petitions_file w3)) w3).
  set (w5 := set_trace (Edit mid sent :: trace w4)
               (set_messages (<[mid := with_embed sent m1]> (messages w4)) w4)).
  assert (messages w4 !! mid = Some m1) as Hm4
    by (change (messages w1 !! mid = Some m1); rewrite Hmsg1; apply lookup_insert_eq).
  assert (handle_petition_reaction (pen_event mid) w = (inr tt, w5)) as Hrun.
  { rewrite (handle_petition_reaction_live mid m p w Hch Hf Hm Hp)
      by (intros T' HT'; assert (T' = T) as -> by congruence; exact Hearly).
    apply try_run. unfold reconcile. rewrite Hr.
    rewrite (bind_run _ _ w (Some (r_users r)) w)
      by (apply try_run; rewrite (bind_run _ _ _ _ _ (reaction_users_ok r w Hf));
          reflexivity).
    rewrite Hcount.
    rewrite (bind_run _ _ _ _ _ Hrun1).
    rewrite (bind_run (update_petition_signatures mid A) _ w1 tt w2)
      by (rewrite update_petition_signatures_run;
          assert (petitions_file w1 !! mid = Some p) as ->
            by (rewrite Hfile1; exact Hp);
          reflexivity).
    unfold publish_count. rewrite Hemb.
    replace ((get_petition_threshold p <=? A) && negb (threshold_reached p))
      with true by (symmetry; exact Hcross).
    rewrite (bind_run (notify_threshold_reached (set_signatures A p) mid) _ w2 tt w3)
      by exact (notify_threshold_reached_ok (set_signatures A p) mid T w2 Hf1 Hs1 HT).
    rewrite (bind_run (mark_threshold_reached mid) _ w3 true w4).
    2:{ rewrite mark_threshold_reached_run.
        assert (petitions_file w3 !! mid = Some (set_signatures A p)) as ->
          by apply lookup_insert_eq.
        reflexivity. }
    unfold edit. exact (on_message_ok mid _ _ m1 w4 Hf1 Hm4). }
  rewrite (exec_of_run _ _ _ _ Hrun).
  split; [apply lookup_insert_eq|]. split.
  - cbn [trace w5 w4 w3 w2 set_trace set_file set_messages announcements].
    rewrite Z.eqb_refl, Htold1. reflexivity.
  - exists (with_embed sent m1). split; [apply lookup_insert_eq|].
    split; [reflexivity|]. split; [exact Hc1|].
    change (placeholder_on (client_user w) m1 = false). rewrite Hcons1.
    fold A in Hc1. rewrite Hc1. apply Z.eqb_neq. lia.
Qed.

Lemma handler_completes_petition_witness :
  let w := crowded_world in
  let p := set_signatures 24 docks in
  let A := human_count crowded_message in
  let sent :=
    with_color GREEN (show_signatures A (get_petition_threshold p) docks_embed) in
  let w' := exec (handle_petition_reaction (pen_event 5)) w in
  petitions_file w' !! 5 = Some (set_threshold_reached (set_signatures A p)) /\
  announcements 5 (trace w') = A :: announcements 5 (trace w) /\
  exists m',
    messages w' !! 5 = Some m' /\
    m_embeds m' = [sent] /\
    human_count m' = A /\
    placeholder_on (client_user w) m' = false.
Proof.
  apply (handler_completes_petition crowded_world 5 crowded_message
           (set_signatures 24 docks) docks_embed [] 0); try reflexivity.
  - unfold own_account_is_bot. vm_compute.
    repeat (constructor; [cbv; discriminate|]). constructor.
  - vm_compute. discriminate.
Defined.
